(** * Extreme precipitation and atmospheric patterns: a verification development

    A shallow embedding of the analysis notebooks of the repository
    (the additional-analysis notebook and the two data-download notebooks)
    together with the properties their specification states about them.

    Conventions of the embedding.
    - A Python float is a [pyfloat]: either [NaN] or an exact rational
      ([Qc]).  Rounding is not modelled; the comparisons with NaN are:
      every ordered comparison with NaN is false.
    - A Python exception is [None] in the [option] monad.
    - Dense labelled arrays are nested lists in C order. *)

From Stdlib Require Import QArith Qcanon.
From stdpp Require Import gmap strings list sorting.

Set Warnings "-clear-no-such-hyp".

(** ** Python floats *)

Module PyFloat.

Inductive pyfloat : Type :=
  | NaN : pyfloat
  | Num : Qc → pyfloat.

#[global] Instance pyfloat_eq_dec : EqDecision pyfloat.
Proof. solve_decision. Defined.

(** [a > b] and [a < b] on floats. *)
Definition fgt (a b : pyfloat) : bool :=
  match a, b with
  | Num x, Num y => bool_decide (y < x)%Qc
  | _, _ => false
  end.

Definition flt (a b : pyfloat) : bool := fgt b a.

(** An integer literal or count seen as a rational. *)
Definition QcZ (z : Z) : Qc := Qc_of_Z z.
Definition Qcnat (n : nat) : Qc := Qc_of_Z (Z.of_nat n).

(** A decimal literal such as [.975] is [975 / 1000]. *)
Definition lit (num : Z) (den : positive) : Qc := Q2Qc (Qmake num den).

Lemma fgt_nan_l b : fgt NaN b = false.
Proof. reflexivity. Qed.

Lemma fgt_nan_r a : fgt a NaN = false.
Proof. by destruct a. Qed.

Lemma fgt_Num x y : fgt (Num x) (Num y) = true ↔ (y < x)%Qc.
Proof. simpl. by rewrite bool_decide_eq_true. Qed.


End PyFloat.

(** ** Decimal digits *)

Module Digits.
Local Open Scope Z_scope.

(** The value of a digit character, and the character of a digit. *)
Definition digit_of (c : Ascii.ascii) : option Z :=
  let n := Z.of_N (Ascii.N_of_ascii c) in
  if decide (48 ≤ n ≤ 57) then Some (n - 48) else None.

Definition digit_char (d : Z) : Ascii.ascii := Ascii.ascii_of_N (Z.to_N (48 + d)).

Fixpoint digits_value (acc : Z) (s : string) : option Z :=
  match s with
  | EmptyString => Some acc
  | String c s' => d ← digit_of c; digits_value (10 * acc + d) s'
  end.

(** [int(s)] for a string of decimal digits (the only strings the date lists
    hold); anything else raises. *)
Definition py_int (s : string) : option Z :=
  match s with
  | EmptyString => None
  | _ => digits_value 0 s
  end.

Lemma digit_of_char (c : Ascii.ascii) (d : Z) :
  digit_of c = Some d → digit_char d = c ∧ 0 ≤ d ≤ 9.
Proof.
  unfold digit_of, digit_char. case_decide as Hc; [|done]. intros [= <-].
  split; [|lia].
  replace (48 + (Z.of_N (Ascii.N_of_ascii c) - 48)) with (Z.of_N (Ascii.N_of_ascii c)) by lia.
  by rewrite N2Z.id, Ascii.ascii_N_embedding.
Qed.

Example py_int_date : py_int "19790131" = Some 19790131.
Proof. reflexivity. Qed.

Example py_int_not_a_number : py_int "1979-01-31" = None.
Proof. reflexivity. Qed.

End Digits.

(** ** Statistical significance flags ([extremes_to_clusters]) *)

Module Significance.
Import PyFloat.
Local Open Scope Z_scope.

(** [Sign = (Binom_Cum_Upper > .975)*1 + (Binom_Cum_Lower < .025)*(-1)],
    at one element of the two (identically shaped) arrays. *)
Definition sign_at (upper lower : pyfloat) : Z :=
  Z.b2z (fgt upper (Num (lit 975 1000))) * 1
  + Z.b2z (flt lower (Num (lit 25 1000))) * (-1).

(** The whole arrays, flattened in C order: [Binom_Cum_Lower] is a deep copy
    of [Binom_Cum_Upper] with new values, so the two carry the same
    dimensions and coordinates and the arithmetic is elementwise. *)
Definition Sign (Binom_Cum_Upper Binom_Cum_Lower : list pyfloat) : list Z :=
  zip_with sign_at Binom_Cum_Upper Binom_Cum_Lower.

Lemma sign_at_cases upper lower :
  sign_at upper lower = -1 ∨ sign_at upper lower = 0 ∨ sign_at upper lower = 1.
Proof.
  unfold sign_at.
  destruct (fgt upper _), (flt lower _); simpl; auto.
Qed.

Example sign_at_upper : sign_at (Num (lit 99 100)) (Num (lit 99 100)) = 1.
Proof. reflexivity. Qed.

Example sign_at_lower : sign_at (Num (lit 1 100)) (Num (lit 1 100)) = -1.
Proof. reflexivity. Qed.

Example sign_at_nan : sign_at NaN NaN = 0.
Proof. reflexivity. Qed.

(** C9: every entry of the significance indicator computed by
    [extremes_to_clusters] is -1, 0 or +1, whatever the two cumulative
    binomial probabilities are (NaN included). *)
Theorem Sign_values (Binom_Cum_Upper Binom_Cum_Lower : list pyfloat) (s : Z) :
  s ∈ Sign Binom_Cum_Upper Binom_Cum_Lower → s = -1 ∨ s = 0 ∨ s = 1.
Proof.
  unfold Sign. intros Hs.
  apply list_elem_of_lookup in Hs as [k Hk].
  apply lookup_zip_with_Some in Hk as (u & l & -> & _ & _).
  apply sign_at_cases.
Qed.

Lemma Sign_values_witness :
  1 ∈ Sign [Num (lit 99 100); NaN] [Num (lit 1 2); NaN] ∧ (1 = -1 ∨ 1 = 0 ∨ 1 = 1).
Proof.
  assert (H : 1 ∈ Sign [Num (lit 99 100); NaN] [Num (lit 1 2); NaN]).
  { apply list_elem_of_here. }
  split; [exact H|].
  exact (Sign_values _ _ 1 H).
Defined.

End Significance.

(** ** Markov transition matrix ([transition_matrix]) *)

Module Transition.
Import PyFloat.

(** The accepted inputs: a one-dimensional item (list, array, Series), or a
    pandas DataFrame, which the function flattens row by row. *)
Inductive input (State : Type) : Type :=
  | Vector (l : list State)
  | Frame (rows : list (list State)).
Arguments Vector {State} l.
Arguments Frame {State} rows.

(** The returned [pd.DataFrame(M, columns=unique_states, index=unique_states)]. *)
Record DataFrame (State : Type) : Type := mkDataFrame {
  index : list State;
  columns : list State;
  values : list (list Qc)
}.
Arguments mkDataFrame {State} index columns values.
Arguments index {State} d.
Arguments columns {State} d.
Arguments values {State} d.

(** [l[k:]], with Python's reading of a negative start. *)
Definition py_slice_from {A} (k : Z) (l : list A) : list A :=
  if decide (0 ≤ k)%Z then drop (Z.to_nat k) l
  else drop (length l - Z.to_nat (- k)) l.

(** The states are the values of one type with equality and an order
    ([le], total where a statement needs it): cluster numbers, strings.
    A NaN is not such a value. *)
Section transition_matrix.
Context `{Countable State} (le : relation State) `{!RelDecision le}.

Definition data_used (data : input State) : list State :=
  match data with
  | Vector l => l
  | Frame rows => concat rows
  end.

(** [sorted(set(data_used))] *)
Definition unique_states (data_used : list State) : list State :=
  merge_sort le (elements (list_to_set data_used : gset State)).

(** [{val: i for i, val in enumerate(unique_states)}]: the keys are
    inserted one after the other, a later one replacing an earlier one. *)
Definition dict_sequencial (unique_states : list State) : gmap State nat :=
  foldl (λ d iv, <[iv.2 := iv.1]> d) ∅ (imap pair unique_states).

(** [pd.Series(data_used).map(dict_sequencial).values]: a value that is
    not a key maps to a missing entry. *)
Definition transitions_numbered (d : gmap State nat) (data_used : list State)
  : list (option nat) :=
  (λ x, d !! x) <$> data_used.

(** [[[0]*n for _ in range(n)]]: [n] separate rows. *)
Definition zeros (n : nat) : list (list nat) := replicate n (replicate n 0%nat).

(** [M[i][j] += 1]; a missing index or one out of range raises. *)
Definition count_step (M : list (list nat)) (ij : option nat * option nat)
  : option (list (list nat)) :=
  i ← ij.1; j ← ij.2;
  row ← M !! i; c ← row !! j;
  Some (<[i := <[j := S c]> row]> M).

Definition count_loop (M : list (list nat)) (pairs : list (option nat * option nat))
  : option (list (list nat)) :=
  foldl (λ acc ij, acc ≫= λ M, count_step M ij) (Some M) pairs.

(** [s = sum(row); if s > 0: row[:] = [f/s for f in row]] *)
Definition normalise_row (row : list nat) : list Qc :=
  let s := sum_list row in
  if decide (0 < s)%nat then (λ f, Qcnat f / Qcnat s)%Qc <$> row
  else Qcnat <$> row.

Definition transition_matrix (data : input State) (lead : Z)
  : option (DataFrame State) :=
  let data_used := data_used data in
  let unique_states := unique_states data_used in
  let dict_sequencial := dict_sequencial unique_states in
  let transitions_numbered := transitions_numbered dict_sequencial data_used in
  let n := length unique_states in
  M ← count_loop (zeros n)
        (zip transitions_numbered (py_slice_from lead transitions_numbered));
  Some (mkDataFrame unique_states unique_states (normalise_row <$> M)).

(** The quantities the documentation speaks of: the number of positions
    [t] with [data[t] = a] and [data[t+lead] = b], and the number of
    transitions out of [a]. *)
Definition transitions_between (data : list State) (lead : nat) (a b : State) : nat :=
  length (filter (λ t, data !! t = Some a ∧ data !! (t + lead)%nat = Some b)
                 (seq 0 (length data))).

Definition transitions_from (data : list State) (lead : nat) (a : State) : nat :=
  length (filter (λ t, data !! t = Some a ∧ is_Some (data !! (t + lead)%nat))
                 (seq 0 (length data))).

End transition_matrix.

(** *** Counting by positions *)

#[global] Instance from_option_dec {A} (P : A → Prop) `{!∀ x, Decision (P x)}
  (o : option A) : Decision (from_option P False o).
Proof. destruct o; simpl; apply _. Defined.

Section counting.

Lemma filter_none {A} (P : A → Prop) `{!∀ x, Decision (P x)} (l : list A) :
  (∀ x, x ∈ l → ¬ P x) → filter P l = [].
Proof.
  induction l as [|x l IH]; intros Hl; [done|].
  rewrite filter_cons_False by (apply Hl; left).
  apply IH. intros y Hy. apply Hl. by right.
Qed.

Lemma filter_ext_elem {A} (P Q : A → Prop)
    `{!∀ x, Decision (P x), !∀ x, Decision (Q x)} (l : list A) :
  (∀ x, x ∈ l → P x ↔ Q x) → filter P l = filter Q l.
Proof.
  induction l as [|x l IH]; intros Hl; [done|].
  rewrite !filter_cons.
  rewrite IH by (intros y Hy; apply Hl; by right).
  destruct (decide (P x)) as [HP|HP], (decide (Q x)) as [HQ|HQ]; try done.
  - apply Hl in HP; [done|left].
  - apply Hl in HQ; [done|left].
Qed.

(** Positions at or beyond [n] where the predicate fails do not count. *)
Lemma filter_seq_extend (P : nat → Prop) `{!∀ t, Decision (P t)} (n m : nat) :
  (n ≤ m)%nat → (∀ t, (n ≤ t < m)%nat → ¬ P t) →
  filter P (seq 0 m) = filter P (seq 0 n).
Proof.
  intros Hnm Hout.
  replace m with (n + (m - n))%nat by lia.
  rewrite seq_app, filter_app. simpl.
  rewrite (filter_none P (seq n (m - n))), app_nil_r; [done|].
  intros t Ht. apply elem_of_seq in Ht. apply Hout. lia.
Qed.

(** Counting the elements of a list is counting its positions. *)
Lemma length_filter_positions {A} (P : A → Prop) `{!∀ x, Decision (P x)} (l : list A) :
  length (filter P l)
  = length (filter (λ t, from_option P False (l !! t)) (seq 0 (length l))).
Proof.
  induction l as [|x l IH] using rev_ind; [done|].
  rewrite length_app, filter_app, length_app. simpl.
  rewrite Nat.add_1_r, seq_S, filter_app, length_app. simpl.
  f_equal.
  - rewrite IH. f_equal. apply filter_ext_elem.
    intros t Ht. apply elem_of_seq in Ht.
    by rewrite lookup_app_l by lia.
  - rewrite !filter_cons, !filter_nil.
    rewrite lookup_app_r, Nat.sub_diag by lia. simpl.
    by destruct (decide (P x)).
Qed.

Lemma lookup_zip_drop {A} (l : list A) (k t : nat) :
  zip l (drop k l) !! t
  = (x ← l !! t; y ← l !! (t + k)%nat; Some (x, y)).
Proof.
  rewrite lookup_zip_with, lookup_drop.
  by rewrite (Nat.add_comm k t).
Qed.

(** Counting the pairs [zip(l, l[k:])] is counting the positions [t] of
    [l] whose pair [(l[t], l[t+k])] satisfies the predicate. *)
Lemma length_filter_zip_drop {A} (Q : A * A → Prop) `{!∀ p, Decision (Q p)}
    (l : list A) (k : nat) :
  length (filter Q (zip l (drop k l)))
  = length (filter
      (λ t, from_option Q False (x ← l !! t; y ← l !! (t + k)%nat; Some (x, y)))
      (seq 0 (length l))).
Proof.
  rewrite length_filter_positions. f_equal.
  rewrite length_zip, length_drop.
  rewrite (filter_seq_extend _ (length l `min` (length l - k)) (length l)).
  - apply filter_ext_elem. intros t _. by rewrite lookup_zip_drop.
  - lia.
  - intros t Ht. destruct (l !! t) as [x|] eqn:Hx; simpl; [|tauto].
    rewrite (lookup_ge_None_2 l (t + k)) by lia. simpl. tauto.
Qed.

End counting.

(** *** The states and their numbering *)

Section numbering.
Context `{Countable State} (le : relation State) `{!RelDecision le}.

Lemma unique_states_Permutation (l : list State) :
  unique_states le l ≡ₚ elements (list_to_set l : gset State).
Proof. apply merge_sort_Permutation. Qed.

Lemma elem_of_unique_states (l : list State) (x : State) :
  x ∈ unique_states le l ↔ x ∈ l.
Proof.
  rewrite unique_states_Permutation, elem_of_elements.
  apply elem_of_list_to_set.
Qed.

Lemma NoDup_unique_states (l : list State) : NoDup (unique_states le l).
Proof. rewrite unique_states_Permutation. apply NoDup_elements. Qed.


Lemma dict_sequencial_snoc (l : list State) (v : State) :
  dict_sequencial (l ++ [v]) = <[v := length l]> (dict_sequencial l).
Proof.
  unfold dict_sequencial. rewrite imap_app, foldl_app. simpl.
  by rewrite Nat.add_0_r.
Qed.

Lemma dict_sequencial_lookup (l : list State) (x : State) (i : nat) :
  NoDup l → dict_sequencial l !! x = Some i ↔ l !! i = Some x.
Proof.
  induction l as [|v l IH] using rev_ind; intros Hnd.
  { unfold dict_sequencial. simpl. rewrite lookup_empty. by destruct i. }
  apply NoDup_app in Hnd as (Hl & Hv & _).
  rewrite dict_sequencial_snoc.
  destruct (decide (x = v)) as [->|Hne].
  - rewrite lookup_insert_eq. split.
    + intros [= <-]. by rewrite lookup_app_r, Nat.sub_diag by lia.
    + intros Hi. f_equal.
      destruct (decide (i < length l)) as [Hlt|Hge].
      * rewrite lookup_app_l in Hi by done.
        exfalso. eapply Hv; [|left].
        apply list_elem_of_lookup. eauto.
      * apply lookup_lt_Some in Hi. rewrite length_app in Hi. simpl in Hi. lia.
  - rewrite lookup_insert_ne by done. rewrite IH by done. split.
    + intros Hi. rewrite lookup_app_l; [done|]. by eapply lookup_lt_Some.
    + intros Hi.
      destruct (decide (i < length l)) as [Hlt|Hge].
      * by rewrite lookup_app_l in Hi.
      * rewrite lookup_app_r in Hi by lia.
        apply list_lookup_singleton_Some in Hi as [_ ?]. congruence.
Qed.

(** Every value of the data has a number below the number of states. *)
Lemma dict_sequencial_data (data : list State) (x : State) :
  x ∈ data →
  ∃ i, dict_sequencial (unique_states le data) !! x = Some i
       ∧ unique_states le data !! i = Some x
       ∧ i < length (unique_states le data).
Proof.
  intros Hx. apply (elem_of_unique_states data) in Hx.
  apply list_elem_of_lookup in Hx as [i Hi].
  exists i. split_and!; [|done|by eapply lookup_lt_Some].
  apply dict_sequencial_lookup; [apply NoDup_unique_states|done].
Qed.
End numbering.

(** *** The counting loop *)

(** The matrix whose entry [(i, j)] is [f i j]. *)
Definition table (n : nat) (f : nat → nat → nat) : list (list nat) :=
  (λ i, f i <$> seq 0 n) <$> seq 0 n.

(** The number of pairs equal to [(i, j)], and of pairs that start at [i]. *)
Definition pairs_equal (i j : nat) (pairs : list (option nat * option nat)) : nat :=
  length (filter (λ p, p = (Some i, Some j)) pairs).

Definition pairs_from (i : nat) (pairs : list (option nat * option nat)) : nat :=
  length (filter (λ p, p.1 = Some i) pairs).

(** Both indices of the pair are present and below [n]. *)
Definition in_range (n : nat) (p : option nat * option nat) : Prop :=
  ∃ i j, p = (Some i, Some j) ∧ i < n ∧ j < n.

Section counting_loop.

Lemma zeros_table n : zeros n = table n (λ _ _, 0).
Proof.
  unfold zeros, table. apply list_eq. intros i.
  rewrite list_lookup_fmap.
  destruct (decide (i < n)) as [Hi|Hi].
  - rewrite lookup_replicate_2, lookup_seq_lt by done. simpl. f_equal.
    apply list_eq. intros j. rewrite list_lookup_fmap.
    destruct (decide (j < n)) as [Hj|Hj].
    + by rewrite lookup_replicate_2, lookup_seq_lt.
    + rewrite lookup_seq_ge by lia. simpl.
      apply lookup_replicate_None. lia.
  - rewrite lookup_seq_ge by lia. simpl.
    apply lookup_replicate_None. lia.
Qed.

Lemma table_lookup n f i : i < n → table n f !! i = Some (f i <$> seq 0 n).
Proof. intros Hi. unfold table. by rewrite list_lookup_fmap, lookup_seq_lt. Qed.

Lemma table_entry n f i j :
  i < n → j < n → table n f !! i ≫= (.!! j) = Some (f i j).
Proof.
  intros Hi Hj. rewrite table_lookup by done. simpl.
  by rewrite list_lookup_fmap, lookup_seq_lt.
Qed.

Lemma length_table n f : length (table n f) = n.
Proof. unfold table. by rewrite length_fmap, length_seq. Qed.

Lemma table_ext n f g :
  (∀ i j, i < n → j < n → f i j = g i j) → table n f = table n g.
Proof.
  intros Hfg. unfold table. apply list_fmap_ext. intros ki i Hi.
  apply lookup_seq in Hi as [-> Hi].
  apply list_fmap_ext. intros kj j Hj.
  apply lookup_seq in Hj as [-> Hj]. by apply Hfg.
Qed.

Lemma count_step_table n f i j :
  i < n → j < n →
  count_step (table n f) (Some i, Some j)
  = Some (table n (λ a b, if decide (a = i ∧ b = j) then S (f a b) else f a b)).
Proof.
  intros Hi Hj. unfold count_step. simpl.
  rewrite table_lookup by done. simpl.
  rewrite list_lookup_fmap, lookup_seq_lt by done. simpl. f_equal.
  apply list_eq. intros a.
  rewrite list_lookup_insert, length_table.
  destruct (decide (a < n)) as [Ha|Ha].
  2:{ rewrite decide_False by lia. unfold table.
      by rewrite !list_lookup_fmap, lookup_seq_ge by lia. }
  rewrite !table_lookup by done.
  case_decide as Hia.
  - destruct Hia as [<- _]. f_equal.
    apply list_eq. intros b.
    rewrite list_lookup_insert, length_fmap, length_seq, !list_lookup_fmap.
    destruct (decide (b < n)) as [Hb|Hb].
    2:{ rewrite decide_False by lia. by rewrite lookup_seq_ge by lia. }
    rewrite lookup_seq_lt by done. simpl.
    case_decide as Hjb.
    + destruct Hjb as [<- _]. by rewrite decide_True.
    + by rewrite decide_False by lia.
  - f_equal. apply list_fmap_ext. intros kb b _.
    by rewrite decide_False by lia.
Qed.

Lemma pairs_equal_cons i j p pairs :
  pairs_equal i j (p :: pairs)
  = (if decide (p = (Some i, Some j)) then 1 else 0) + pairs_equal i j pairs.
Proof.
  unfold pairs_equal. rewrite filter_cons. by case_decide.
Qed.

Lemma pairs_from_cons i p pairs :
  pairs_from i (p :: pairs)
  = (if decide (p.1 = Some i) then 1 else 0) + pairs_from i pairs.
Proof.
  unfold pairs_from. rewrite filter_cons. by case_decide.
Qed.

(** The loop adds to each entry the number of pairs that name it. *)
Lemma count_loop_table n pairs : ∀ f,
  Forall (in_range n) pairs →
  count_loop (table n f) pairs
  = Some (table n (λ a b, f a b + pairs_equal a b pairs)).
Proof.
  unfold count_loop.
  induction pairs as [|p pairs IH]; intros f Hr.
  { simpl. f_equal. apply table_ext. intros. unfold pairs_equal. simpl. lia. }
  apply Forall_cons in Hr as [(i & j & -> & Hi & Hj) Hr].
  cbn [foldl mbind option_bind]. rewrite count_step_table by done.
  rewrite IH by done. f_equal. apply table_ext. intros a b Ha Hb.
  rewrite pairs_equal_cons.
  destruct (decide (a = i ∧ b = j)) as [[-> ->]|Hne].
  - rewrite decide_True by done. lia.
  - rewrite decide_False by naive_solver. lia.
Qed.

Lemma sum_list_fmap_add {A} (g h : A → nat) (l : list A) :
  sum_list ((λ x, g x + h x) <$> l) = sum_list (g <$> l) + sum_list (h <$> l).
Proof. induction l as [|x l IH]; csimpl; lia. Qed.

Lemma sum_list_indicator (P : nat → Prop) `{!∀ j, Decision (P j)} (n j0 : nat) :
  (∀ j, P j ↔ j = j0) → j0 < n →
  sum_list ((λ j, if decide (P j) then 1 else 0) <$> seq 0 n) = 1.
Proof.
  intros HP. induction n as [|n IH]; intros Hj; [lia|].
  rewrite seq_S, fmap_app, sum_list_with_app. simpl.
  destruct (decide (j0 = n)) as [->|Hne].
  - rewrite decide_True by by apply HP.
    rewrite sum_list_fmap_same with (n := 0); [lia|].
    apply Forall_forall. intros j Hj'. apply elem_of_seq in Hj'.
    rewrite decide_False; [done|]. rewrite HP. lia.
  - rewrite decide_False by (rewrite HP; lia).
    rewrite IH by lia. done.
Qed.

(** A row of the counts sums to the number of pairs that start there. *)
Lemma sum_pairs_equal n i pairs :
  Forall (in_range n) pairs →
  sum_list ((λ j, pairs_equal i j pairs) <$> seq 0 n) = pairs_from i pairs.
Proof.
  induction pairs as [|p pairs IH]; intros Hr.
  { unfold pairs_equal, pairs_from. simpl.
    by rewrite sum_list_fmap_const, Nat.mul_0_r. }
  apply Forall_cons in Hr as [(i0 & j0 & -> & Hi & Hj) Hr].
  rewrite pairs_from_cons. simpl.
  erewrite (list_fmap_ext (λ j, pairs_equal i j _)).
  2:{ intros k j _. apply pairs_equal_cons. }
  rewrite sum_list_fmap_add, IH by done. f_equal.
  destruct (decide (i0 = i)) as [->|Hne].
  - rewrite decide_True by done.
    apply (sum_list_indicator _ n j0); [|done].
    intros j. naive_solver.
  - rewrite decide_False by congruence.
    rewrite sum_list_fmap_same with (n := 0); [lia|].
    apply Forall_forall. intros j _. rewrite decide_False; [done|congruence].
Qed.
End counting_loop.

(** *** Normalisation of the rows *)

Definition sum_Qc (l : list Qc) : Qc := foldr Qcplus 0%Qc l.


Lemma Qcnat_0 : Qcnat 0 = 0%Qc.
Proof. apply Z2Qc_inj_0. Qed.

Lemma Qcnat_nonzero (s : nat) : 0 < s → Qcnat s ≠ 0%Qc.
Proof.
  intros Hs. unfold Qcnat. rewrite <-Z2Qc_inj_0.
  intros Heq%Z2Qc_inj. lia.
Qed.


Lemma normalise_row_length (row : list nat) :
  length (normalise_row row) = length row.
Proof. unfold normalise_row. case_decide; by rewrite length_fmap. Qed.

Lemma normalise_row_lookup (row : list nat) (j c : nat) :
  row !! j = Some c →
  normalise_row row !! j
  = Some (if decide (sum_list row = 0) then 0%Qc
          else (Qcnat c / Qcnat (sum_list row))%Qc).
Proof.
  intros Hc. unfold normalise_row.
  destruct (decide (0 < sum_list row)) as [Hs|Hs].
  - rewrite list_lookup_fmap, Hc. simpl. by rewrite decide_False by lia.
  - rewrite list_lookup_fmap, Hc. simpl. rewrite decide_True by lia.
    f_equal. rewrite <-Qcnat_0. f_equal.
    assert (c ≤ sum_list row); [|lia].
    apply (sum_list_with_in c id). apply list_elem_of_lookup. eauto.
  Qed.


Lemma normalise_row_zeros (row : list nat) :
  sum_list row = 0 → Forall (λ q, q = 0%Qc) (normalise_row row).
Proof.
  intros Hs. apply Forall_forall. intros q Hq.
  apply list_elem_of_lookup in Hq as [j Hj].
  assert (is_Some (row !! j)) as [c Hc].
  { apply lookup_lt_is_Some. rewrite <-normalise_row_length.
    by eapply lookup_lt_Some. }
  rewrite (normalise_row_lookup _ _ _ Hc), decide_True in Hj by done.
  congruence.
Qed.

(** *** The matrix *)

Section matrix.
Context `{Countable State} (le : relation State) `{!RelDecision le}.
Implicit Types data : list State.

Definition numbered data : list (option nat) :=
  transitions_numbered (dict_sequencial (unique_states le data)) data.

Lemma length_numbered data : length (numbered data) = length data.
Proof. apply length_fmap. Qed.

Lemma numbered_lookup data t :
  numbered data !! t
  = (λ x, dict_sequencial (unique_states le data) !! x) <$> data !! t.
Proof. apply list_lookup_fmap. Qed.

Lemma numbered_is (data : list State) (x a : State) (i : nat) :
  x ∈ data → unique_states le data !! i = Some a →
  dict_sequencial (unique_states le data) !! x = Some i ↔ x = a.
Proof.
  intros Hx Ha.
  rewrite dict_sequencial_lookup by apply NoDup_unique_states.
  split; [congruence|by intros ->].
Qed.

Lemma numbered_in_range data p :
  p ∈ numbered data → ∃ i, p = Some i ∧ i < length (unique_states le data).
Proof.
  intros Hp. apply list_elem_of_fmap in Hp as (x & -> & Hx).
  destruct (dict_sequencial_data le data x Hx) as (i & Hi & _ & Hlt).
  eauto.
Qed.

Lemma elem_of_py_slice_from {A} (k : Z) (l : list A) (x : A) :
  x ∈ py_slice_from k l → x ∈ l.
Proof.
  unfold py_slice_from.
  case_decide; intros Hx; apply list_elem_of_lookup in Hx as [t Ht];
    rewrite lookup_drop in Ht; apply list_elem_of_lookup; eauto.
Qed.

Lemma pairs_in_range data (lead : Z) :
  Forall (in_range (length (unique_states le data)))
    (zip (numbered data) (py_slice_from lead (numbered data))).
Proof.
  apply Forall_forall. intros [x y] Hxy.
  pose proof (elem_of_zip_l _ _ _ _ Hxy) as Hx.
  pose proof (elem_of_zip_r _ _ _ _ Hxy) as Hy.
  apply elem_of_py_slice_from in Hy.
  apply numbered_in_range in Hx as (i & -> & Hi).
  apply numbered_in_range in Hy as (j & -> & Hj).
  by exists i, j.
Qed.

(** The pairs that name entry [(i, j)] are the positions where state
    number [i] is followed, [k] steps later, by state number [j]. *)
Lemma pairs_equal_positions data (k i j : nat) (a b : State) :
  unique_states le data !! i = Some a →
  unique_states le data !! j = Some b →
  pairs_equal i j (zip (numbered data) (drop k (numbered data)))
  = transitions_between data k a b.
Proof.
  intros Ha Hb. unfold pairs_equal, transitions_between.
  rewrite length_filter_zip_drop, length_numbered. f_equal.
  apply filter_ext_elem. intros t _.
  rewrite !numbered_lookup.
  destruct (data !! t) as [x|] eqn:Hx; simpl;
    [|split; [done|intros [? _]; done]].
  destruct (data !! (t + k)) as [y|] eqn:Hy; simpl;
    [|split; [done|intros [_ ?]; done]].
  assert (x ∈ data) by (apply list_elem_of_lookup; eauto).
  assert (y ∈ data) by (apply list_elem_of_lookup; eauto).
  pose proof (numbered_is data x a i) as Hxa.
  pose proof (numbered_is data y b j) as Hyb.
  split.
  - intros [= Hi Hj]. split; f_equal; [by apply Hxa|by apply Hyb].
  - intros [[= ->] [= ->]]. f_equal; [by apply Hxa|by apply Hyb].
Qed.

Lemma pairs_from_positions data (k i : nat) (a : State) :
  unique_states le data !! i = Some a →
  pairs_from i (zip (numbered data) (drop k (numbered data)))
  = transitions_from data k a.
Proof.
  intros Ha. unfold pairs_from, transitions_from.
  rewrite length_filter_zip_drop, length_numbered. f_equal.
  apply filter_ext_elem. intros t _.
  rewrite !numbered_lookup.
  destruct (data !! t) as [x|] eqn:Hx; simpl;
    [|split; [done|intros [? _]; done]].
  destruct (data !! (t + k)) as [y|] eqn:Hy; simpl.
  2:{ split; [done|]. intros [_ []]. done. }
  assert (x ∈ data) by (apply list_elem_of_lookup; eauto).
  pose proof (numbered_is data x a i) as Hxa.
  split.
  - intros Hi. split; [f_equal; by apply Hxa|done].
  - intros [[= ->] _]. by apply Hxa.
Qed.

(** The function returns for every input and every lead, and its matrix
    is the normalised table of counts. *)
Lemma transition_matrix_eq (data : input State) (lead : Z) :
  let d := data_used data in
  let us := unique_states le d in
  transition_matrix le data lead
  = Some (mkDataFrame us us
      (normalise_row <$> table (length us)
         (λ i j, pairs_equal i j
            (zip (numbered d) (py_slice_from lead (numbered d)))))).
Proof.
  intros d us. unfold transition_matrix.
  fold d. fold us. fold (numbered d).
  rewrite zeros_table, count_loop_table by apply pairs_in_range.
  done.
Qed.

Lemma transition_matrix_total (data : input State) (lead : Z) :
  is_Some (transition_matrix le data lead).
Proof. rewrite transition_matrix_eq. eauto. Qed.


End matrix.

(** The matrix of the sequence 3 1 1 2 3 1 at lead 1. *)
Example transition_matrix_example :
  transition_matrix Z.le (Vector [3; 1; 1; 2; 3; 1]%Z) 1
  = Some (mkDataFrame [1; 2; 3]%Z [1; 2; 3]%Z
      [ [lit 1 2; lit 1 2; lit 0 1];
        [lit 0 1; lit 0 1; lit 1 1];
        [lit 1 1; lit 0 1; lit 0 1] ]).
Proof.
  rewrite transition_matrix_eq. vm_compute.
  repeat (f_equal; try (apply Qc_is_canon; reflexivity)).
Qed.


End Transition.

(** ** Date chunks of the download notebooks *)

Module Download.
Import Digits.
Local Open Scope string_scope.
Local Open Scope list_scope.

(** [itertools.groupby(l, key)]: the maximal runs of consecutive elements
    with equal key, each with its key. *)
Section groupby.
Context {A K : Type} `{EqDecision K} (key : A → K).

Fixpoint groupby (l : list A) : list (K * list A) :=
  match l with
  | [] => []
  | x :: l' =>
      match groupby l' with
      | (k, g) :: gs =>
          if decide (key x = k) then (k, x :: g) :: gs
          else (key x, [x]) :: (k, g) :: gs
      | [] => [(key x, [x])]
      end
  end.
End groupby.

(** [x[:6]] *)
Definition year_month (x : string) : string := String.substring 0 6 x.

(** [[list(v) for l, v in groupby(dates_generated_all[:], lambda x: x[:6])]] *)
Definition dates_atm_vars (dates_generated_all : list string) : list (list string) :=
  snd <$> groupby year_month dates_generated_all.

(** [l[-1:]] *)
Definition last_slice {A} (l : list A) : list A := drop (length l - 1) l.

(** [[dates_atm_vars[i][-1:] + dates_atm_vars[i+1]
      for i in range(len(dates_atm_vars)-1)]], followed by
    [dates_precipit.insert(0, dates_atm_vars[0])]; an index out of range
    raises. *)
Definition dates_precipit (dates_atm_vars : list (list string))
  : option (list (list string)) :=
  rest ← mapM (λ i, a ← dates_atm_vars !! i;
                    b ← dates_atm_vars !! (i + 1);
                    Some (last_slice a ++ b))
              (seq 0 (length dates_atm_vars - 1));
  first ← dates_atm_vars !! 0;
  Some (first :: rest).

(** [l[start:end]] for non-negative bounds. *)
Definition py_slice {A} (start stop : nat) (l : list A) : list A :=
  take (stop - start) (drop start l).

Section precip_subset.
(** The archive and the field algebra of metview: what [mv.retrieve]
    returns for a list of dates (the fields of each date in sequence), and
    [mv.sum] of a set of fields. *)
Context {Field : Type}.
Context (retrieve : list string → list Field) (mv_sum : list Field → Field).

(** A GRIB field with its [date] key. *)
Record grib : Type := mkGrib { date : Z; field : Field }.

(** One pass of the loop of [precip_subset]: the field of day [i_day + 1]. *)
Definition daily_total (dates_subset : list string) (fc_all : list Field)
    (i_day : nat) : option grib :=
  let start_indice := 12 + 24 * i_day in
  let end_indice := 12 + 24 * (i_day + 1) in
  let sub := mv_sum (py_slice start_indice end_indice fc_all) in
  d ← dates_subset !! (i_day + 1);
  z ← py_int d;
  Some (mkGrib z sub).

Definition precip_subset (dates_subset : list string) : option (list grib) :=
  let fc_all := retrieve dates_subset in
  mapM (daily_total dates_subset fc_all) (seq 0 (length dates_subset - 1)).

(** The pool maps [precip_subset] over the chunks, in order; then
    [for i in range(1, len(Precip)): Precip[0].append(Precip[i])] and
    [Precip = Precip[0]]. *)
Definition Precip (dates_precipit : list (list string)) : option (list grib) :=
  fields ← mapM precip_subset dates_precipit;
  match fields with
  | [] => None
  | first :: rest => Some (foldl (λ acc f, acc ++ f) first rest)
  end.

Definition download (dates_generated_all : list string) : option (list grib) :=
  chunks ← dates_precipit (dates_atm_vars dates_generated_all);
  Precip chunks.
End precip_subset.

Arguments grib : clear implicits.
Arguments mkGrib {Field} date field.
Arguments date {Field} g.
Arguments field {Field} g.

(** *** Runs of equal keys *)

Section groupby_facts.
Context {A K : Type} `{EqDecision K} (key : A → K).

Lemma groupby_concat (l : list A) : concat ((groupby key l).*2) = l.
Proof.
  induction l as [|x l IH]; [done|]. simpl.
  destruct (groupby key l) as [|[k g] gs]; simpl in *.
  - by rewrite <-IH.
  - case_decide; simpl; by rewrite <-IH.
Qed.

Lemma groupby_nonempty (l : list A) :
  Forall (λ kg, kg.2 ≠ []) (groupby key l).
Proof.
  induction l as [|x l IH]; simpl; [constructor|].
  destruct (groupby key l) as [|[k g] gs].
  - constructor; [done|constructor].
  - apply Forall_cons in IH as [Hg IH].
    case_decide; [by constructor|].
    constructor; [done|]. by constructor.
Qed.

(** Every element of a run has the key of the run. *)
Lemma groupby_keys (l : list A) :
  Forall (λ kg, Forall (λ x, key x = kg.1) kg.2) (groupby key l).
Proof.
  induction l as [|x l IH]; simpl; [constructor|].
  destruct (groupby key l) as [|[k g] gs].
  - constructor; [|constructor]. simpl. by constructor.
  - apply Forall_cons in IH as [Hg IH]. simpl in Hg.
    case_decide.
    + constructor; [|done]. simpl. by constructor.
    + constructor; [|by constructor]. simpl. by constructor.
Qed.

(** Two runs that follow each other have different keys: runs are maximal. *)
Lemma groupby_maximal (l : list A) (i : nat) (kg kg' : K * list A) :
  groupby key l !! i = Some kg → groupby key l !! S i = Some kg' →
  kg.1 ≠ kg'.1.
Proof.
  revert i kg kg'. induction l as [|x l IH]; intros i kg kg'; [done|]. simpl.
  destruct (groupby key l) as [|[k g] gs] eqn:Hg; [by destruct i|].
  case_decide as Hk.
  - destruct i as [|i]; simpl.
    + intros [= <-] Hkg'. simpl. apply (IH 0 (k, g) kg'); done.
    + intros Hkg Hkg'. apply (IH (S i) kg kg'); done.
  - destruct i as [|i]; simpl.
    + by intros [= <-] [= <-].
    + intros Hkg Hkg'. apply (IH i kg kg'); done.
Qed.
End groupby_facts.

(** *** Loops over positions *)

Lemma mapM_cons {A B} (f : A → option B) (x : A) (l : list A) :
  mapM f (x :: l) = (y ← f x; k ← mapM f l; Some (y :: k)).
Proof. reflexivity. Qed.


Lemma mapM_ext_elem {A B} (f g : A → option B) (l : list A) :
  (∀ x, x ∈ l → f x = g x) → mapM f l = mapM g l.
Proof.
  induction l as [|x l IH]; intros Hfg; [done|].
  rewrite !mapM_cons, (Hfg x) by left.
  by rewrite IH by (intros y Hy; apply Hfg; by right).
Qed.

Lemma mapM_lookup_seq {A B} (g : A → option B) (l : list A) (s : nat) :
  mapM (λ i, l !! (i - s) ≫= g) (seq s (length l)) = mapM g l.
Proof.
  revert s. induction l as [|x l IH]; intros s; [done|].
  cbn [length seq]. rewrite !mapM_cons. cbv beta.
  rewrite Nat.sub_diag. cbn [lookup list_lookup mbind option_bind].
  rewrite <-(IH (S s)).
  rewrite (mapM_ext_elem _ (λ i, l !! (i - S s) ≫= g)); [done|].
  intros i Hi. apply elem_of_seq in Hi.
  by replace (i - s) with (S (i - S s)) by lia.
Qed.

Lemma mapM_fmap_result {A B C} (h : B → C) (f : A → option B) (l : list A) :
  fmap h <$> mapM f l = mapM (λ x, h <$> f x) l.
Proof.
  induction l as [|x l IH]; [done|]. rewrite !mapM_cons, <-IH.
  destruct (f x); simpl; [|done]. by destruct (mapM f l).
Qed.

Lemma mapM_app {A B} (g : A → option B) (l1 l2 : list A) :
  mapM g (l1 ++ l2) = (k1 ← mapM g l1; k2 ← mapM g l2; Some (k1 ++ k2)).
Proof.
  induction l1 as [|x l1 IH]; simpl app.
  - change (mapM g []) with (Some ([] : list B)). simpl.
    by destruct (mapM g l2).
  - rewrite !mapM_cons, IH. destruct (g x); simpl; [|done].
    destruct (mapM g l1); simpl; [|done]. by destruct (mapM g l2).
Qed.

Lemma foldl_app_concat {A} (first : list A) (rest : list (list A)) :
  foldl (λ acc f, acc ++ f) first rest = concat (first :: rest).
Proof.
  revert first. induction rest as [|r rest IH]; intros first; simpl.
  - by rewrite app_nil_r.
  - rewrite IH. simpl. by rewrite app_assoc.
Qed.
Lemma mapM_concat {A B} (g : A → option B) (ls : list (list A)) :
  (λ k, concat k) <$> mapM (mapM g) ls = mapM g (concat ls).
Proof.
  induction ls as [|l ls IH]; [done|].
  rewrite mapM_cons. cbn [concat]. rewrite mapM_app, <-IH.
  destruct (mapM g l); simpl; [|done].
  by destruct (mapM (mapM g) ls).
Qed.

(** *** The chunks and what they emit *)

Lemma last_slice_last {A} (l : list A) (x : A) :
  last l = Some x → last_slice l = [x].
Proof.
  intros [l' ->]%last_Some. unfold last_slice.
  rewrite length_app. simpl.
  replace (length l' + 1 - 1) with (length l') by lia.
  apply drop_app_length.
Qed.

Lemma dates_precipit_eq (first : list string) (rest : list (list string)) :
  dates_precipit (first :: rest)
  = Some (first :: zip_with (λ a b, last_slice a ++ b) (first :: rest) rest).
Proof.
  unfold dates_precipit.
  erewrite mapM_Some_2; [done|].
  cbn [length]. rewrite Nat.sub_succ, Nat.sub_0_r.
  apply Forall2_same_length_lookup_2.
  - rewrite length_seq, length_zip_with. cbn [length]. lia.
  - intros i j c Hj Hc. apply lookup_seq in Hj as [-> Hi].
    apply lookup_zip_with_Some in Hc as (a & b & -> & Ha & Hb).
    cbn [Nat.add]. rewrite Ha. simpl. rewrite Nat.add_1_r. simpl. by rewrite Hb.
Qed.

Section emitted.
Context {Field : Type}.
Context (retrieve : list string → list Field) (mv_sum : list Field → Field).

Lemma daily_total_date (dates_subset : list string) (fc_all : list Field) (i : nat) :
  date <$> daily_total mv_sum dates_subset fc_all i
  = tail dates_subset !! i ≫= py_int.
Proof.
  unfold daily_total. rewrite lookup_tail, Nat.add_1_r.
  destruct (dates_subset !! S i) as [d|]; simpl; [|done].
  by destruct (py_int d).
Qed.

(** One field per date of the chunk but the first, in order, if each of
    these dates is a number. *)
Lemma precip_subset_dates (dates_subset : list string) :
  fmap date <$> precip_subset retrieve mv_sum dates_subset
  = mapM py_int (tail dates_subset).
Proof.
  unfold precip_subset. rewrite mapM_fmap_result.
  rewrite <-(mapM_lookup_seq py_int (tail dates_subset) 0).
  replace (length (tail dates_subset)) with (length dates_subset - 1)
    by (destruct dates_subset; simpl; lia).
  apply mapM_ext_elem. intros i _.
  by rewrite daily_total_date, Nat.sub_0_r.
Qed.

Lemma Precip_dates (chunks : list (list string)) :
  chunks ≠ [] →
  fmap date <$> Precip retrieve mv_sum chunks
  = mapM py_int (concat (tail <$> chunks)).
Proof.
  intros Hne. unfold Precip.
  rewrite <-mapM_concat.
  assert (Heach : mapM (mapM py_int) (tail <$> chunks)
                  = fmap (M:=list) (fmap (M:=list) date)
                      <$> mapM (precip_subset retrieve mv_sum) chunks).
  { rewrite mapM_fmap_result. clear Hne.
    induction chunks as [|c chunks IH]; [done|].
    rewrite fmap_cons, !mapM_cons, IH. by rewrite precip_subset_dates. }
  rewrite Heach.
  destruct (mapM (precip_subset retrieve mv_sum) chunks) as [fields|] eqn:Hf;
    simpl; [|done].
  destruct fields as [|f fields].
  { apply length_mapM in Hf. destruct chunks; simplify_eq/=. }
  simpl. rewrite foldl_app_concat. f_equal.
  simpl. rewrite fmap_app. f_equal.
  clear. induction fields as [|g fields IH]; [done|].
  simpl. by rewrite fmap_app, IH.
Qed.
End emitted.

Lemma last_slice_nonempty {A} (l : list A) :
  l ≠ [] → ∃ x, last l = Some x ∧ last_slice l = [x].
Proof.
  intros Hl. apply last_is_Some in Hl as [x Hx].
  exists x. split; [done|]. by apply last_slice_last.
Qed.

Lemma tail_extended (prevs curs : list (list string)) :
  Forall (λ c, c ≠ []) prevs → (length curs ≤ length prevs)%nat →
  tail <$> zip_with (λ a b, last_slice a ++ b) prevs curs = curs.
Proof.
  revert prevs. induction curs as [|b curs IH]; intros [|a prevs] Hne Hlen;
    simpl in *; try done; try lia.
  apply Forall_cons in Hne as [Ha Hne].
  destruct (last_slice_nonempty a Ha) as (x & _ & ->).
  csimpl. f_equal. apply IH; [done|lia].
Qed.

Lemma dates_atm_vars_nonempty (dates : list string) :
  Forall (λ c, c ≠ []) (dates_atm_vars dates).
Proof.
  unfold dates_atm_vars. apply Forall_fmap.
  apply (groupby_nonempty year_month).
Qed.

Lemma dates_atm_vars_concat (dates : list string) :
  concat (dates_atm_vars dates) = dates.
Proof. apply groupby_concat. Qed.

(** C7: the chunks of dates are the year-month runs of the requested dates;
    the precipitation chunk 0 is run 0 and chunk [i+1] is run [i+1] with the
    last date of run [i] put in front; [precip_subset] gives one field per
    date of its chunk but the first, dated in order; and the download as a
    whole gives one field per requested date but the very first, in order. *)
Theorem precipitation_chunks {Field : Type}
    (retrieve : list string → list Field) (mv_sum : list Field → Field)
    (dates : list string) :
  dates ≠ [] →
  Forall (λ d, is_Some (py_int d)) dates →
  let runs := dates_atm_vars dates in
  concat runs = dates
  ∧ Forall (λ c, c ≠ [] ∧ ∃ ym, Forall (λ d, year_month d = ym) c) runs
  ∧ (∀ i prev cur d d', runs !! i = Some prev → runs !! S i = Some cur →
       d ∈ prev → d' ∈ cur → year_month d ≠ year_month d')
  ∧ ∃ chunks,
      dates_precipit runs = Some chunks
      ∧ length chunks = length runs
      ∧ chunks !! 0 = runs !! 0
      ∧ (∀ i prev cur, runs !! i = Some prev → runs !! S i = Some cur →
           ∃ d, last prev = Some d ∧ chunks !! S i = Some (d :: cur))
      ∧ (∀ chunk, chunk ∈ chunks →
           ∃ fields, precip_subset retrieve mv_sum chunk = Some fields
             ∧ length fields = length chunk - 1
             ∧ mapM py_int (tail chunk) = Some (date <$> fields))
      ∧ ∃ fields, download retrieve mv_sum dates = Some fields
          ∧ length fields = length dates - 1
          ∧ mapM py_int (tail dates) = Some (date <$> fields).
Proof.
  intros Hne Hint runs.
  pose proof (dates_atm_vars_concat dates) as Hconcat. fold runs in Hconcat.
  pose proof (dates_atm_vars_nonempty dates) as Hruns. fold runs in Hruns.
  split; [done|]. split.
  { unfold runs, dates_atm_vars. apply Forall_fmap.
    pose proof (groupby_nonempty year_month dates) as H1.
    pose proof (groupby_keys year_month dates) as H2.
    rewrite Forall_forall in H1, H2. apply Forall_forall.
    intros [ym c] Hc. simpl. split; [by apply (H1 _ Hc)|].
    exists ym. by apply (H2 _ Hc). }
  split.
  { intros i prev cur d d' Hprev Hcur Hd Hd'.
    unfold runs, dates_atm_vars in Hprev, Hcur.
    rewrite list_lookup_fmap in Hprev, Hcur.
    destruct (groupby year_month dates !! i) as [[k c]|] eqn:Hi; [|done].
    destruct (groupby year_month dates !! S i) as [[k' c']|] eqn:Hi'; [|done].
    simpl in Hprev, Hcur. injection Hprev as ->. injection Hcur as ->.
    pose proof (groupby_maximal year_month dates i _ _ Hi Hi') as Hkk.
    pose proof (groupby_keys year_month dates) as Hkeys.
    rewrite Forall_forall in Hkeys.
    pose proof (Hkeys (k, prev)) as Hk. pose proof (Hkeys (k', cur)) as Hk'.
    rewrite Forall_forall in Hk, Hk'. simpl in *.
    rewrite (Hk ltac:(apply list_elem_of_lookup; eauto) d Hd).
    rewrite (Hk' ltac:(apply list_elem_of_lookup; eauto) d' Hd').
    done. }
  destruct runs as [|first rest] eqn:Hr.
  { simpl in Hconcat. congruence. }
  eexists. split; [apply dates_precipit_eq|].
  assert (Hsub : ∀ chunk : list string, Forall (λ d, is_Some (py_int d)) (tail chunk) →
    ∃ fields, precip_subset retrieve mv_sum chunk = Some fields
      ∧ length fields = length chunk - 1
      ∧ mapM py_int (tail chunk) = Some (date <$> fields)).
  { intros chunk Hc.
    pose proof (precip_subset_dates retrieve mv_sum chunk) as Hd.
    apply mapM_is_Some_2 in Hc as [zs Hzs]. rewrite Hzs in Hd.
    destruct (precip_subset retrieve mv_sum chunk) as [fields|]; [|done].
    injection Hd as <-. exists fields. split; [done|]. split; [|done].
    apply length_mapM in Hzs. rewrite length_fmap in Hzs.
    rewrite <-Hzs. destruct chunk; simpl; lia. }
  assert (Htails : concat (tail <$> first
      :: zip_with (λ a b, last_slice a ++ b) (first :: rest) rest) = tail dates).
  { rewrite fmap_cons, tail_extended by (done || simpl; lia).
    rewrite <-Hconcat. simpl.
    apply Forall_cons in Hruns as [Hfirst _]. by destruct first. }
  split_and!.
  - cbn [length]. rewrite length_zip_with. cbn [length]. f_equal. lia.
  - done.
  - intros i prev cur Hprev Hcur.
    assert (prev ≠ []) as Hp.
    { rewrite Forall_forall in Hruns. apply Hruns.
      apply list_elem_of_lookup. eauto. }
    destruct (last_slice_nonempty prev Hp) as (d & Hd & Hslice).
    exists d. split; [done|].
    change (rest !! i = Some cur) in Hcur.
    change (zip_with (λ a b, last_slice a ++ b) (first :: rest) rest !! i
            = Some (d :: cur)).
    rewrite lookup_zip_with, Hprev, Hcur. simpl. by rewrite Hslice.
  - intros chunk Hchunk. apply Hsub.
    assert (Hall : Forall (λ d, is_Some (py_int d)) (concat (first :: rest))).
    { by rewrite Hconcat. }
    apply Forall_concat in Hall.
    apply elem_of_cons in Hchunk as [->|Hchunk].
    + apply Forall_cons in Hall as [Hall _].
      destruct first; [done|]. by apply Forall_cons in Hall as [_ ?].
    + apply list_elem_of_lookup in Hchunk as [i Hi].
      apply lookup_zip_with_Some in Hi as (a & b & -> & Ha & Hb).
      assert (a ≠ []) as Hane.
      { rewrite Forall_forall in Hruns. apply Hruns.
        apply list_elem_of_lookup. eauto. }
      destruct (last_slice_nonempty a Hane) as (x & _ & ->). simpl.
      rewrite Forall_forall in Hall. apply Hall.
      right. apply list_elem_of_lookup. eauto.
  - pose proof (Precip_dates retrieve mv_sum
      (first :: zip_with (λ a b, last_slice a ++ b) (first :: rest) rest)
      ltac:(done)) as Hd.
    rewrite Htails in Hd.
    assert (is_Some (mapM py_int (tail dates))) as [zs Hzs].
    { apply mapM_is_Some_2. destruct dates; [done|].
      by apply Forall_cons in Hint as [_ ?]. }
    rewrite Hzs in Hd.
    unfold download. fold runs. rewrite Hr, dates_precipit_eq. simpl.
    destruct (Precip retrieve mv_sum _) as [fields|]; [|done].
    injection Hd as <-. exists fields. split; [done|]. split; [|done].
    apply length_mapM in Hzs. rewrite length_fmap in Hzs.
    rewrite <-Hzs. destruct dates; simpl; lia.
Qed.

Example dates_precipit_example :
  dates_precipit
    (dates_atm_vars ["19790130"; "19790131"; "19790201"; "19790202"; "19790301"])
  = Some [ ["19790130"; "19790131"];
           ["19790131"; "19790201"; "19790202"];
           ["19790202"; "19790301"] ].
Proof. reflexivity. Qed.

Example download_example :
  (λ fields : list (grib nat), date <$> fields)
    <$> download (λ ds, replicate (24 * length ds) 1) sum_list
          ["19790130"; "19790131"; "19790201"; "19790202"; "19790301"]
  = Some [19790131; 19790201; 19790202; 19790301]%Z.
Proof. reflexivity. Qed.

Lemma precipitation_chunks_witness :
  ∃ fields,
    download (λ ds, replicate (24 * length ds) 1) sum_list
      ["19790130"; "19790131"; "19790201"] = Some fields
    ∧ length fields = 2.
Proof.
  assert (Hne : ["19790130"; "19790131"; "19790201"] ≠ []) by discriminate.
  assert (Hint : Forall (λ d, is_Some (py_int d))
                   ["19790130"; "19790131"; "19790201"]).
  { repeat constructor; vm_compute; eauto. }
  destruct (precipitation_chunks (λ ds, replicate (24 * length ds) 1) sum_list
              ["19790130"; "19790131"; "19790201"] Hne Hint)
    as (_ & _ & _ & chunks & _ & _ & _ & _ & _ & fields & Hd & Hlen & _).
  exists fields. split; [exact Hd|exact Hlen].
Defined.

End Download.

(** ** The process pool ([pool.imap]) and the dictionaries of results *)

Module Pool.

(** The iterator behind [pool.imap]: the results arrive tagged with the
    number of their job, in whatever order the worker processes finish; the
    iterator hands them out by job number, keeping the early ones aside. *)
Record imap_iterator (B : Type) : Type := mkIter {
  index : nat;
  items : list B;
  unsorted : gmap nat B
}.
Arguments mkIter {B} index items unsorted.
Arguments index {B} i.
Arguments items {B} i.
Arguments unsorted {B} i.

Section imap.
Context {A B : Type}.

(** [while self._index in self._unsorted: ...]; each turn removes an entry,
    so [fuel] turns are enough when [fuel] is the size of [unsorted]. *)
Fixpoint flush (fuel : nat) (it : imap_iterator B) : imap_iterator B :=
  match fuel with
  | 0 => it
  | S fuel' =>
      match unsorted it !! index it with
      | Some obj =>
          flush fuel' (mkIter (S (index it)) (items it ++ [obj])
                              (delete (index it) (unsorted it)))
      | None => it
      end
  end.

(** The arrival of the result [obj] of job [i]. *)
Definition set_result (it : imap_iterator B) (i : nat) (obj : B) : imap_iterator B :=
  if decide (index it = i) then
    let it' := mkIter (S (index it)) (items it ++ [obj]) (unsorted it) in
    flush (size (unsorted it')) it'
  else mkIter (index it) (items it) (<[i := obj]> (unsorted it)).

(** The jobs of [pool.imap(worker, iterable)]. *)
Definition jobs (iterable : list A) : list (nat * A) := imap pair iterable.

(** A worker process runs the worker on the item of its job, with no state
    shared with the other processes: the result of a job is a function of
    its item.  [completed] is the order in which the jobs finish. *)
Definition run (worker : A → B) (completed : list (nat * A)) : imap_iterator B :=
  foldl (λ it job, set_result it job.1 (worker job.2)) (mkIter 0 [] ∅) completed.

(** [list(pool.imap(worker, iterable))]: the list is complete once the
    iterator has handed out as many results as there are jobs; until then
    the call waits. *)
Definition imap_list (worker : A → B) (iterable : list A)
    (completed : list (nat * A)) : option (list B) :=
  let it := run worker completed in
  if decide (index it = length iterable) then Some (items it) else None.

End imap.

(** [{variables_used[i_c]: i_anom for i_c, i_anom in enumerate(Anomalies)}];
    the keys are the variable names, strings in the program. *)
Definition results_dict `{Countable K} {B} (variables_used : list K)
    (results : list B) : option (gmap K B) :=
  foldl (λ acc ir, d ← acc; k ← variables_used !! ir.1; Some (<[k := ir.2]> d))
        (Some ∅) (imap pair results).

(** *** The iterator hands out the results in job order *)

Section imap_facts.
Context {B : Type} (r : list B).

(** The state of the iterator once the jobs of [done] have finished, [r]
    being the results by job number. *)
Definition valid (done : gset nat) (it : imap_iterator B) : Prop :=
  items it = take (index it) r
  ∧ (∀ j, unsorted it !! j
          = if decide (j ∈ done ∧ index it ≤ j) then r !! j else None)
  ∧ (∀ j, j < index it → j ∈ done)
  ∧ (∀ j, j ∈ done → j < length r).

Lemma valid_index_le (done : gset nat) (it : imap_iterator B) :
  valid done it → index it ≤ length r.
Proof.
  intros (_ & _ & Hlow & Hdone).
  destruct (decide (index it ≤ length r)) as [|Hgt]; [done|].
  assert (length r ∈ done) as Hin by (apply Hlow; lia).
  apply Hdone in Hin. lia.
Qed.

Lemma valid_not_waiting (done : gset nat) (it : imap_iterator B) :
  valid done it → unsorted it !! index it = None → index it ∉ done.
Proof.
  intros (_ & Huns & _ & Hdone) Hnone Hin.
  rewrite Huns, decide_True in Hnone by done.
  apply Hdone, lookup_lt_is_Some in Hin as [x Hx]. congruence.
Qed.

Lemma flush_valid (fuel : nat) : ∀ (done : gset nat) (it : imap_iterator B),
  valid done it →
  valid done (flush fuel it)
  ∧ (size (unsorted it) ≤ fuel →
     unsorted (flush fuel it) !! index (flush fuel it) = None).
Proof.
  induction fuel as [|fuel IH]; intros done it Hv.
  { split; [done|]. intros Hsize. simpl.
    assert (unsorted it = ∅) as -> by (apply map_size_empty_inv; lia).
    apply lookup_empty. }
  simpl. destruct (unsorted it !! index it) as [obj|] eqn:Hobj; [|done].
  destruct Hv as (Hitems & Huns & Hlow & Hdone).
  assert (index it ∈ done ∧ r !! index it = Some obj) as [Hin Hr].
  { rewrite Huns in Hobj. case_decide as Hc; [|done]. by destruct Hc. }
  set (it' := mkIter (S (index it)) (items it ++ [obj])
                     (delete (index it) (unsorted it))).
  assert (Hv' : valid done it').
  { split_and!; simpl.
    - by rewrite (take_S_r _ _ _ Hr), Hitems.
    - intros j. rewrite lookup_delete.
      destruct (decide (index it = j)) as [<-|Hne].
      + by rewrite decide_False by lia.
      + rewrite Huns. apply decide_ext. intuition lia.
    - intros j Hj. destruct (decide (j = index it)) as [->|]; [done|].
      apply Hlow. lia.
    - done. }
  destruct (IH done it' Hv') as [Hvalid Hnone].
  split; [done|]. intros Hsize. apply Hnone. simpl.
  rewrite map_size_delete_Some by eauto. lia.
Qed.

Lemma set_result_valid (done : gset nat) (it : imap_iterator B) (i : nat) (obj : B) :
  valid done it → index it ∉ done → i ∉ done → r !! i = Some obj →
  valid (done ∪ {[i]}) (set_result it i obj)
  ∧ index (set_result it i obj) ∉ done ∪ {[i]}.
Proof.
  intros Hv Hidx Hi Hr. unfold set_result.
  pose proof Hv as (Hitems & Huns & Hlow & Hdone).
  assert (Hdone' : ∀ j, j ∈ done ∪ {[i]} → j < length r).
  { intros j [Hj| ->%elem_of_singleton]%elem_of_union; [by apply Hdone|].
    by eapply lookup_lt_Some. }
  destruct (decide (index it = i)) as [Heq|Hne].
  - set (it' := mkIter (S (index it)) (items it ++ [obj]) (unsorted it)).
    assert (Hv' : valid (done ∪ {[i]}) it').
    { split_and!; simpl; [| | |done].
      - rewrite Heq. by rewrite (take_S_r _ _ _ Hr), Hitems, Heq.
      - intros j. rewrite Huns. apply decide_ext.
        rewrite elem_of_union, elem_of_singleton.
        split; [intros [Hj Hle]|intros [[Hj| ->] Hle]].
        + split; [by left|]. destruct (decide (j = index it)); [congruence|lia].
        + split; [done|lia].
        + lia.
      - intros j Hj. destruct (decide (j = index it)) as [->|].
        + rewrite Heq. set_solver.
        + apply elem_of_union_l, Hlow. lia. }
    destruct (flush_valid (size (unsorted it')) _ it' Hv') as [Hvalid Hnone].
    split; [done|]. apply valid_not_waiting; [done|]. by apply Hnone.
  - assert (index it < i) as Hlt.
    { destruct (decide (index it < i)) as [|Hge]; [done|].
      exfalso. apply Hi, Hlow. lia. }
    split; [|set_solver].
    split_and!; simpl; [done| | |done].
    + intros j. rewrite lookup_insert.
      destruct (decide (i = j)) as [<-|Hij].
      * rewrite decide_True; [done|]. split; [set_solver|lia].
      * rewrite Huns. apply decide_ext.
        rewrite elem_of_union, elem_of_singleton. naive_solver.
    + intros j Hj. apply elem_of_union_l. by apply Hlow.
Qed.

End imap_facts.

Section imap_order.
Context {A B : Type} (worker : A → B).

Lemma jobs_numbers (iterable : list A) :
  (jobs iterable).*1 = seq 0 (length iterable).
Proof.
  unfold jobs. apply list_eq. intros i.
  rewrite list_lookup_fmap, list_lookup_imap.
  destruct (iterable !! i) as [x|] eqn:Hx; simpl; symmetry.
  - apply lookup_seq. split; [done|]. by eapply lookup_lt_Some.
  - apply lookup_seq_ge. by apply lookup_ge_None.
Qed.

Lemma elem_of_jobs (iterable : list A) (i : nat) (x : A) :
  (i, x) ∈ jobs iterable ↔ iterable !! i = Some x.
Proof.
  unfold jobs. rewrite elem_of_lookup_imap. split.
  - by intros (j & y & [= -> ->] & Hy).
  - intros Hx. by exists i, x.
Qed.

Lemma run_valid (iterable : list A) (completed : list (nat * A)) :
  ∀ (done : gset nat) (it : imap_iterator B),
  valid (worker <$> iterable) done it → index it ∉ done →
  NoDup completed.*1 →
  (∀ i, i ∈ completed.*1 → i ∉ done) →
  (∀ i x, (i, x) ∈ completed → iterable !! i = Some x) →
  let it' := foldl (λ it job, set_result it job.1 (worker job.2)) it completed in
  valid (worker <$> iterable) (done ∪ list_to_set completed.*1) it'
  ∧ index it' ∉ done ∪ list_to_set completed.*1.
Proof.
  induction completed as [|[i x] completed IH];
    intros done it Hv Hidx Hnd Hfresh Hjobs.
  { simpl. rewrite (right_id_L ∅ (∪)). done. }
  apply NoDup_cons in Hnd as [Hi Hnd]. simpl in Hi.
  destruct (set_result_valid (worker <$> iterable) done it i (worker x))
    as [Hv' Hidx']; [done|done| | |].
  { apply Hfresh. left. }
  { rewrite list_lookup_fmap, (Hjobs i x) by left. done. }
  cbn [foldl fmap list_fmap list_to_set]. simpl.
  replace (done ∪ ({[i]} ∪ list_to_set completed.*1))
    with (done ∪ {[i]} ∪ list_to_set completed.*1) by set_solver.
  apply IH; [done|done|done| |].
  - intros j Hj. apply not_elem_of_union. split.
    + apply Hfresh. by right.
    + apply not_elem_of_singleton. intros ->. done.
  - intros j y Hjy. apply Hjobs. by right.
Qed.

(** Whatever the order in which the jobs finish, the list read from the
    iterator is the sequential map of the worker over the items. *)
Lemma imap_list_map (iterable : list A) (completed : list (nat * A)) :
  completed ≡ₚ jobs iterable →
  imap_list worker iterable completed = Some (worker <$> iterable).
Proof.
  intros Hperm. unfold imap_list, run.
  assert (Hnums : completed.*1 ≡ₚ seq 0 (length iterable)).
  { by rewrite Hperm, jobs_numbers. }
  destruct (run_valid iterable completed ∅ (mkIter 0 [] ∅)) as [Hv Hidx].
  - split_and!; simpl; [done| |lia|set_solver].
    intros j. rewrite lookup_empty. by rewrite decide_False by set_solver.
  - set_solver.
  - rewrite Hnums. apply NoDup_seq.
  - set_solver.
  - intros i x Hix. apply elem_of_jobs. by rewrite <-Hperm.
  - simpl in Hv, Hidx. rewrite (left_id_L ∅ (∪)) in Hv, Hidx.
    set (it := foldl _ _ _) in *.
    pose proof (valid_index_le _ _ _ Hv) as Hle.
    rewrite length_fmap in Hle.
    assert (index it = length iterable) as Hlen.
    { destruct (decide (index it = length iterable)) as [|Hne]; [done|].
      exfalso. apply Hidx. apply elem_of_list_to_set.
      rewrite Hnums. apply elem_of_seq. lia. }
    rewrite decide_True by done. f_equal.
    destruct Hv as (-> & _). rewrite Hlen.
    apply take_ge. by rewrite length_fmap.
Qed.

End imap_order.

(** *** The dictionary of results *)

Lemma results_dict_prefix `{Countable K} {B} (worker : K → B) (pre : list K) :
  ∀ suf, ∃ d,
    results_dict (pre ++ suf) (worker <$> pre) = Some d
    ∧ ∀ v, d !! v = if decide (v ∈ pre) then Some (worker v) else None.
Proof.
  induction pre as [|x pre IH] using rev_ind; intros suf.
  { exists ∅. split; [done|]. intros v. rewrite lookup_empty.
    by rewrite decide_False by apply not_elem_of_nil. }
  destruct (IH ([x] ++ suf)) as (d & Hd & Hlookup).
  exists (<[x := worker x]> d). split.
  - unfold results_dict in *.
    rewrite fmap_app, imap_app, foldl_app. rewrite <-app_assoc, Hd.
    simpl. rewrite Nat.add_0_r, length_fmap.
    by rewrite lookup_app_r, Nat.sub_diag by lia.
  - intros v. rewrite lookup_insert.
    destruct (decide (x = v)) as [->|Hne].
    + rewrite decide_True; [done|]. apply elem_of_app. right. left.
    + rewrite Hlookup. apply decide_ext.
      rewrite elem_of_app, list_elem_of_singleton. naive_solver.
Qed.

(** C5: whatever the order in which the worker processes finish their jobs,
    the list read from [pool.imap] is the sequential map of the worker over
    the variables, in input order; and the dictionary built from it by
    position gives to each variable the result of the worker on that
    variable, and has no other key. *)
Theorem imap_results_by_variable `{Countable K} {B} (worker : K → B)
    (variables_used : list K) (completed : list (nat * K)) :
  completed ≡ₚ jobs variables_used →
  ∃ results d,
    imap_list worker variables_used completed = Some results
    ∧ results = worker <$> variables_used
    ∧ results_dict variables_used results = Some d
    ∧ (∀ v, v ∈ variables_used → d !! v = Some (worker v))
    ∧ (∀ v, v ∉ variables_used → d !! v = None).
Proof.
  intros Hperm.
  destruct (results_dict_prefix worker variables_used []) as (d & Hd & Hlookup).
  rewrite app_nil_r in Hd.
  exists (worker <$> variables_used), d. split_and!; try done.
  - by apply imap_list_map.
  - intros v Hv. by rewrite Hlookup, decide_True.
  - intros v Hv. by rewrite Hlookup, decide_False.
Qed.

Local Open Scope string_scope.

Example imap_list_example :
  imap_list String.length ["SLP"; "ThetaE850"; "WVF"]
    [(2, "WVF"); (0, "SLP"); (1, "ThetaE850")]
  = Some [3; 9; 3].
Proof. reflexivity. Qed.

(** Before the last job has finished the list is not there yet. *)
Example imap_list_waits :
  imap_list String.length ["SLP"; "ThetaE850"; "WVF"] [(2, "WVF"); (0, "SLP")]
  = None.
Proof. reflexivity. Qed.

Lemma imap_results_by_variable_witness :
  ∃ d, results_dict ["SLP"; "Z500"] (String.length <$> ["SLP"; "Z500"]) = Some d
       ∧ d !! "Z500" = Some 4.
Proof.
  assert (Hperm : [(1, "Z500"); (0, "SLP")] ≡ₚ jobs ["SLP"; "Z500"]).
  { apply Permutation_swap. }
  destruct (imap_results_by_variable String.length ["SLP"; "Z500"]
              [(1, "Z500"); (0, "SLP")] Hperm)
    as (results & d & _ & -> & Hd & Hin & _).
  exists d. split; [exact Hd|].
  apply Hin. apply list_elem_of_In. simpl. auto.
Defined.

End Pool.

(** ** Calendar dates ([pd.to_datetime], [strftime], [pd.date_range]) *)

Module Calendar.
Import Digits.
Local Open Scope Z_scope.

(** A timestamp at midnight is the number of its day, counted from
    1970-01-01 (pandas counts nanoseconds from the same day). *)
Definition timestamp : Type := Z.

(** The proleptic Gregorian calendar: the day number of a civil date... *)
Definition days_from_civil (y m d : Z) : Z :=
  let y := if decide (m ≤ 2) then y - 1 else y in
  let era := y / 400 in
  let yoe := y - era * 400 in
  let doy := (153 * (if decide (2 < m) then m - 3 else m + 9) + 2) / 5 + d - 1 in
  let doe := yoe * 365 + yoe / 4 - yoe / 100 + doy in
  era * 146097 + doe - 719468.

(** ... and the civil date of a day number. *)
Definition civil_from_days (z : Z) : Z * Z * Z :=
  let z := z + 719468 in
  let era := z / 146097 in
  let doe := z - era * 146097 in
  let yoe := (doe - doe / 1460 + doe / 36524 - doe / 146096) / 365 in
  let y := yoe + era * 400 in
  let doy := doe - (365 * yoe + yoe / 4 - yoe / 100) in
  let mp := (5 * doy + 2) / 153 in
  let d := doy - (153 * mp + 2) / 5 + 1 in
  let m := if decide (mp < 10) then mp + 3 else mp - 9 in
  (if decide (m ≤ 2) then y + 1 else y, m, d).

Definition is_leap (y : Z) : bool :=
  bool_decide (y mod 4 = 0) && (bool_decide (y mod 100 ≠ 0) || bool_decide (y mod 400 = 0)).

Definition days_in_month (y m : Z) : Z :=
  if decide (m = 2) then (if is_leap y then 29 else 28)
  else if decide (m = 4 ∨ m = 6 ∨ m = 9 ∨ m = 11) then 30
  else 31.

Definition valid_date (y m d : Z) : bool :=
  bool_decide (1 ≤ m ≤ 12) && bool_decide (1 ≤ d ≤ days_in_month y m).

(** The midnights a pandas [Timestamp] can hold, 1677-09-22 to 2262-04-11:
    a signed 64-bit count of nanoseconds reaches 106751 days either way. *)
Definition min_day : Z := -106751.
Definition max_day : Z := 106751.

Definition in_bounds (t : timestamp) : bool :=
  bool_decide (min_day ≤ t ≤ max_day).

(** [t + pd.DateOffset(days=k)]; leaving the bounds raises. *)
Definition shift (t : timestamp) (k : Z) : option timestamp :=
  if in_bounds (t + k) then Some (t + k) else None.

(** [pd.date_range(start, end)], daily. *)
Definition date_range (start stop : timestamp) : list timestamp :=
  seqZ start (stop - start + 1).

(** [pd.to_datetime(s)] for a string in the format of the time coordinates
    of the program, [%Y%m%d]: eight digits that name a date of the
    calendar within the bounds.  [None] is an exception (and stands for
    every other string: other formats are not modelled). *)
Definition to_datetime (s : string) : option timestamp :=
  match mapM digit_of (String.list_ascii_of_string s) with
  | Some [y1; y2; y3; y4; m1; m2; d1; d2] =>
      let y := 1000 * y1 + 100 * y2 + 10 * y3 + y4 in
      let m := 10 * m1 + m2 in
      let d := 10 * d1 + d2 in
      let t := days_from_civil y m d in
      if valid_date y m d && in_bounds t then Some t else None
  | _ => None
  end.

Definition two_digits (n : Z) : list Ascii.ascii :=
  [digit_char (n / 10); digit_char (n mod 10)].

Definition four_digits (n : Z) : list Ascii.ascii :=
  [digit_char (n / 1000); digit_char (n / 100 mod 10);
   digit_char (n / 10 mod 10); digit_char (n mod 10)].

(** [t.strftime('%Y%m%d')] and [t.strftime('%m%d')]. *)
Definition strftime_Ymd (t : timestamp) : string :=
  let '(y, m, d) := civil_from_days t in
  String.string_of_list_ascii (four_digits y ++ two_digits m ++ two_digits d).

Definition strftime_md (t : timestamp) : string :=
  let '(_, m, d) := civil_from_days t in
  String.string_of_list_ascii (two_digits m ++ two_digits d).

(** *** The day number and the civil date agree *)

#[local] Ltac Zify.zify_post_hook ::= Z.to_euclidean_division_equations.

(** Days of the year that starts on the first of March, by month. *)
Lemma month_split (mp d : Z) :
  0 ≤ mp ≤ 11 →
  1 ≤ d ≤ 31 →
  (mp = 1 ∨ mp = 3 ∨ mp = 6 ∨ mp = 8 → d ≤ 30) →
  (mp = 11 → d ≤ 29) →
  let doy := (153 * mp + 2) / 5 + d - 1 in
  0 ≤ doy ≤ 365
  ∧ (doy = 365 → mp = 11 ∧ d = 29)
  ∧ (5 * doy + 2) / 153 = mp
  ∧ doy - (153 * mp + 2) / 5 + 1 = d.
Proof. intros Hmp Hd H30 H29 doy. subst doy. lia. Qed.

Lemma year_split (yoe doy : Z) :
  0 ≤ yoe ≤ 399 → 0 ≤ doy ≤ 365 →
  (doy = 365 → (yoe + 1) mod 4 = 0 ∧ ((yoe + 1) mod 100 ≠ 0 ∨ (yoe + 1) mod 400 = 0)) →
  let doe := yoe * 365 + yoe / 4 - yoe / 100 + doy in
  0 ≤ doe ≤ 146096
  ∧ (doe - doe / 1460 + doe / 36524 - doe / 146096) / 365 = yoe.
Proof. intros Hy Hd Hleap doe. subst doe. lia. Qed.

Lemma era_split (era doe : Z) :
  0 ≤ doe ≤ 146096 →
  (era * 146097 + doe - 719468 + 719468) / 146097 = era
  ∧ era * 146097 + doe - 719468 + 719468 - era * 146097 = doe.
Proof. intros. lia. Qed.

Lemma valid_date_inv (y m d : Z) :
  valid_date y m d = true →
  1 ≤ m ≤ 12 ∧ 1 ≤ d ≤ 31
  ∧ (m = 4 ∨ m = 6 ∨ m = 9 ∨ m = 11 → d ≤ 30)
  ∧ (m = 2 → d ≤ 29)
  ∧ (m = 2 → d = 29 → y mod 4 = 0 ∧ (y mod 100 ≠ 0 ∨ y mod 400 = 0)).
Proof.
  unfold valid_date, days_in_month, is_leap.
  rewrite andb_true_iff, !bool_decide_eq_true. intros [Hm Hd].
  repeat case_decide; repeat case_bool_decide; simpl in *; lia.
Qed.

Lemma civil_roundtrip (y m d : Z) :
  valid_date y m d = true →
  civil_from_days (days_from_civil y m d) = (y, m, d).
Proof.
  intros (Hm & Hd & H30 & H29 & Hleap)%valid_date_inv.
  unfold days_from_civil.
  set (y' := if decide (m ≤ 2) then y - 1 else y).
  set (mp := if decide (2 < m) then m - 3 else m + 9).
  set (era := y' / 400). set (yoe := y' - era * 400).
  set (doy := (153 * mp + 2) / 5 + d - 1).
  set (doe := yoe * 365 + yoe / 4 - yoe / 100 + doy).
  assert (Hyoe : 0 ≤ yoe ≤ 399) by (subst yoe era; lia).
  assert (Hmp : 0 ≤ mp ≤ 11 ∧ m = (if decide (mp < 10) then mp + 3 else mp - 9)).
  { subst mp. repeat case_decide; lia. }
  destruct Hmp as [Hmp Hm'].
  destruct (month_split mp d) as (Hdoy & H365 & Hmp' & Hd'); [done|done| | |].
  { subst mp. case_decide; lia. }
  { subst mp. case_decide; lia. }
  fold doy in Hdoy, H365, Hmp', Hd'.
  destruct (year_split yoe doy) as [Hdoe Hyoe']; [done|done| |].
  { intros H. destruct (H365 H) as [Hmp11 Hd29].
    assert (m = 2) as Hm2 by (subst mp; case_decide; lia).
    destruct (Hleap Hm2 Hd29) as [H4 H100].
    assert (y = yoe + 1 + 400 * era) as Hy.
    { subst yoe era y'. rewrite decide_True by lia. lia. }
    lia. }
  fold doe in Hdoe, Hyoe'.
  destruct (era_split era doe Hdoe) as [Hera Hrem].
  unfold civil_from_days. cbv zeta.
  rewrite Hera, Hrem, Hyoe'.
  replace (doe - (365 * yoe + yoe / 4 - yoe / 100)) with doy by (subst doe; lia).
  rewrite Hmp', Hd', <-Hm'.
  f_equal. f_equal.
  subst yoe y'. repeat case_decide; lia.
Qed.

Lemma four_digits_eq (a b c d : Z) :
  0 ≤ a ≤ 9 → 0 ≤ b ≤ 9 → 0 ≤ c ≤ 9 → 0 ≤ d ≤ 9 →
  four_digits (1000 * a + 100 * b + 10 * c + d)
  = [digit_char a; digit_char b; digit_char c; digit_char d].
Proof.
  intros. unfold four_digits.
  repeat f_equal; lia.
Qed.

Lemma two_digits_eq (a b : Z) :
  0 ≤ a ≤ 9 → 0 ≤ b ≤ 9 →
  two_digits (10 * a + b) = [digit_char a; digit_char b].
Proof. intros. unfold two_digits. repeat f_equal; lia. Qed.

(** A string that [to_datetime] accepts is printed back by [strftime]. *)
Lemma strftime_to_datetime (s : string) (t : timestamp) :
  to_datetime s = Some t → strftime_Ymd t = s.
Proof.
  unfold to_datetime.
  destruct (mapM digit_of (String.list_ascii_of_string s)) as [ds|] eqn:Hds; [|done].
  destruct ds as [|y1 [|y2 [|y3 [|y4 [|m1 [|m2 [|d1 [|d2 [|? ?]]]]]]]]]; try done.
  case_match eqn:Hok; [|done]. intros [= <-].
  apply andb_true_iff in Hok as [Hvalid _].
  apply mapM_Some_1 in Hds.
  rewrite <-(String.string_of_list_ascii_of_string s).
  repeat match goal with
  | H : Forall2 _ _ (_ :: _) |- _ =>
      apply Forall2_cons_inv_r in H as (? & ? & ?%digit_of_char & ? & ->)
  | H : Forall2 _ _ [] |- _ => apply Forall2_nil_inv_r in H as ->
  end.
  destruct_and!. subst.
  unfold strftime_Ymd. rewrite civil_roundtrip by done.
  by rewrite four_digits_eq, !two_digits_eq.
Qed.

(* day of era -> year of era, day of year *)
Lemma doe_split (doe : Z) :
  0 ≤ doe ≤ 146096 →
  let yoe := (doe - doe / 1460 + doe / 36524 - doe / 146096) / 365 in
  let doy := doe - (365 * yoe + yoe / 4 - yoe / 100) in
  0 ≤ yoe ≤ 399 ∧ 0 ≤ doy ≤ 365
  ∧ (doy = 365 → (yoe + 1) mod 4 = 0 ∧ ((yoe + 1) mod 100 ≠ 0 ∨ (yoe + 1) mod 400 = 0)).
Proof. intros Hdoe yoe doy. subst yoe doy. lia. Qed.

Lemma doy_split (doy : Z) :
  0 ≤ doy ≤ 365 →
  let mp := (5 * doy + 2) / 153 in
  let d := doy - (153 * mp + 2) / 5 + 1 in
  0 ≤ mp ≤ 11 ∧ 1 ≤ d ≤ 31
  ∧ (mp = 1 ∨ mp = 3 ∨ mp = 6 ∨ mp = 8 → d ≤ 30)
  ∧ (mp = 11 → d ≤ 29 ∧ (d = 29 → doy = 365))
  ∧ (153 * mp + 2) / 5 + d - 1 = doy.
Proof. intros Hdoy mp d. subst mp d. lia. Qed.

Lemma valid_date_intro (y m d : Z) :
  1 ≤ m ≤ 12 → 1 ≤ d ≤ 31 →
  (m = 4 ∨ m = 6 ∨ m = 9 ∨ m = 11 → d ≤ 30) →
  (m = 2 → d ≤ 29) →
  (m = 2 → d = 29 → y mod 4 = 0 ∧ (y mod 100 ≠ 0 ∨ y mod 400 = 0)) →
  valid_date y m d = true.
Proof.
  intros Hm Hd H30 H29 Hleap.
  unfold valid_date, days_in_month, is_leap.
  rewrite andb_true_iff, !bool_decide_eq_true. split; [done|].
  repeat case_decide; repeat case_bool_decide; simpl; lia.
Qed.

(** The civil date of a day number is a date of the calendar, and its day
    number is the one we started from. *)
Lemma civil_from_days_valid (t : timestamp) :
  ∃ y m d, civil_from_days t = (y, m, d)
    ∧ valid_date y m d = true ∧ days_from_civil y m d = t.
Proof.
  unfold civil_from_days.
  set (z := t + 719468). set (era := z / 146097).
  set (doe := z - era * 146097).
  assert (Hdoe : 0 ≤ doe ≤ 146096) by (subst doe era; lia).
  destruct (doe_split doe Hdoe) as (Hyoe & Hdoy & Hleap).
  set (yoe := (doe - doe / 1460 + doe / 36524 - doe / 146096) / 365) in *.
  set (doy := doe - (365 * yoe + yoe / 4 - yoe / 100)) in *.
  destruct (doy_split doy Hdoy) as (Hmp & Hd & H30 & H29 & Hback).
  set (mp := (5 * doy + 2) / 153) in *.
  set (d := doy - (153 * mp + 2) / 5 + 1) in *.
  set (m := if decide (mp < 10) then mp + 3 else mp - 9).
  set (y := if decide (m ≤ 2) then yoe + era * 400 + 1 else yoe + era * 400).
  exists y, m, d. split; [done|].
  assert (Hm : 1 ≤ m ≤ 12 ∧ mp = (if decide (2 < m) then m - 3 else m + 9)).
  { subst m. repeat case_decide; lia. }
  destruct Hm as [Hm Hmp'].
  split.
  - apply valid_date_intro; try done.
    + subst m. case_decide; lia.
    + subst m. case_decide; lia.
    + intros Hm2 Hd29.
      assert (mp = 11) as Hmp11 by (subst m; case_decide; lia).
      destruct (H29 Hmp11) as [_ H365]. specialize (Hleap (H365 Hd29)).
      subst y. rewrite decide_True by lia. lia.
  - unfold days_from_civil. rewrite <-Hmp'.
    set (y' := if decide (m ≤ 2) then y - 1 else y).
    assert (y' = yoe + era * 400) as -> by (subst y' y; repeat case_decide; lia).
    assert ((yoe + era * 400) / 400 = era) as -> by lia.
    replace (yoe + era * 400 - era * 400) with yoe by lia.
    rewrite Hback. subst doy doe z. lia.
Qed.

Lemma digit_of_digit_char (d : Z) :
  0 ≤ d ≤ 9 → digit_of (digit_char d) = Some d.
Proof.
  intros Hd. unfold digit_of, digit_char.
  rewrite Ascii.N_ascii_embedding by lia.
  rewrite Z2N.id by lia. rewrite decide_True by lia. f_equal. lia.
Qed.

Lemma year_bound (y m d : Z) :
  1 ≤ m ≤ 12 → 1 ≤ d ≤ 31 →
  min_day ≤ days_from_civil y m d ≤ max_day → 1677 ≤ y ≤ 2262.
Proof.
  unfold min_day, max_day, days_from_civil. intros Hm Hd.
  repeat case_decide; lia.
Qed.

(** A date printed by [strftime] is read back by [to_datetime]. *)
Lemma to_datetime_strftime (t : timestamp) :
  in_bounds t = true → to_datetime (strftime_Ymd t) = Some t.
Proof.
  intros Ht. unfold strftime_Ymd.
  destruct (civil_from_days_valid t) as (y & m & d & -> & Hvalid & Hback).
  pose proof (valid_date_inv y m d Hvalid) as (Hm & Hd & _).
  assert (1677 ≤ y ≤ 2262) as Hy.
  { apply (year_bound y m d); [done|done|]. rewrite Hback.
    unfold in_bounds in Ht. by apply bool_decide_eq_true in Ht. }
  unfold to_datetime. rewrite String.list_ascii_of_string_of_list_ascii.
  unfold four_digits, two_digits. cbn [app].
  rewrite !Download.mapM_cons.
  rewrite !digit_of_digit_char by lia.
  cbn [mapM mbind option_bind mret option_ret].
  replace (1000 * (y / 1000) + 100 * (y / 100 mod 10) + 10 * (y / 10 mod 10) + y mod 10)
    with y by lia.
  replace (10 * (m / 10) + m mod 10) with m by lia.
  replace (10 * (d / 10) + d mod 10) with d by lia.
  by rewrite Hvalid, Hback, Ht.
Qed.

Example days_from_civil_epoch : days_from_civil 1970 1 1 = 0.
Proof. reflexivity. Qed.

Example min_day_civil : civil_from_days min_day = (1677, 9, 22).
Proof. reflexivity. Qed.

Example max_day_civil : civil_from_days max_day = (2262, 4, 11).
Proof. reflexivity. Qed.

Example to_datetime_example : to_datetime "20191231" = Some 18261.
Proof. reflexivity. Qed.

Example to_datetime_no_such_day : to_datetime "20190229" = None.
Proof. reflexivity. Qed.

Example strftime_example : strftime_Ymd 18261 = "20191231"%string.
Proof. reflexivity. Qed.

End Calendar.

(** ** Extreme events: exceedance of a quantile threshold *)

Module Extremes.
Import PyFloat.

(** A gridded field in time: [values[t][lat][lon]], with the time
    coordinate (timestamps, or date strings) and the sizes of the two space
    dimensions. *)
Record DataArray (T : Type) : Type := mkDataArray {
  time : list T;
  nlat : nat;
  nlon : nat;
  values : list (list (list pyfloat))
}.
Arguments mkDataArray {T} time nlat nlon values.
Arguments time {T} d.
Arguments nlat {T} d.
Arguments nlon {T} d.
Arguments values {T} d.

(** The array has the shape its dimensions say. *)
Definition well_shaped {T} (ds : DataArray T) : Prop :=
  length (values ds) = length (time ds)
  ∧ Forall (λ grid, length grid = nlat ds
                    ∧ Forall (λ row, length row = nlon ds) grid) (values ds).

(** [ds[t, lat, lon]] and the time series of a grid cell. *)
Definition cell (grid : list (list pyfloat)) (la lo : nat) : option pyfloat :=
  grid !! la ≫= (.!! lo).

Definition series {T} (ds : DataArray T) (la lo : nat) : list pyfloat :=
  omap (λ grid, cell grid la lo) (values ds).

(** *** Warnings *)

Inductive category : Type := RuntimeWarning | UserWarning | FutureWarning.

#[global] Instance category_eq_dec : EqDecision category.
Proof. solve_decision. Defined.

Record warning : Type := mkWarning { kind : category; message : string }.

(** [with warnings.catch_warnings():
       warnings.simplefilter('ignore', category=c)]:
    the warnings of category [c] raised in the block are dropped. *)
Definition catch_warnings_ignore {A} (c : category) (r : A * list warning)
  : A * list warning :=
  (r.1, filter (λ w, kind w ≠ c) r.2).

(** *** The quantile of numpy, linear interpolation, NaN skipped *)

Definition numbers (xs : list pyfloat) : list Qc :=
  omap (λ x, match x with Num v => Some v | NaN => None end) xs.

Definition Qcfloor (x : Qc) : Z := (Qnum x / Z.pos (Qden x))%Z.

(** The quantile [q] of the sorted numbers [a]: position [q * (n - 1)],
    interpolated between its two neighbours. *)
Definition interpolate (q : Qc) (a : list Qc) : option Qc :=
  let n := length a in
  let h := (q * Qcnat (n - 1))%Qc in
  let lo := Z.to_nat (Qcfloor h) in
  let hi := (lo + 1) `min` (n - 1) in
  x ← a !! lo; y ← a !! hi;
  Some (x + (y - x) * (h - QcZ (Qcfloor h)))%Qc.

Definition all_nan_warning : warning :=
  mkWarning RuntimeWarning "All-NaN slice encountered".

Definition nanquantile (q : Qc) (xs : list pyfloat) : pyfloat * list warning :=
  match interpolate q (merge_sort Qcle (numbers xs)) with
  | Some v => (Num v, [])
  | None => (NaN, [all_nan_warning])
  end.

(** [ds.quantile(q, interpolation='linear', dim='time')]: one threshold per
    grid cell; a [q] outside of [0, 1] raises. *)
Definition quantile_time (ds : DataArray string) (q : Qc)
  : option (list (list pyfloat) * list warning) :=
  if decide (0 ≤ q ≤ 1)%Qc then
    let cells :=
      (λ la, (λ lo, nanquantile q (series ds la lo)) <$> seq 0 (nlon ds))
        <$> seq 0 (nlat ds) in
    Some (fmap (M:=list) fst <$> cells, concat (snd <$> concat cells))
  else None.

(** *** [dates_extreme] *)

(** [a.flatten()] of a three- and of a two-dimensional array. *)
Definition flatten {A} (a : list (list A)) : list A := concat a.

Fixpoint chunks {A} (size count : nat) (l : list A) : list (list A) :=
  match count with
  | 0 => []
  | S count' => take size l :: chunks size count' (drop size l)
  end.

(** [np.reshape(flat, (rows, -1))]: the row length is what makes the sizes
    agree; there must be one. *)
Definition reshape_rows {A} (rows : nat) (flat : list A) : option (list (list A)) :=
  if decide (rows = 0) then None
  else if decide (length flat `mod` rows = 0)
       then Some (chunks (length flat `div` rows) rows flat)
       else None.

(** [row > thresholds], the thresholds broadcast along the rows: the
    lengths have to agree. *)
Definition exceeds_row (row thresholds : list pyfloat) : option (list bool) :=
  if decide (length row = length thresholds)
  then Some (zip_with fgt row thresholds) else None.

(** [list(QuantExceed.index[np.where(x == 1)[0]])] for the column [c]. *)
Definition exceedance_days (index : list string) (QuantExceed : list (list bool))
    (c : nat) : list string :=
  omap (λ dr, if default false (dr.2 !! c) then Some dr.1 else None)
       (zip index QuantExceed).

Definition dates_extreme (dataset : DataArray string) (quantile : Qc)
  : option (list (list string) * list warning) :=
  Q ← quantile_time dataset quantile;
  let '(Q_thres, shown) := catch_warnings_ignore RuntimeWarning Q in
  let dataset_df := flatten (flatten (values dataset)) in
  dataset_df ← reshape_rows (length (values dataset)) dataset_df;
  if decide (length dataset_df = length (time dataset)) then
    QuantExceed ← mapM (λ row, exceeds_row row (flatten Q_thres)) dataset_df;
    let columns := length (flatten Q_thres) in
    let DaysExceed := exceedance_days (time dataset) QuantExceed <$> seq 0 columns in
    Some (DaysExceed, shown)
  else None.

(** *** [Exceed_xr] *)

(** [(EOBS > Quant.sel(percentile=i_p))*1] *)
Definition exceed (ds : DataArray string) (thresholds : list (list pyfloat))
  : list (list (list Z)) :=
  (λ grid, zip_with (zip_with (λ v thr, (Z.b2z (fgt v thr) * 1)%Z)) grid thresholds)
    <$> values ds.

(** The thresholds and the exceedance fields for the percentiles [P_used],
    with the warnings let through. *)
Definition Exceed_xr (EOBS : DataArray string) (P_used : list Z)
  : option (list (list (list (list Z))) * list warning) :=
  Quant ← mapM (λ p, quantile_time EOBS (QcZ p / QcZ 100)%Qc) P_used;
  let '(_, shown) :=
    catch_warnings_ignore RuntimeWarning (Quant, concat (snd <$> Quant)) in
  Some ((λ Q, exceed EOBS Q.1) <$> Quant, shown).

(** *** Flattening and reshaping *)

Lemma length_concat_regular {A} (k : nat) (rows : list (list A)) :
  Forall (λ r, length r = k) rows → length (concat rows) = length rows * k.
Proof.
  induction 1 as [|r rows Hr _ IH]; [done|].
  simpl. rewrite length_app, IH, Hr. lia.
Qed.

Lemma chunks_concat {A} (k : nat) (rows : list (list A)) :
  Forall (λ r, length r = k) rows →
  chunks k (length rows) (concat rows) = rows.
Proof.
  induction 1 as [|r rows Hr _ IH]; [done|].
  simpl. rewrite take_app_length' by done. f_equal.
  by rewrite drop_app_length' by done.
Qed.

Lemma reshape_rows_concat {A} (k : nat) (rows : list (list A)) :
  rows ≠ [] → Forall (λ r, length r = k) rows →
  reshape_rows (length rows) (concat rows) = Some rows.
Proof.
  intros Hne Hk. unfold reshape_rows.
  assert (length rows ≠ 0) by (by destruct rows).
  rewrite decide_False by done.
  rewrite (length_concat_regular k), (Nat.mul_comm _ k) by done.
  rewrite decide_True by apply Nat.Div0.mod_mul.
  rewrite Nat.div_mul by done. by rewrite chunks_concat.
Qed.

Lemma concat_concat {A} (a : list (list (list A))) :
  concat (concat a) = concat (flatten <$> a).
Proof.
  induction a as [|x a IH]; [done|].
  simpl. rewrite concat_app. f_equal. exact IH.
Qed.

Lemma concat_lookup_regular {A} (k : nat) (rows : list (list A)) (la lo : nat) :
  Forall (λ r, length r = k) rows → lo < k →
  concat rows !! (la * k + lo) = rows !! la ≫= (.!! lo).
Proof.
  intros Hk Hlo. revert la.
  induction Hk as [|r rows Hr _ IH]; intros la; [done|].
  destruct la as [|la]; simpl.
  - rewrite lookup_app_l by lia. done.
  - rewrite lookup_app_r by lia. rewrite <-IH. f_equal. lia.
Qed.

Lemma lookup_flat_table {A} (f : nat → nat → A) (n m la lo : nat) :
  la < n → lo < m →
  concat ((λ i, f i <$> seq 0 m) <$> seq 0 n) !! (la * m + lo) = Some (f la lo).
Proof.
  intros Hla Hlo.
  rewrite (concat_lookup_regular m) by
    (try done; apply Forall_fmap, Forall_forall; intros i _; simpl;
     by rewrite length_fmap, length_seq).
  rewrite list_lookup_fmap, lookup_seq_lt by done. simpl.
  by rewrite list_lookup_fmap, lookup_seq_lt.
Qed.

Lemma length_flat_table {A} (f : nat → nat → A) (n m : nat) :
  length (concat ((λ i, f i <$> seq 0 m) <$> seq 0 n)) = n * m.
Proof.
  rewrite (length_concat_regular m).
  - by rewrite length_fmap, length_seq.
  - apply Forall_fmap, Forall_forall. intros i _. simpl.
    by rewrite length_fmap, length_seq.
Qed.

(** *** The thresholds *)

Section thresholds.
Context (ds : DataArray string) (q : Qc).

(** The threshold of the cell [(la, lo)]. *)
Definition threshold (la lo : nat) : pyfloat := (nanquantile q (series ds la lo)).1.

Lemma nanquantile_warnings (xs : list pyfloat) :
  Forall (λ w, kind w = RuntimeWarning) (nanquantile q xs).2.
Proof.
  unfold nanquantile. case_match; simpl; [constructor|].
  by repeat constructor.
Qed.

Lemma quantile_time_eq :
  (0 ≤ q ≤ 1)%Qc →
  ∃ shown, quantile_time ds q
    = Some ((λ la, threshold la <$> seq 0 (nlon ds)) <$> seq 0 (nlat ds), shown)
    ∧ Forall (λ w, kind w = RuntimeWarning) shown.
Proof.
  intros Hq. unfold quantile_time. rewrite decide_True by done.
  eexists. split.
  - f_equal. f_equal. rewrite <-list_fmap_compose.
    apply list_fmap_ext. intros _ la _. simpl.
    rewrite <-list_fmap_compose. done.
  - apply Forall_concat, Forall_fmap, Forall_concat, Forall_fmap, Forall_forall.
    intros la _. simpl. apply Forall_fmap, Forall_forall. intros lo _. simpl.
    apply nanquantile_warnings.
Qed.

Lemma catch_runtime_warnings {A} (x : A) (ws : list warning) :
  Forall (λ w, kind w = RuntimeWarning) ws →
  catch_warnings_ignore RuntimeWarning (x, ws) = (x, []).
Proof.
  intros Hws. unfold catch_warnings_ignore. simpl. f_equal.
  induction Hws as [|w ws Hw _ IH]; [done|].
  rewrite filter_cons_False by (intros Hne; by apply Hne). done.
Qed.

End thresholds.

(** *** The days of exceedance of a cell *)

Section exceedance.
Context (ds : DataArray string) (q : Qc).

(** The thresholds as [quantile_time] lays them out, flattened. *)
Definition thresholds : list (list pyfloat) :=
  (λ la, threshold ds q la <$> seq 0 (nlon ds)) <$> seq 0 (nlat ds).



Definition grid_shaped (grid : list (list pyfloat)) : Prop :=
  length grid = nlat ds ∧ Forall (λ row, length row = nlon ds) grid.

Lemma exceeds_row_grid (grid : list (list pyfloat)) :
  grid_shaped grid →
  exceeds_row (flatten grid) (flatten thresholds)
  = Some (zip_with fgt (flatten grid) (flatten thresholds)).
Proof.
  intros [Hla Hlo]. unfold exceeds_row. rewrite decide_True; [done|].
  unfold flatten, thresholds. rewrite length_flat_table.
  by rewrite (length_concat_regular (nlon ds)), Hla.
Qed.

Lemma exceeds_cell (grid : list (list pyfloat)) (la lo : nat) :
  grid_shaped grid → la < nlat ds → lo < nlon ds →
  zip_with fgt (flatten grid) (flatten thresholds) !! (la * nlon ds + lo)
  = (λ v, fgt v (threshold ds q la lo)) <$> cell grid la lo.
Proof.
  intros [Hla Hlo] Hla' Hlo'. rewrite lookup_zip_with.
  unfold flatten, thresholds. rewrite lookup_flat_table by done.
  rewrite (concat_lookup_regular (nlon ds)) by done.
  fold (cell grid la lo). by destruct (cell grid la lo).
Qed.

(** The dates of the time steps at which the cell exceeds its threshold. *)
Definition days_over (la lo : nat) : list string :=
  omap (λ dg, v ← cell dg.2 la lo;
              if fgt v (threshold ds q la lo) then Some dg.1 else None)
       (zip (time ds) (values ds)).

Lemma exceedance_days_cell (la lo : nat) (grids : list (list (list pyfloat))) :
  Forall grid_shaped grids → la < nlat ds → lo < nlon ds →
  ∀ index,
    exceedance_days index
      ((λ grid, zip_with fgt (flatten grid) (flatten thresholds)) <$> grids)
      (la * nlon ds + lo)
    = omap (λ dg, v ← cell dg.2 la lo;
                  if fgt v (threshold ds q la lo) then Some dg.1 else None)
           (zip index grids).
Proof.
  intros Hgrids Hla Hlo. unfold exceedance_days.
  induction Hgrids as [|grid grids Hgrid _ IH]; intros [|d index]; try done.
  cbn [fmap list_fmap zip_with omap list_omap]. rewrite IH.
  cbn [fst snd]. rewrite exceeds_cell by done.
  by destruct (cell grid la lo).
Qed.


(** [dates_extreme] returns, and shows no warning. *)
Lemma dates_extreme_eq :
  well_shaped ds → time ds ≠ [] → (0 ≤ q ≤ 1)%Qc →
  dates_extreme ds q
  = Some ((λ c, exceedance_days (time ds)
                  ((λ grid, zip_with fgt (flatten grid) (flatten thresholds))
                     <$> values ds) c)
            <$> seq 0 (nlat ds * nlon ds), []).
Proof.
  intros [Hlen Hgrids] Htime Hq. unfold dates_extreme.
  destruct (quantile_time_eq ds q Hq) as (shown & -> & Hshown).
  cbn [mbind option_bind]. fold thresholds.
  rewrite catch_runtime_warnings by done.
  unfold flatten at 1 2. rewrite concat_concat.
  rewrite <-(length_fmap flatten (values ds)).
  rewrite (reshape_rows_concat (nlat ds * nlon ds)).
  - cbn [mbind option_bind]. rewrite length_fmap, decide_True by done.
    rewrite (mapM_Some_2 _ _
      ((λ grid, zip_with fgt (flatten grid) (flatten thresholds)) <$> values ds)).
    + cbn [mbind option_bind].
      by replace (length (concat thresholds)) with (nlat ds * nlon ds)
        by (symmetry; apply length_flat_table).
    + apply Forall2_fmap_l, Forall2_fmap_r, Forall_Forall2_diag.
      eapply Forall_impl; [exact Hgrids|]. intros grid Hgrid. simpl.
      by apply exceeds_row_grid.
  - destruct (values ds); [|done]. destruct (time ds); done.
  - apply Forall_fmap. eapply Forall_impl; [exact Hgrids|].
    intros grid [Hla Hlo]. simpl. unfold flatten.
    by rewrite (length_concat_regular (nlon ds)), Hla.
Qed.

End exceedance.

Lemma dates_extreme_cell (ds : DataArray string) (q : Qc) (la lo : nat) :
  well_shaped ds → time ds ≠ [] → (0 ≤ q ≤ 1)%Qc →
  la < nlat ds → lo < nlon ds →
  ∃ DaysExceed, dates_extreme ds q = Some (DaysExceed, [])
    ∧ length DaysExceed = nlat ds * nlon ds
    ∧ DaysExceed !! (la * nlon ds + lo) = Some (days_over ds q la lo).
Proof.
  intros Hwf Htime Hq Hla Hlo. eexists. split; [by apply dates_extreme_eq|].
  split; [by rewrite length_fmap, length_seq|].
  rewrite list_lookup_fmap, lookup_seq_lt by nia. simpl. f_equal.
  destruct Hwf as [_ Hgrids]. by apply exceedance_days_cell.
Qed.

(** *** The exceedance fields *)

Lemma percent_in_range (p : Z) :
  (0 ≤ p ≤ 100)%Z → (0 ≤ QcZ p / QcZ 100 ≤ 1)%Qc.
Proof.
  intros [H0 H100]. unfold Qcdiv, QcZ.
  assert (Hinv : (0 ≤ / Qc_of_Z 100)%Qc) by done.
  split.
  - rewrite <-(Qcmult_0_l (/ Qc_of_Z 100)).
    apply Qcmult_le_compat_r; [|done].
    rewrite <-Z2Qc_inj_0. by apply (proj1 (Z2Qc_inj_le 0 p)).
  - replace 1%Qc with (Qc_of_Z 100 * / Qc_of_Z 100)%Qc by (by apply Qc_is_canon).
    apply Qcmult_le_compat_r; [|done]. by apply (proj1 (Z2Qc_inj_le p 100)).
Qed.

Lemma Exceed_xr_eq (ds : DataArray string) (P_used : list Z) :
  Forall (λ p, 0 ≤ p ≤ 100)%Z P_used →
  Exceed_xr ds P_used
  = Some ((λ p, exceed ds (thresholds ds (QcZ p / QcZ 100))) <$> P_used, []).
Proof.
  intros HP. unfold Exceed_xr.
  assert (∃ Quant, mapM (λ p, quantile_time ds (QcZ p / QcZ 100)%Qc) P_used = Some Quant
            ∧ fst <$> Quant = (λ p, thresholds ds (QcZ p / QcZ 100)) <$> P_used
            ∧ Forall (λ w, kind w = RuntimeWarning) (concat (snd <$> Quant)))
    as (Quant & -> & Hfst & Hsnd).
  { induction HP as [|p P_used Hp _ (Quant & HQ & Hfst & Hsnd)].
    { exists []. split_and!; [done|done|constructor]. }
    destruct (quantile_time_eq ds _ (percent_in_range p Hp)) as (shown & Hq & Hshown).
    exists ((thresholds ds (QcZ p / QcZ 100), shown) :: Quant).
    rewrite Download.mapM_cons, Hq, HQ. split_and!; [done| |].
    - rewrite !fmap_cons, Hfst. done.
    - rewrite fmap_cons. simpl. by apply Forall_app. }
  cbn [mbind option_bind].
  rewrite catch_runtime_warnings by done. f_equal. f_equal.
  trans (exceed ds <$> (fst <$> Quant)).
  { by rewrite <-list_fmap_compose. }
  rewrite Hfst. by rewrite <-list_fmap_compose.
Qed.

(** [a[t, la, lo]] *)
Definition at3 {A} (a : list (list (list A))) (t la lo : nat) : option A :=
  grid ← a !! t; row ← grid !! la; row !! lo.



(** C3: for a cell all of whose values are missing, [dates_extreme]
    returns and shows no warning (the quantile did raise a RuntimeWarning,
    that the filter dropped), the threshold of the cell is NaN and its list
    of dates is empty. *)
Theorem all_missing_cell (ds : DataArray string) (q : Qc) (la lo : nat) :
  well_shaped ds → time ds ≠ [] → (0 ≤ q ≤ 1)%Qc →
  la < nlat ds → lo < nlon ds →
  (∀ grid, grid ∈ values ds → cell grid la lo = Some NaN) →
  ∃ DaysExceed Q_thres raised,
    dates_extreme ds q = Some (DaysExceed, [])
    ∧ quantile_time ds q = Some (Q_thres, raised)
    ∧ mkWarning RuntimeWarning "All-NaN slice encountered" ∈ raised
    ∧ (Q_thres !! la ≫= (.!! lo)) = Some NaN
    ∧ DaysExceed !! (la * nlon ds + lo) = Some [].
Proof.
  intros Hwf Htime Hq Hla Hlo Hnan.
  assert (Hseries : numbers (series ds la lo) = []).
  { unfold series. induction (values ds) as [|grid grids IH]; [done|].
    cbn [omap list_omap]. rewrite (Hnan grid) by left.
    simpl. apply IH. intros g Hg. apply Hnan. by right. }
  assert (Hthr : nanquantile q (series ds la lo) = (NaN, [all_nan_warning])).
  { unfold nanquantile. by rewrite Hseries. }
  destruct (dates_extreme_cell ds q la lo) as (DaysExceed & Hde & _ & Hcell);
    try done.
  exists DaysExceed.
  unfold quantile_time. rewrite decide_True by done.
  eexists _, _. split_and!; [done|done| | |].
  - apply list_elem_of_In, in_concat.
    exists [all_nan_warning]. split; [|by left].
    apply list_elem_of_In, list_elem_of_fmap.
    exists (NaN, [all_nan_warning]). split; [done|].
    apply list_elem_of_In, in_concat.
    exists ((λ lo, nanquantile q (series ds la lo)) <$> seq 0 (nlon ds)). split.
    + apply list_elem_of_In, list_elem_of_fmap. exists la. split; [done|].
      apply elem_of_seq. lia.
    + apply list_elem_of_In, list_elem_of_fmap. exists lo. split; [done|].
      apply elem_of_seq. lia.
  - rewrite !list_lookup_fmap, lookup_seq_lt by done. simpl.
    rewrite !list_lookup_fmap, lookup_seq_lt by done. simpl.
    by rewrite Hthr.
  - rewrite Hcell. f_equal. unfold days_over, threshold. rewrite Hthr. simpl.
    induction (zip (time ds) (values ds)) as [|dg l IH]; [done|].
    cbn [omap list_omap]. rewrite IH.
    destruct (cell dg.2 la lo) as [v|]; [|done]. simpl.
    by rewrite fgt_nan_r.
Qed.

(** *** A small field: one row of two cells, the second one over the sea *)

Definition example_field : DataArray string :=
  mkDataArray ["19790102"; "19790103"; "19790104"] 1 2
    [ [[Num (QcZ 1); NaN]]; [[Num (QcZ 5); NaN]]; [[Num (QcZ 3); NaN]] ].

Lemma example_field_shaped : well_shaped example_field.
Proof. split; [done|]. repeat constructor. Qed.

Example nanquantile_median :
  (nanquantile (lit 1 2) [Num (QcZ 4); Num (QcZ 1); NaN; Num (QcZ 3); Num (QcZ 2)]).1
  = Num (lit 5 2).
Proof. vm_compute. f_equal; by apply Qc_is_canon. Qed.

Example nanquantile_95 :
  (nanquantile (lit 95 100) [Num (QcZ 4); Num (QcZ 1); Num (QcZ 3); Num (QcZ 2)]).1
  = Num (lit 385 100).
Proof. vm_compute. f_equal; by apply Qc_is_canon. Qed.

Example dates_extreme_example :
  dates_extreme example_field (lit 1 2) = Some ([["19790103"]; []], []).
Proof. reflexivity. Qed.

Example Exceed_xr_example :
  Exceed_xr example_field [50]%Z
  = Some ([ [ [[0; 0]]; [[1; 0]]; [[0; 0]] ] ]%Z, []).
Proof. reflexivity. Qed.


Lemma all_missing_cell_witness :
  ∃ DaysExceed,
    dates_extreme example_field (lit 1 2) = Some (DaysExceed, [])
    ∧ DaysExceed !! 1 = Some [].
Proof.
  assert (Htime : time example_field ≠ []) by discriminate.
  assert (Hq : (0 ≤ lit 1 2 ≤ 1)%Qc) by done.
  assert (Hla : 0 < nlat example_field) by (simpl; lia).
  assert (Hlo : 1 < nlon example_field) by (simpl; lia).
  assert (Hnan : ∀ grid, grid ∈ values example_field → cell grid 0 1 = Some NaN).
  { intros grid Hgrid. apply list_elem_of_In in Hgrid. simpl in Hgrid.
    destruct Hgrid as [<-|[<-|[<-|[]]]]; reflexivity. }
  destruct (all_missing_cell example_field (lit 1 2) 0 1
              example_field_shaped Htime Hq Hla Hlo Hnan)
    as (DaysExceed & _ & _ & Hde & _ & _ & _ & Hdays).
  exists DaysExceed. split; [exact Hde|exact Hdays].
Defined.

End Extremes.

(** ** Temporal overlap of the extremes of two datasets *)

Module Overlap.
Import PyFloat Digits Calendar Extremes.

(** [actual_dates] is one date string or a list of them. *)
Inductive dates_arg : Type :=
  | One (s : string)
  | Many (l : list string).

(** The window of one date:
    [pd.date_range(i_date - pd.DateOffset(days=days_offset),
                   i_date + pd.DateOffset(days=days_offset))]. *)
Definition window (days_offset : Z) (i_date : timestamp) : option (list timestamp) :=
  start ← shift i_date (- days_offset);
  stop ← shift i_date days_offset;
  Some (date_range start stop).

Definition days_extend (actual_dates : dates_arg) (days_offset : Z)
  : option (gset string) :=
  let actual_dates :=
    match actual_dates with One s => [s] | Many l => l end in
  dates_dt ← mapM to_datetime actual_dates;
  all_dates ← mapM (window days_offset) dates_dt;
  let all_dates := strftime_Ymd <$> concat all_dates in
  Some (list_to_set all_dates).

(** [common / total * 100]; a zero [total] raises. *)
Definition percent (common total : nat) : option pyfloat :=
  if decide (total = 0) then None
  else Some (Num (Qcnat common / Qcnat total * QcZ 100)%Qc).

(** The two branches of [calculate_overlap] at one grid cell: [i] are the
    dates of the extremes of ERA5 there and [j] those of EOBS. *)
Definition overlap_same_day (i j : list string) : option pyfloat :=
  if decide (length j ≠ 0)
  then percent (size (list_to_set i ∩ list_to_set j : gset string)) (length i)
  else Some NaN.

Definition overlap_window (offset : Z) (i j : list string) : option pyfloat :=
  if decide (length j ≠ 0)
  then extended ← days_extend (Many j) offset;
       percent (size (list_to_set i ∩ extended)) (length i)
  else Some NaN.

(** [common_percent], over the grid cells of the two datasets. *)
Definition common_percent (offset : Z) (ERA5_Q EOBS_Q : list (list string))
  : option (list pyfloat) :=
  if decide (offset = 0%Z)
  then mapM (λ ij, overlap_same_day ij.1 ij.2) (zip ERA5_Q EOBS_Q)
  else mapM (λ ij, overlap_window offset ij.1 ij.2) (zip ERA5_Q EOBS_Q).

(** The general branch alone, at any offset. *)
Definition common_percent_general (offset : Z) (ERA5_Q EOBS_Q : list (list string))
  : option (list pyfloat) :=
  mapM (λ ij, overlap_window offset ij.1 ij.2) (zip ERA5_Q EOBS_Q).

(** [np.reshape(common_percent, Common.shape)] *)
Definition reshape_grid {A} (nlat nlon : nat) (flat : list A)
  : option (list (list A)) :=
  if decide (length flat = nlat * nlon) then Some (chunks nlon nlat flat)
  else None.

(** [calculate_overlap(input_data)], with the body of the two branches as
    a parameter; [input_data] is [(P_ERA5, P_EOBS, offset)]. *)
Definition calculate_overlap_with
    (common_percent : Z → list (list string) → list (list string)
                      → option (list pyfloat))
    (ERA5 EOBS : DataArray string) (input_data : Z * Z * Z)
  : option (list (list pyfloat) * list warning) :=
  let '(P_ERA5, P_EOBS, offset) := input_data in
  ERA5_Q ← dates_extreme ERA5 (QcZ P_ERA5 / QcZ 100)%Qc;
  EOBS_Q ← dates_extreme EOBS (QcZ P_EOBS / QcZ 100)%Qc;
  Common ← values ERA5 !! 0;
  common_percent ← common_percent offset ERA5_Q.1 EOBS_Q.1;
  Common_values ← reshape_grid (nlat ERA5) (nlon ERA5) common_percent;
  Some (Common_values, ERA5_Q.2 ++ EOBS_Q.2).

Definition calculate_overlap := calculate_overlap_with common_percent.

(** The same with the general branch at every offset. *)
Definition calculate_overlap_general :=
  calculate_overlap_with common_percent_general.

(** A string in the format of the time coordinates. *)
Definition date_string (s : string) : Prop := is_Some (to_datetime s).

(** The time coordinates of the fields are written by [strftime] with the
    format [%Y%m%d]; every such label is a date string. *)
Lemma strftime_date_string (ts : list timestamp) :
  Forall (λ t, in_bounds t = true) ts →
  Forall date_string (strftime_Ymd <$> ts).
Proof.
  intros Hts. apply Forall_fmap. eapply Forall_impl; [exact Hts|].
  intros t Ht. unfold date_string. simpl.
  rewrite to_datetime_strftime by done. by eexists.
Qed.

Lemma window_zero (t : timestamp) :
  in_bounds t = true → window 0%Z t = Some [t].
Proof.
  intros Ht. unfold window, shift.
  replace (t + - 0)%Z with t by lia. replace (t + 0)%Z with t by lia.
  rewrite Ht. simpl. unfold date_range.
  by replace (t - t + 1)%Z with 1%Z by lia.
Qed.

Lemma to_datetime_in_bounds (s : string) (t : timestamp) :
  to_datetime s = Some t → in_bounds t = true.
Proof.
  unfold to_datetime.
  destruct (mapM digit_of (String.list_ascii_of_string s)) as [ds|]; [|done].
  destruct ds as [|y1 [|y2 [|y3 [|y4 [|m1 [|m2 [|d1 [|d2 [|? ?]]]]]]]]]; try done.
  case_match eqn:Hok; [|done]. intros [= <-].
  by apply andb_true_iff in Hok as [_ ?].
Qed.

Lemma days_extend_zero_list (j : list string) :
  Forall date_string j →
  ∃ ts, mapM to_datetime j = Some ts
    ∧ mapM (window 0%Z) ts = Some ((λ t, [t]) <$> ts)
    ∧ strftime_Ymd <$> ts = j.
Proof.
  induction 1 as [|s j [t Ht] _ (ts & Hts & Hw & Hs)].
  { by exists []. }
  exists (t :: ts). rewrite !Download.mapM_cons, Ht, Hts. simpl.
  rewrite (window_zero t) by by eapply to_datetime_in_bounds.
  rewrite Hw. simpl. split_and!; [done|done|].
  f_equal; [by apply strftime_to_datetime|exact Hs].
Qed.

Lemma concat_singletons {A} (l : list A) : concat ((λ x, [x]) <$> l) = l.
Proof. induction l as [|x l IH]; [done|]. simpl. f_equal. exact IH. Qed.

(** With no offset the window of a list of dates is the set of the dates. *)
Lemma days_extend_zero (j : list string) :
  Forall date_string j → days_extend (Many j) 0%Z = Some (list_to_set j).
Proof.
  intros (ts & Hts & Hw & Hs)%days_extend_zero_list.
  unfold days_extend. rewrite Hts. simpl. rewrite Hw. simpl.
  by rewrite concat_singletons, Hs.
Qed.

Lemma overlap_window_zero (i j : list string) :
  Forall date_string j → overlap_window 0%Z i j = overlap_same_day i j.
Proof.
  intros Hj. unfold overlap_window, overlap_same_day.
  case_decide; [|done]. by rewrite days_extend_zero.
Qed.

Lemma common_percent_zero (ERA5_Q EOBS_Q : list (list string)) :
  Forall (Forall date_string) EOBS_Q →
  common_percent 0%Z ERA5_Q EOBS_Q = common_percent_general 0%Z ERA5_Q EOBS_Q.
Proof.
  intros Hdates.
  unfold common_percent, common_percent_general. rewrite decide_True by done.
  apply Download.mapM_ext_elem. intros [i j] Hij. simpl.
  symmetry. apply overlap_window_zero.
  rewrite Forall_forall in Hdates. apply Hdates.
  by apply elem_of_zip_r in Hij.
Qed.

(** The dates that [dates_extreme] lists are time coordinates. *)
Lemma dates_extreme_dates (ds : DataArray string) (q : Qc)
    (DaysExceed : list (list string)) (shown : list warning) :
  dates_extreme ds q = Some (DaysExceed, shown) →
  Forall (Forall (λ d, d ∈ time ds)) DaysExceed.
Proof.
  unfold dates_extreme. intros Hde.
  destruct (quantile_time ds q) as [Q|]; [|done]. simpl in Hde.
  destruct (catch_warnings_ignore RuntimeWarning Q) as [Q_thres w].
  destruct (reshape_rows _ _) as [df|]; [|done]. simpl in Hde.
  case_decide; [|done].
  destruct (mapM _ df) as [QuantExceed|]; [|done]. simpl in Hde.
  injection Hde as <- <-.
  apply Forall_fmap, Forall_forall. intros c _. simpl.
  apply Forall_forall. intros d Hd. unfold exceedance_days in Hd.
  apply list_elem_of_omap in Hd as ([d' row] & Hin & Hsome).
  simpl in Hsome. case_match; [|done]. injection Hsome as ->.
  by apply elem_of_zip_l in Hin.
Qed.

(** C10: for a list [j] of date strings (in the format of the time
    coordinates, [%Y%m%d]) [days_extend(j, 0)] is the set of the dates of
    [j]; hence at each grid cell the branch of [calculate_overlap] for
    [offset == 0] gives what the general branch gives at offset 0, and so
    does the whole function on datasets whose time coordinates are such
    strings. *)
Theorem same_day_branch_is_general_branch (j : list string)
    (ERA5 EOBS : DataArray string) (P_ERA5 P_EOBS : Z) :
  Forall date_string j → Forall date_string (time EOBS) →
  days_extend (Many j) 0%Z = Some (list_to_set j)
  ∧ (∀ i, overlap_same_day i j = overlap_window 0%Z i j)
  ∧ calculate_overlap ERA5 EOBS (P_ERA5, P_EOBS, 0%Z)
    = calculate_overlap_general ERA5 EOBS (P_ERA5, P_EOBS, 0%Z).
Proof.
  intros Hj Htime. split_and!.
  - by apply days_extend_zero.
  - intros i. symmetry. by apply overlap_window_zero.
  - unfold calculate_overlap, calculate_overlap_general, calculate_overlap_with.
    destruct (dates_extreme ERA5 _) as [[ERA5_Q w1]|]; [|done].
    destruct (dates_extreme EOBS _) as [[EOBS_Q w2]|] eqn:HEOBS; [|done].
    cbn [mbind option_bind fst snd].
    destruct (values ERA5 !! 0); [|done]. cbn [mbind option_bind].
    rewrite common_percent_zero; [done|].
    apply dates_extreme_dates in HEOBS.
    eapply Forall_impl; [exact HEOBS|]. intros days Hdays.
    eapply Forall_impl; [exact Hdays|]. intros d Hd.
    rewrite Forall_forall in Htime. by apply Htime.
Qed.

Local Open Scope string_scope.

Example days_extend_one_day :
  days_extend (One "20200229") 1%Z
  = Some (list_to_set ["20200228"; "20200229"; "20200301"]).
Proof. vm_compute. reflexivity. Qed.

Example overlap_example :
  common_percent 1%Z [["20200101"; "20200301"]; ["20200101"]] [["20200229"]; []]
  = Some [Num (QcZ 50); NaN].
Proof.
  vm_compute. apply (f_equal (λ q, Some [Num q; NaN])).
  by apply Qc_is_canon.
Qed.

Lemma same_day_branch_is_general_branch_witness :
  calculate_overlap example_field example_field (50, 50, 0)%Z
  = calculate_overlap_general example_field example_field (50, 50, 0)%Z.
Proof.
  assert (Hj : Forall date_string ["19790103"]).
  { repeat constructor. vm_compute. eauto. }
  assert (Htime : Forall date_string (time example_field)).
  { repeat constructor; vm_compute; eauto. }
  exact (proj2 (proj2 (same_day_branch_is_general_branch ["19790103"]
                  example_field example_field 50 50 Hj Htime))).
Defined.

Example calculate_overlap_example :
  fst <$> calculate_overlap example_field example_field (50, 50, 1)%Z
  = Some [[Num (QcZ 100); NaN]].
Proof.
  vm_compute. apply (f_equal (λ q, Some [[Num q; NaN]])).
  by apply Qc_is_canon.
Qed.

End Overlap.

(** ** Climatological anomalies ([anomalies]) *)

Module Anomalies.
Import PyFloat Calendar Extremes.

(** [a - b] on floats. *)
Definition fsub (a b : pyfloat) : pyfloat :=
  match a, b with
  | Num x, Num y => Num (x - y)%Qc
  | _, _ => NaN
  end.

(** The mean of the numbers of a list, NaN when there is none. *)
Definition nanmean (xs : list pyfloat) : pyfloat :=
  match numbers xs with
  | [] => NaN
  | v :: vs => Num (foldr Qcplus 0%Qc (v :: vs) / Qcnat (length (v :: vs)))%Qc
  end.

Abbreviation grid := (list (list pyfloat)).

(** A reduction over a list of grids, cell by cell. *)
Definition reduce_cells (f : list pyfloat → pyfloat) (nlat nlon : nat)
    (grids : list grid) : grid :=
  (λ la, (λ lo, f (omap (λ g, cell g la lo) grids)) <$> seq 0 nlon) <$> seq 0 nlat.

(** The positions of the time axis with a property, and the grids there. *)
Definition positions (P : nat → Prop) `{!∀ t, Decision (P t)} (n : nat) : list nat :=
  filter P (seq 0 n).

Definition grids_at (values : list grid) (ts : list nat) : list grid :=
  omap (λ t, values !! t) ts.

(** The steps of the window of [t]: two before to two after, cut at the
    ends of the axis. *)
Definition in_window (t u : nat) : Prop := t ≤ u + 2 ∧ u ≤ t + 2.

#[global] Instance in_window_dec t u : Decision (in_window t u).
Proof. unfold in_window. apply _. Defined.

Section time_axis.
Context {T : Type}.

(** [a.rolling(time=5, center=True, min_periods=1).mean()] *)
Definition rolling_mean (a : DataArray T) : DataArray T :=
  let n := length (values a) in
  mkDataArray (time a) (nlat a) (nlon a)
    ((λ t, reduce_cells nanmean (nlat a) (nlon a)
             (grids_at (values a) (positions (in_window t) n)))
       <$> seq 0 n).

(** [a.assign_coords({'time': coords})]; the sizes have to agree. *)
Definition assign_coords {T'} (a : DataArray T) (coords : list T')
  : option (DataArray T') :=
  if decide (length coords = length (values a))
  then Some (mkDataArray coords (nlat a) (nlon a) (values a)) else None.

End time_axis.

(** [a.groupby('time').mean()]: one grid per label, the labels sorted. *)
Definition groupby_mean (a : DataArray string) : DataArray string :=
  let labels := merge_sort String.le (remove_dups (time a)) in
  mkDataArray labels (nlat a) (nlon a)
    ((λ l, reduce_cells nanmean (nlat a) (nlon a)
             (grids_at (values a)
                (positions (λ s, time a !! s = Some l) (length (values a)))))
       <$> labels).

(** [b.sel(time=l)] *)
Definition sel (b : DataArray string) (l : string) : option grid :=
  i ← list_find (λ l', l' = l) (time b); values b !! i.1.

Definition grid_sub (g c : grid) : grid := zip_with (zip_with fsub) g c.

(** [a.groupby('time') - b]: from each step the grid of [b] for the label of
    the step, the steps kept in their order. *)
Definition groupby_sub (a b : DataArray string) : option (DataArray string) :=
  values ← mapM (λ lg, c ← sel b lg.1; Some (grid_sub lg.2 c))
                (zip (time a) (values a));
  Some (mkDataArray (time a) (nlat a) (nlon a) values).

Section anomalies.
(** The daily field of a variable, read from its file (or computed from the
    files of other variables) and cut to the area of interest. *)
Context (read_daily : string → DataArray timestamp).

Definition anomalies (variable : string) : option (DataArray timestamp) :=
  let Daily := read_daily variable in
  let actual_days := time Daily in
  let dates_grouped := strftime_md <$> time Daily in
  let Smoothed := rolling_mean Daily in
  Daily ← assign_coords Daily dates_grouped;
  Smoothed ← assign_coords Smoothed dates_grouped;
  let Climatology := groupby_mean Smoothed in
  Anomalies ← groupby_sub Daily Climatology;
  assign_coords Anomalies actual_days.

End anomalies.

(** *** Cells of reduced grids *)

Lemma omap_cons {A B} (f : A → option B) (x : A) (l : list A) :
  omap f (x :: l)
  = match f x with Some y => y :: omap f l | None => omap f l end.
Proof. reflexivity. Qed.


Lemma omap_ext_elem {A B} (f g : A → option B) (l : list A) :
  (∀ x, x ∈ l → f x = g x) → omap f l = omap g l.
Proof.
  induction l as [|x l IH]; intros Hfg; [done|]. rewrite !omap_cons.
  rewrite (Hfg x) by left.
  by rewrite IH by (intros y Hy; apply Hfg; by right).
Qed.





(** *** The quantities of the definition of an anomaly *)

Section climatology.
Context (Daily : DataArray timestamp).



Lemma cell_at3 (values : list grid) (t la lo : nat) :
  at3 values t la lo = (g ← values !! t; cell g la lo).
Proof. done. Qed.





End climatology.

(** *** The anomalies *)


Section anomalies_facts.
Context (read_daily : string → DataArray timestamp).




End anomalies_facts.

(** *** Two years of three days, one cell *)

Definition example_daily : DataArray timestamp :=
  mkDataArray [18261; 18262; 18263; 18627; 18628; 18629]%Z 1 1
    [ [[Num (QcZ 1)]]; [[Num (QcZ 2)]]; [[Num (QcZ 6)]];
      [[Num (QcZ 10)]]; [[Num (QcZ 20)]]; [[Num (QcZ 60)]] ].

Example example_daily_labels :
  strftime_md <$> time example_daily
  = ["1231"; "0101"; "0102"; "1231"; "0101"; "0102"]%string.
Proof. reflexivity. Qed.

(** The window of the first day has three days, [(1 + 2 + 6) / 3 = 3]; the
    one of the 31st of December a year later has five, [98 / 5]; the
    climatology of that day is their mean, [113 / 10], and the anomaly of
    the first day [1 - 113 / 10]. *)
Example anomalies_example :
  (λ a, at3 (values a) 0 0 0) <$> anomalies (λ _, example_daily) "SLP"
  = Some (Some (Num (lit (-103) 10))).
Proof.
  vm_compute. apply (f_equal (λ q, Some (Some (Num q)))).
  by apply Qc_is_canon.
Qed.


End Anomalies.

(** ** Ratios of counts *)

Module Ratios.
Import PyFloat Transition.

Lemma Qcnat_le (a b : nat) : a ≤ b → (Qcnat a ≤ Qcnat b)%Qc.
Proof. intros Hab. unfold Qcnat. apply (proj1 (Z2Qc_inj_le _ _)). lia. Qed.

Lemma Qcnat_pos (a : nat) : 0 < a → (0 < Qcnat a)%Qc.
Proof.
  intros Ha. unfold Qcnat. rewrite <-Z2Qc_inj_0.
  apply (proj1 (Z2Qc_inj_lt _ _)). lia.
Qed.

(** A ratio of two counts, the first no larger than the second. *)
Lemma ratio_bounds (c s : nat) :
  c ≤ s → 0 < s → (0 ≤ Qcnat c / Qcnat s ≤ 1)%Qc.
Proof.
  intros Hle Hs.
  assert (0 ≤ / Qcnat s)%Qc as Hinv.
  { apply Qclt_le_weak, Qcinv_pos. by apply Qcnat_pos. }
  unfold Qcdiv. split.
  - rewrite <-(Qcmult_0_l (/ Qcnat s)).
    apply Qcmult_le_compat_r; [|done].
    rewrite <-Qcnat_0. apply Qcnat_le. lia.
  - rewrite <-(Qcmult_inv_r (Qcnat s)) by (apply Qcnat_nonzero; lia).
    apply Qcmult_le_compat_r; [|done]. by apply Qcnat_le.
Qed.

Lemma ratio_mono (a b s : nat) :
  a ≤ b → 0 < s → (Qcnat a / Qcnat s ≤ Qcnat b / Qcnat s)%Qc.
Proof.
  intros Hab Hs. unfold Qcdiv. apply Qcmult_le_compat_r; [by apply Qcnat_le|].
  apply Qclt_le_weak, Qcinv_pos. by apply Qcnat_pos.
Qed.

End Ratios.

(** ** The transition matrix at other leads *)

Module Leads.
Import PyFloat Transition Ratios.



Section leads.
Context `{Countable State} (le : relation State) `{!RelDecision le}.


(** The pairs of a sequence with itself. *)
Lemma transitions_between_self (d : list State) (a b : State) :
  transitions_between d 0 a b
  = if decide (a = b) then transitions_from d 0 a else 0.
Proof.
  unfold transitions_between, transitions_from. case_decide as Hab.
  - subst b. f_equal. apply filter_ext_elem. intros t _.
    rewrite Nat.add_0_r. split; [intros [Ha _]|intros [Ha _]]; rewrite Ha; eauto.
  - rewrite filter_none; [done|]. intros t _ [Ha Hb].
    rewrite Nat.add_0_r in Hb. congruence.
Qed.

Lemma transitions_from_self (d : list State) (a : State) :
  a ∈ d → 0 < transitions_from d 0 a.
Proof.
  intros [t Ht]%list_elem_of_lookup. unfold transitions_from.
  assert (t ∈ filter (λ t, d !! t = Some a ∧ is_Some (d !! (t + 0)))
                     (seq 0 (length d))) as Hin.
  { apply list_elem_of_filter. split.
    - rewrite Nat.add_0_r. eauto.
    - apply elem_of_seq. apply lookup_lt_Some in Ht. lia. }
  destruct (filter _ _); [by apply not_elem_of_nil in Hin|simpl; lia].
Qed.

(** X2: at lead 0 every state is paired with itself, and the matrix is the
    identity: 1 on the diagonal and 0 elsewhere, one row per state. *)
Theorem lead_zero_identity (data : input State) :
  ∃ M, transition_matrix le data 0 = Some M
    ∧ index M = unique_states le (data_used data)
    ∧ length (values M) = length (index M)
    ∧ ∀ i j, i < length (index M) → j < length (index M) →
        values M !! i ≫= (.!! j) = Some (if decide (i = j) then 1%Qc else 0%Qc).
Proof.
  eexists. split; [apply transition_matrix_eq|]. cbn [values index columns].
  set (d := data_used data). set (us := unique_states le d).
  split; [done|]. split; [by rewrite length_fmap, length_table|].
  intros i j Hi Hj.
  destruct (lookup_lt_is_Some_2 us i Hi) as [a Ha].
  destruct (lookup_lt_is_Some_2 us j Hj) as [b Hb].
  assert (Hslice : py_slice_from 0 (numbered le d) = drop 0 (numbered le d)).
  { done. }
  rewrite Hslice.
  rewrite list_lookup_fmap, table_lookup by done. cbn [fmap option_fmap option_map mbind option_bind].
  set (row := (λ j, pairs_equal i j _) <$> seq 0 (length us)).
  assert (Hsum : sum_list row = transitions_from d 0 a).
  { unfold row. rewrite sum_pairs_equal.
    - by apply pairs_from_positions.
    - rewrite <-Hslice. apply pairs_in_range. }
  rewrite (normalise_row_lookup row j (transitions_between d 0 a b)).
  2:{ unfold row. rewrite list_lookup_fmap, lookup_seq_lt by done. simpl.
      f_equal. by apply pairs_equal_positions. }
  f_equal. rewrite Hsum.
  assert (a ∈ d) as Hin.
  { apply (elem_of_unique_states le). apply list_elem_of_lookup. eauto. }
  pose proof (transitions_from_self d a Hin) as Hpos.
  rewrite decide_False by lia.
  rewrite transitions_between_self.
  assert (i = j ↔ a = b) as Hij.
  { split; [intros ->; congruence|intros ->].
    eapply NoDup_lookup; [apply (NoDup_unique_states le d)|done|done]. }
  destruct (decide (i = j)) as [Heq|Hne].
  - rewrite decide_True by by apply Hij.
    unfold Qcdiv. apply Qcmult_inv_r, Qcnat_nonzero. done.
  - rewrite decide_False by (intros ?; by apply Hne, Hij).
    rewrite Qcnat_0. unfold Qcdiv. ring.
Qed.

(** X3: a lead as long as the data or longer pairs nothing: the matrix is
    all zeros (and it has no row at all for empty data). *)
Theorem long_lead_zero (data : input State) (lead : Z) :
  (Z.of_nat (length (data_used data)) ≤ lead)%Z →
  ∃ M, transition_matrix le data lead = Some M
    ∧ index M = unique_states le (data_used data)
    ∧ length (values M) = length (index M)
    ∧ Forall (λ row, length row = length (columns M)
                     ∧ Forall (λ q, q = 0%Qc) row) (values M).
Proof.
  intros Hlead.
  eexists. split; [apply transition_matrix_eq|]. cbn [values index columns].
  set (d := data_used data). set (us := unique_states le d).
  split; [done|]. split; [by rewrite length_fmap, length_table|].
  assert (Hslice : py_slice_from lead (numbered le d) = []).
  { unfold py_slice_from. rewrite decide_True by lia.
    apply drop_ge. rewrite length_numbered. fold d in Hlead. lia. }
  rewrite Hslice.
  apply Forall_fmap, Forall_forall. intros row Hrow. cbn.
  apply list_elem_of_fmap in Hrow as (i & -> & _).
  split.
  - by rewrite normalise_row_length, length_fmap, length_seq.
  - apply normalise_row_zeros.
    rewrite sum_list_fmap_same with (n := 0); [lia|].
    apply Forall_forall. intros j _. unfold pairs_equal.
    by destruct (numbered le d).
Qed.

(** X4: a negative lead does not look backwards.  [data[-k:]] is the last
    [k] states, so for [1 ≤ k ≤ len(data)] the lead [-k] pairs the first
    [k] states with the last [k] ones, which is what the lead
    [len(data) - k] does. *)
Theorem negative_lead_wraps (data : input State) (k : nat) :
  1 ≤ k ≤ length (data_used data) →
  transition_matrix le data (- Z.of_nat k)
  = transition_matrix le data (Z.of_nat (length (data_used data) - k)).
Proof.
  intros Hk. rewrite !transition_matrix_eq. cbn zeta.
  set (d := data_used data) in *.
  assert (py_slice_from (- Z.of_nat k) (numbered le d)
          = py_slice_from (Z.of_nat (length d - k)) (numbered le d)) as ->; [|done].
  unfold py_slice_from.
  rewrite decide_False by lia. rewrite decide_True by lia.
  rewrite length_numbered. f_equal. lia.
Qed.

End leads.

Example lead_zero_example :
  transition_matrix Z.le (Vector [3; 1; 1; 2; 3; 1]%Z) 0
  = Some (mkDataFrame [1; 2; 3]%Z [1; 2; 3]%Z
      [ [lit 1 1; lit 0 1; lit 0 1];
        [lit 0 1; lit 1 1; lit 0 1];
        [lit 0 1; lit 0 1; lit 1 1] ]).
Proof.
  rewrite transition_matrix_eq. vm_compute.
  repeat (f_equal; try (apply Qc_is_canon; reflexivity)).
Qed.

(** The lead -2 on six states pairs the first two with the last two:
    3 with 3 and 1 with 1. *)
Example negative_lead_example :
  transition_matrix Z.le (Vector [3; 1; 1; 2; 3; 1]%Z) (-2)
  = Some (mkDataFrame [1; 2; 3]%Z [1; 2; 3]%Z
      [ [lit 1 1; lit 0 1; lit 0 1];
        [lit 0 1; lit 0 1; lit 0 1];
        [lit 0 1; lit 0 1; lit 1 1] ]).
Proof.
  rewrite transition_matrix_eq. vm_compute.
  repeat (f_equal; try (apply Qc_is_canon; reflexivity)).
Qed.

Lemma long_lead_zero_witness :
  (Z.of_nat (length (data_used (Vector [3; 1; 1]%Z))) ≤ 3)%Z
  ∧ ∃ M, transition_matrix Z.le (Vector [3; 1; 1]%Z) 3 = Some M
      ∧ index M = [1; 3]%Z.
Proof.
  assert (Hlead : (Z.of_nat (length (data_used (Vector [3; 1; 1]%Z))) ≤ 3)%Z)
    by (simpl; lia).
  split; [exact Hlead|].
  destruct (long_lead_zero Z.le (Vector [3; 1; 1]%Z) 3 Hlead)
    as (M & HM & Hindex & _).
  exists M. split; [exact HM|]. rewrite Hindex. reflexivity.
Defined.

Lemma negative_lead_wraps_witness :
  1 ≤ 2 ≤ length (data_used (Vector [3; 1; 1]%Z))
  ∧ transition_matrix Z.le (Vector [3; 1; 1]%Z) (- Z.of_nat 2)
    = transition_matrix Z.le (Vector [3; 1; 1]%Z)
        (Z.of_nat (length (data_used (Vector [3; 1; 1]%Z)) - 2)).
Proof.
  assert (Hk : 1 ≤ 2 ≤ length (data_used (Vector [3; 1; 1]%Z))) by (simpl; lia).
  split; [exact Hk|].
  exact (negative_lead_wraps Z.le (Vector [3; 1; 1]%Z) 2 Hk).
Defined.

End Leads.

(** ** How many days are extreme, and in which order *)

Module Exceedance.
Import PyFloat Transition Ratios Extremes.

(** *** The floor of a rational *)

Lemma Qcfloor_le (x : Qc) : (QcZ (Qcfloor x) ≤ x)%Qc.
Proof.
  unfold Qcle, Qle, QcZ, Qcfloor. simpl.
  rewrite Z.mul_1_r, Z.mul_comm. apply Z.mul_div_le. done.
Qed.

Lemma Qcfloor_nonneg (x : Qc) : (0 ≤ x)%Qc → (0 ≤ Qcfloor x)%Z.
Proof.
  unfold Qcle, Qle, Qcfloor. simpl. rewrite Z.mul_1_r. intros Hx.
  by apply Z.div_pos.
Qed.

Lemma Qcfloor_QcZ (z : Z) : Qcfloor (QcZ z) = z.
Proof. unfold Qcfloor, QcZ. simpl. apply Z.div_1_r. Qed.

(** *** The quantile is not below the value at its lower position *)

Lemma sorted_lookup_le (a : list Qc) (i j : nat) (x y : Qc) :
  Sorted Qcle a → a !! i = Some x → a !! j = Some y → i ≤ j → (x ≤ y)%Qc.
Proof.
  intros Hs%(Sorted_StronglySorted _). revert i j.
  induction Hs as [|z a Hs IH Hz]; intros i j Hi Hj Hij; [done|].
  destruct i as [|i], j as [|j]; simpl in *; try lia.
  - by simplify_eq.
  - injection Hi as ->. rewrite Forall_forall in Hz. apply Hz.
    apply list_elem_of_lookup. eauto.
  - apply (IH i j); [done|done|lia].
Qed.

Lemma interpolate_Some (q : Qc) (a : list Qc) (T : Qc) :
  (0 ≤ q)%Qc → Sorted Qcle a → interpolate q a = Some T →
  ∃ x, a !! Z.to_nat (Qcfloor (q * Qcnat (length a - 1))) = Some x ∧ (x ≤ T)%Qc.
Proof.
  intros Hq Hs. unfold interpolate. cbv zeta.
  set (h := (q * Qcnat (length a - 1))%Qc).
  set (lo := Z.to_nat (Qcfloor h)).
  destruct (a !! lo) as [x|] eqn:Hx; [|done]. cbn [mbind option_bind].
  destruct (a !! ((lo + 1) `min` (length a - 1))) as [y|] eqn:Hy; [|done].
  cbn [mbind option_bind].
  intros [= <-]. exists x. split; [done|].
  assert (x ≤ y)%Qc as Hxy.
  { apply (sorted_lookup_le a lo ((lo + 1) `min` (length a - 1)) x y); try done.
    apply lookup_lt_Some in Hx. lia. }
  rewrite <-(Qcplus_0_r x) at 1. apply Qcplus_le_mono_l.
  apply Qcmult_nonneg_nonneg.
  - apply Qcle_minus_iff in Hxy. by unfold Qcminus.
  - pose proof (Qcfloor_le h) as Hfl. apply Qcle_minus_iff in Hfl. by unfold Qcminus.
Qed.

(** In a sorted list the values strictly above the one at position [lo]
    all come after that position. *)
Lemma sorted_count_above (a : list Qc) (lo : nat) (x T : Qc) :
  Sorted Qcle a → a !! lo = Some x → (x ≤ T)%Qc →
  length (filter (λ y, (T < y)%Qc) a) ≤ length a - S lo.
Proof.
  intros Hs Hx HT. rewrite <-(take_drop (S lo) a) at 1.
  rewrite filter_app, length_app.
  rewrite (filter_none _ (take (S lo) a)).
  - simpl. etrans; [apply length_filter|]. by rewrite length_drop.
  - intros y Hy. apply list_elem_of_lookup in Hy as [i Hi].
    apply lookup_take_Some in Hi as [Hi Hlt].
    apply Qcle_not_lt. etrans; [|exact HT].
    apply (sorted_lookup_le a i lo y x); [done|done|done|lia].
Qed.

(** *** Counting the steps above the threshold *)

Lemma length_days_above (la lo : nat) (thr : pyfloat)
    (tm : list string) (vals : list (list (list pyfloat))) :
  length tm = length vals →
  length (omap (λ dg : string * list (list pyfloat),
                  v ← cell dg.2 la lo;
                  if fgt v thr then Some dg.1 else None) (zip tm vals))
  = length (filter (λ v, fgt v thr = true)
              (omap (λ grid, cell grid la lo) vals)).
Proof.
  revert tm. induction vals as [|g vals IH]; intros [|d tm] Hlen; try done.
  cbn [zip_with]. rewrite !Anomalies.omap_cons. cbn [fst snd].
  injection Hlen as Hlen.
  destruct (cell g la lo) as [v|]; cbn [mbind option_bind]; [|by apply IH].
  rewrite filter_cons. destruct (fgt v thr); simpl; rewrite IH; done.
Qed.

Lemma length_above_numbers (T : Qc) (xs : list pyfloat) :
  length (filter (λ v, fgt v (Num T) = true) xs)
  = length (filter (λ y, (T < y)%Qc) (numbers xs)).
Proof.
  unfold numbers. induction xs as [|[|x] xs IH]; [done| |].
  - rewrite filter_cons_False by done. by rewrite Anomalies.omap_cons.
  - rewrite Anomalies.omap_cons, !filter_cons. simpl.
    destruct (decide (bool_decide (T < x)%Qc = true)) as [Hb|Hb].
    + apply bool_decide_eq_true in Hb. rewrite decide_True by done.
      simpl. by rewrite IH.
    + rewrite decide_False; [done|]. intros Hlt. apply Hb.
      by apply bool_decide_eq_true.
Qed.

Section count.
Context (ds : DataArray string) (q : Qc).

Lemma length_days_over (la lo : nat) :
  length (time ds) = length (values ds) →
  length (days_over ds q la lo)
  = length (filter (λ v, fgt v (threshold ds q la lo) = true) (series ds la lo)).
Proof. intros Hlen. unfold days_over, series. by apply length_days_above. Qed.

Lemma days_over_bound (la lo : nat) :
  length (time ds) = length (values ds) → (0 ≤ q)%Qc →
  let n := length (numbers (series ds la lo)) in
  length (days_over ds q la lo)
  ≤ n - 1 - Z.to_nat (Qcfloor (q * Qcnat (n - 1))).
Proof.
  intros Hlen Hq n. rewrite length_days_over by done.
  unfold threshold, nanquantile.
  set (a := merge_sort Qcle (numbers (series ds la lo))).
  assert (Ha : Sorted Qcle a) by (apply Sorted_merge_sort; apply _).
  assert (Hperm : a ≡ₚ numbers (series ds la lo)) by apply merge_sort_Permutation.
  destruct (interpolate q a) as [T|] eqn:HT; simpl.
  - rewrite length_above_numbers, <-Hperm.
    destruct (interpolate_Some q a T Hq Ha HT) as (x & Hx & HxT).
    pose proof (sorted_count_above a _ x T Ha Hx HxT) as Hcount.
    assert (length a = n) as Hn by (unfold n; by rewrite Hperm).
    rewrite Hn in Hcount, Hx. lia.
  - rewrite (filter_none _ (series ds la lo)); [simpl; lia|].
    intros v _. by rewrite fgt_nan_r.
Qed.

End count.

(** *** The order of the days *)



(** X6: in a cell with [n] values that are not missing, [dates_extreme]
    lists at most [n - 1 - floor(q * (n - 1))] days: the threshold is not
    below the value at position [floor(q * (n - 1))] of the sorted values,
    and only later positions can be strictly above it.  With the quantile
    1 no day is listed. *)
Theorem extreme_days_at_most (ds : DataArray string) (q : Qc) (la lo : nat) :
  well_shaped ds → time ds ≠ [] → (0 ≤ q ≤ 1)%Qc →
  la < nlat ds → lo < nlon ds →
  ∃ DaysExceed days,
    dates_extreme ds q = Some (DaysExceed, [])
    ∧ DaysExceed !! (la * nlon ds + lo) = Some days
    ∧ (let n := length (numbers (series ds la lo)) in
       length days ≤ n - 1 - Z.to_nat (Qcfloor (q * Qcnat (n - 1))))
    ∧ (q = 1%Qc → days = []).
Proof.
  intros Hwf Htime Hq Hla Hlo.
  destruct (dates_extreme_cell ds q la lo) as (DaysExceed & Hde & _ & Hcell);
    try done.
  exists DaysExceed, (days_over ds q la lo). split; [done|]. split; [done|].
  destruct Hwf as [Hlen _]. symmetry in Hlen.
  pose proof (days_over_bound ds q la lo Hlen (proj1 Hq)) as Hbound.
  split; [exact Hbound|].
  intros ->. apply nil_length_inv.
  cbv zeta in Hbound. rewrite Qcmult_1_l in Hbound.
  unfold Qcnat in Hbound. fold (QcZ (Z.of_nat
    (length (numbers (series ds la lo)) - 1))) in Hbound.
  rewrite Qcfloor_QcZ, Nat2Z.id in Hbound. lia.
Qed.

(** X7: a cell whose values that are not missing are all equal (a cell
    that stays dry, say) has no extreme day, at any quantile: no value is
    strictly above the threshold. *)
Theorem constant_cell_no_extreme (ds : DataArray string) (q : Qc)
    (la lo : nat) (c : Qc) :
  well_shaped ds → time ds ≠ [] → (0 ≤ q ≤ 1)%Qc →
  la < nlat ds → lo < nlon ds →
  (∀ grid v, grid ∈ values ds → cell grid la lo = Some v → v = NaN ∨ v = Num c) →
  ∃ DaysExceed,
    dates_extreme ds q = Some (DaysExceed, [])
    ∧ DaysExceed !! (la * nlon ds + lo) = Some [].
Proof.
  intros Hwf Htime Hq Hla Hlo Hconst.
  destruct (dates_extreme_cell ds q la lo) as (DaysExceed & Hde & _ & Hcell);
    try done.
  exists DaysExceed. split; [done|]. rewrite Hcell. f_equal.
  apply nil_length_inv.
  destruct Hwf as [Hlen _]. symmetry in Hlen.
  rewrite length_days_over by done.
  assert (Hseries : ∀ v, v ∈ series ds la lo → v = NaN ∨ v = Num c).
  { intros v Hv. unfold series in Hv.
    apply list_elem_of_omap in Hv as (grid & Hgrid & Hv). eauto. }
  rewrite filter_none; [done|]. intros v Hv.
  unfold threshold, nanquantile.
  set (a := merge_sort Qcle (numbers (series ds la lo))).
  destruct (interpolate q a) as [T|] eqn:HT; simpl; [|by rewrite fgt_nan_r].
  destruct (Hseries v Hv) as [->| ->]; [done|].
  assert (Ha : Sorted Qcle a) by (apply Sorted_merge_sort; apply _).
  destruct (interpolate_Some q a T (proj1 Hq) Ha HT) as (x & Hx & HxT).
  assert (x = c) as ->.
  { assert (x ∈ numbers (series ds la lo)) as Hin.
    { rewrite <-(merge_sort_Permutation Qcle). apply list_elem_of_lookup. eauto. }
    unfold numbers in Hin. apply list_elem_of_omap in Hin as (w & Hw & Hwx).
    destruct (Hseries w Hw) as [->| ->]; [done|]. by injection Hwx. }
  simpl. rewrite bool_decide_eq_true. by apply Qcle_not_lt.
Qed.


Lemma extreme_days_at_most_witness :
  ∃ DaysExceed days,
    dates_extreme example_field (lit 1 2) = Some (DaysExceed, [])
    ∧ DaysExceed !! 0 = Some days
    ∧ length days ≤ 1.
Proof.
  assert (Htime : time example_field ≠ []) by discriminate.
  assert (Hq : (0 ≤ lit 1 2 ≤ 1)%Qc) by done.
  assert (Hla : 0 < nlat example_field) by (simpl; lia).
  assert (Hlo : 0 < nlon example_field) by (simpl; lia).
  destruct (extreme_days_at_most example_field (lit 1 2) 0 0
              example_field_shaped Htime Hq Hla Hlo)
    as (DaysExceed & days & Hde & Hcell & Hbound & _).
  exists DaysExceed, days. split; [exact Hde|]. split; [exact Hcell|].
  exact Hbound.
Defined.

(** A field with a dry cell: the value never changes. *)
Definition dry_field : DataArray string :=
  mkDataArray ["19790102"; "19790103"; "19790104"]%string 1 1
    [ [[Num (QcZ 0)]]; [[NaN]]; [[Num (QcZ 0)]] ].

Lemma constant_cell_no_extreme_witness :
  ∃ DaysExceed,
    dates_extreme dry_field (lit 95 100) = Some (DaysExceed, [])
    ∧ DaysExceed !! 0 = Some [].
Proof.
  assert (Hwf : well_shaped dry_field).
  { split; [done|]. repeat constructor. }
  assert (Htime : time dry_field ≠ []) by discriminate.
  assert (Hq : (0 ≤ lit 95 100 ≤ 1)%Qc) by done.
  assert (Hla : 0 < nlat dry_field) by (simpl; lia).
  assert (Hlo : 0 < nlon dry_field) by (simpl; lia).
  assert (Hconst : ∀ grid v, grid ∈ values dry_field → cell grid 0 0 = Some v
                     → v = NaN ∨ v = Num (QcZ 0)).
  { intros grid v Hgrid. apply list_elem_of_In in Hgrid. simpl in Hgrid.
    destruct Hgrid as [<-|[<-|[<-|[]]]]; intros [= <-]; auto. }
  exact (constant_cell_no_extreme dry_field (lit 95 100) 0 0 (QcZ 0)
           Hwf Htime Hq Hla Hlo Hconst).
Defined.

End Exceedance.

(** ** Windows of days and the range of the overlap *)

Module Windows.
Import PyFloat Transition Ratios Digits Calendar Extremes Exceedance Overlap.
Local Open Scope Z_scope.

(** A date string whose window of [k] days either way can be built: the
    string is a date and the two ends of the window are timestamps. *)
Definition windowed (k : Z) (s : string) : Prop :=
  ∃ t, to_datetime s = Some t
    ∧ in_bounds (t - k) = true ∧ in_bounds (t + k) = true.

Lemma window_Some (k : Z) (t : timestamp) (w : list timestamp) :
  window k t = Some w
  ↔ in_bounds (t - k) = true ∧ in_bounds (t + k) = true
    ∧ w = seqZ (t - k) (2 * k + 1).
Proof.
  unfold window, shift, date_range.
  replace (t + - k)%Z with (t - k)%Z by lia.
  destruct (in_bounds (t - k)); simpl; [|naive_solver].
  destruct (in_bounds (t + k)); simpl; [|naive_solver].
  replace (t + k - (t - k) + 1)%Z with (2 * k + 1)%Z by lia.
  naive_solver.
Qed.

Lemma elem_of_window (k : Z) (t u : timestamp) :
  u ∈ seqZ (t - k) (2 * k + 1) ↔ (t - k ≤ u ≤ t + k)%Z.
Proof. rewrite elem_of_seqZ. lia. Qed.

(** The days of the windows of a list of timestamps. *)
Definition window_days (k : Z) (ts : list timestamp) : list timestamp :=
  concat ((λ t, seqZ (t - k) (2 * k + 1)) <$> ts).

Lemma elem_of_window_days (k : Z) (ts : list timestamp) (u : timestamp) :
  u ∈ window_days k ts ↔ ∃ t, t ∈ ts ∧ (t - k ≤ u ≤ t + k)%Z.
Proof.
  unfold window_days. rewrite list_elem_of_In, in_concat. split.
  - intros (w & Hw & Hu). apply list_elem_of_In, list_elem_of_fmap in Hw as (t & -> & Ht).
    exists t. split; [done|]. by apply elem_of_window, list_elem_of_In.
  - intros (t & Ht & Hu). exists (seqZ (t - k) (2 * k + 1)). split.
    + apply list_elem_of_In, list_elem_of_fmap. eauto.
    + by apply list_elem_of_In, elem_of_window.
Qed.

Lemma mapM_window (k : Z) (ts : list timestamp) (ws : list (list timestamp)) :
  mapM (window k) ts = Some ws
  ↔ Forall (λ t, in_bounds (t - k) = true ∧ in_bounds (t + k) = true) ts
    ∧ ws = (λ t, seqZ (t - k) (2 * k + 1)) <$> ts.
Proof.
  split.
  - intros Hws%mapM_Some_1.
    induction Hws as [|t w ts ws Hw _ [IH1 IH2]]; [done|].
    apply window_Some in Hw as (H1 & H2 & ->).
    split; [by constructor|]. by rewrite fmap_cons, IH2.
  - intros [Hts ->]. apply mapM_Some_2, Forall2_fmap_r, Forall_Forall2_diag.
    eapply Forall_impl; [exact Hts|]. intros t [H1 H2].
    by apply window_Some.
Qed.

(** What [days_extend] returns, and when. *)
Lemma days_extend_Some (j : list string) (k : Z) (S : gset string) :
  days_extend (Many j) k = Some S
  ↔ ∃ ts : list timestamp, mapM to_datetime j = Some ts
      ∧ Forall (λ t, in_bounds (t - k) = true ∧ in_bounds (t + k) = true) ts
      ∧ S = list_to_set (strftime_Ymd <$> window_days k ts).
Proof.
  unfold days_extend, window_days. cbv beta iota zeta.
  destruct (mapM to_datetime j) as [ts|]; cbn [mbind option_bind].
  2:{ split; [done|]. by intros (? & ? & _). }
  destruct (mapM (window k) ts) as [ws|] eqn:Hws; cbn [mbind option_bind].
  - apply mapM_window in Hws as [Hts ->]. split.
    + intros [= <-]. by exists ts.
    + by intros (ts' & [= <-] & _ & ->).
  - split; [done|]. intros (ts' & [= <-] & Hts & _).
    assert (mapM (window k) ts = Some ((λ t, seqZ (t - k) (2 * k + 1)) <$> ts)) as Hok.
    { by apply mapM_window. }
    congruence.
Qed.

Lemma days_extend_is_Some (j : list string) (k : Z) :
  is_Some (days_extend (Many j) k) ↔ Forall (windowed k) j.
Proof.
  split.
  - intros [S (ts & Hts & Hb & _)%days_extend_Some].
    apply mapM_Some_1 in Hts. revert Hb.
    induction Hts as [|s t j ts Hs _ IH]; intros Hb; [constructor|].
    apply Forall_cons in Hb as [[H1 H2] Hb].
    constructor; [by exists t|by apply IH].
  - intros Hj. 
    assert (∃ ts : list timestamp, mapM to_datetime j = Some ts
              ∧ Forall (λ t, in_bounds (t - k) = true ∧ in_bounds (t + k) = true) ts)
      as (ts & Hts & Hb).
    { induction Hj as [|s j (t & Ht & H1 & H2) _ (ts & Hts & Hb)].
      - by exists [].
      - exists (t :: ts). rewrite Download.mapM_cons, Ht, Hts. split; [done|].
        by constructor. }
    eexists. apply days_extend_Some. by exists ts.
Qed.

Lemma elem_of_days_extend (j : list string) (k : Z) (S : gset string) (d : string) :
  days_extend (Many j) k = Some S →
  d ∈ S ↔ ∃ s t u, s ∈ j ∧ to_datetime s = Some t
             ∧ (t - k ≤ u ≤ t + k)%Z ∧ d = strftime_Ymd u.
Proof.
  intros (ts & Hts & _ & ->)%days_extend_Some.
  rewrite elem_of_list_to_set, list_elem_of_fmap.
  apply mapM_Some_1 in Hts. split.
  - intros (u & -> & (t & Ht & Hu)%elem_of_window_days).
    apply list_elem_of_lookup in Ht as [n Hn].
    destruct (Forall2_lookup_r _ _ _ _ _ Hts Hn) as (s & Hs & Hst).
    exists s, t, u. split_and!; try done; try lia. apply list_elem_of_lookup. eauto.
  - intros (s & t & u & Hs & Hst & Hu & ->). exists u. split; [done|].
    apply elem_of_window_days. exists t. split; [|done].
    apply list_elem_of_lookup in Hs as [n Hn].
    destruct (Forall2_lookup_l _ _ _ _ _ Hts Hn) as (t' & Ht' & Hst').
    apply list_elem_of_lookup. exists n.
    rewrite Hst in Hst'. by injection Hst' as <-.
Qed.


(** *** The overlap at a grid cell *)

(** The set of EOBS days that [calculate_overlap] intersects with the ERA5
    days of the cell: the days themselves with no offset, their windows
    otherwise. *)
Definition matching_days (offset : Z) (j : list string) : option (gset string) :=
  if decide (offset = 0) then Some (list_to_set j) else days_extend (Many j) offset.

(** One element of the list [common_percent]. *)
Definition overlap_at (offset : Z) (i j : list string) : option pyfloat :=
  if decide (offset = 0) then overlap_same_day i j else overlap_window offset i j.

Lemma common_percent_cells (offset : Z) (ERA5_Q EOBS_Q : list (list string)) :
  common_percent offset ERA5_Q EOBS_Q
  = mapM (λ ij, overlap_at offset ij.1 ij.2) (zip ERA5_Q EOBS_Q).
Proof. unfold common_percent, overlap_at. by case_decide. Qed.

Lemma overlap_at_eq (offset : Z) (i j : list string) :
  overlap_at offset i j
  = if decide (j = []) then Some NaN
    else X ← matching_days offset j;
         percent (size (list_to_set i ∩ X)) (length i).
Proof.
  unfold overlap_at, matching_days, overlap_same_day, overlap_window.
  destruct j as [|s j]; simpl; [by case_decide|].
  by case_decide.
Qed.

Lemma size_list_to_set_le (l : list string) :
  (size (list_to_set l : gset string) ≤ length l)%nat.
Proof.
  induction l as [|x l IH].
  - rewrite list_to_set_nil, size_empty. done.
  - rewrite list_to_set_cons, size_union_alt, size_singleton. cbn [length].
    assert (size (list_to_set l ∖ {[x]} : gset string) ≤ size (list_to_set l : gset string))%nat.
    { apply subseteq_size. set_solver. }
    lia.
Qed.

Lemma size_common_le (i : list string) (X : gset string) :
  (size (list_to_set i ∩ X) ≤ length i)%nat.
Proof.
  etrans; [|apply size_list_to_set_le].
  apply subseteq_size. set_solver.
Qed.

Lemma percent_Some (common total : nat) (v : pyfloat) :
  percent common total = Some v
  ↔ total ≠ 0%nat ∧ v = Num (Qcnat common / Qcnat total * QcZ 100)%Qc.
Proof. unfold percent. case_decide; naive_solver. Qed.

Lemma percent_bounds (common total : nat) :
  (common ≤ total)%nat → (0 < total)%nat →
  (0 ≤ Qcnat common / Qcnat total * QcZ 100 ≤ QcZ 100)%Qc.
Proof.
  intros Hle Hpos. destruct (ratio_bounds common total Hle Hpos) as [H0 H1].
  assert (0 ≤ QcZ 100)%Qc as H100 by done.
  split.
  - rewrite <-(Qcmult_0_l (QcZ 100)). by apply Qcmult_le_compat_r.
  - rewrite <-(Qcmult_1_l (QcZ 100)) at 2. by apply Qcmult_le_compat_r.
Qed.

(** The days that match grow with the offset. *)
Lemma matching_days_mono (k k' : Z) (j : list string) (X X' : gset string) :
  k ≤ k' → matching_days k j = Some X → matching_days k' j = Some X' → X ⊆ X'.
Proof.
  unfold matching_days. intros Hk HX HX' d Hd.
  destruct (decide (k = 0)) as [->|Hk0], (decide (k' = 0)) as [->|Hk0'].
  - congruence.
  - injection HX as <-. apply elem_of_list_to_set in Hd.
    apply (elem_of_days_extend _ _ _ d HX').
    assert (windowed k' d) as (t & Ht & _).
    { assert (Forall (windowed k') j) as Hj by (apply days_extend_is_Some; eauto).
      rewrite Forall_forall in Hj. by apply Hj. }
    exists d, t, t. split_and!; [done|done|lia|lia|].
    symmetry. by apply strftime_to_datetime.
  - injection HX' as <-.
    apply (elem_of_days_extend _ _ _ d HX) in Hd as (s & t & u & _ & _ & Hu & _). lia.
  - apply (elem_of_days_extend _ _ _ d HX) in Hd as (s & t & u & Hs & Ht & Hu & ->).
    apply (elem_of_days_extend _ _ _ _ HX').
    exists s, t, u. split_and!; try done; lia.
Qed.

(** X9: every element of [common_percent] is NaN, when the EOBS cell has no
    extreme day, or else a percentage between 0 and 100 (of the ERA5 days
    of the cell); the list has one element per pair of cells. *)
Theorem overlap_is_percentage (offset : Z) (ERA5_Q EOBS_Q : list (list string))
    (common : list pyfloat) :
  common_percent offset ERA5_Q EOBS_Q = Some common →
  length common = (length ERA5_Q `min` length EOBS_Q)%nat
  ∧ ∀ c v, common !! c = Some v →
      ∃ i j, ERA5_Q !! c = Some i ∧ EOBS_Q !! c = Some j
        ∧ (v = NaN ↔ j = [])
        ∧ ∀ p, v = Num p → (0 ≤ p ≤ QcZ 100)%Qc.
Proof.
  rewrite common_percent_cells. intros Hc.
  pose proof (length_mapM _ _ _ Hc) as Hlen. rewrite length_zip in Hlen.
  split; [done|]. intros c v Hv.
  apply mapM_Some_1 in Hc.
  destruct (Forall2_lookup_r _ _ _ _ _ Hc Hv) as ([i j] & Hij & Hov).
  apply lookup_zip_with_Some in Hij as (i' & j' & [= <- <-] & Hi & Hj).
  exists i, j. split; [done|]. split; [done|].
  simpl in Hov. rewrite overlap_at_eq in Hov.
  case_decide as Hempty.
  { injection Hov as <-. split; [done|]. by intros p. }
  destruct (matching_days offset j) as [X|]; [|done]. simpl in Hov.
  apply percent_Some in Hov as [Htotal ->]. split.
  - split; [done|]. intros ->. done.
  - intros p [= <-]. apply percent_bounds; [apply size_common_le|lia].
Qed.


(** X11: a wider window never lowers the overlap: where [common_percent]
    gives a number for the offset [k] and for a larger offset [k'], the
    second number is at least the first (the offset 0 of the fast branch
    included). *)
Theorem wider_window_more_overlap (k k' : Z) (ERA5_Q EOBS_Q : list (list string))
    (common common' : list pyfloat) (c : nat) (p p' : Qc) :
  k ≤ k' →
  common_percent k ERA5_Q EOBS_Q = Some common →
  common_percent k' ERA5_Q EOBS_Q = Some common' →
  common !! c = Some (Num p) → common' !! c = Some (Num p') →
  (p ≤ p')%Qc.
Proof.
  rewrite !common_percent_cells. intros Hk Hc Hc' Hp Hp'.
  apply mapM_Some_1 in Hc, Hc'.
  destruct (Forall2_lookup_r _ _ _ _ _ Hc Hp) as ([i j] & Hij & Hov).
  destruct (Forall2_lookup_r _ _ _ _ _ Hc' Hp') as ([i' j'] & Hij' & Hov').
  rewrite Hij in Hij'. injection Hij' as <- <-.
  simpl in Hov, Hov'. rewrite overlap_at_eq in Hov, Hov'.
  case_decide; [done|].
  destruct (matching_days k j) as [X|] eqn:HX; [|done].
  destruct (matching_days k' j) as [X'|] eqn:HX'; [|done].
  simpl in Hov, Hov'.
  apply percent_Some in Hov as [Htotal [= ->]].
  apply percent_Some in Hov' as [_ [= ->]].
  apply Qcmult_le_compat_r; [|done].
  apply ratio_mono; [|lia].
  apply subseteq_size.
  pose proof (matching_days_mono k k' j X X' Hk HX HX'). set_solver.
Qed.

(** *** A dataset against itself *)





Local Open Scope string_scope.

Example overlap_raises_example :
  common_percent 0 [[]; ["20200101"]] [["20200229"]; []] = None.
Proof. reflexivity. Qed.

(** With a date listed twice the overlap of a list with itself is 50. *)
Example repeated_date_example :
  overlap_same_day ["20200101"; "20200101"] ["20200101"; "20200101"]
  = Some (Num (QcZ 50)).
Proof. vm_compute. do 2 f_equal. by apply Qc_is_canon. Qed.

Lemma overlap_is_percentage_witness :
  ∃ common,
    common_percent 1 [["20200101"; "20200301"]; ["20200101"]] [["20200229"]; []]
    = Some common
    ∧ length common = 2%nat.
Proof.
  exists [Num (QcZ 50); NaN].
  split; [exact overlap_example|].
  exact (proj1 (overlap_is_percentage 1 _ _ _ overlap_example)).
Defined.

Lemma wider_window_more_overlap_witness :
  ∃ p p',
    common_percent 0 [["20200101"; "20200301"]] [["20200229"]] = Some [Num p]
    ∧ common_percent 1 [["20200101"; "20200301"]] [["20200229"]] = Some [Num p']
    ∧ (p ≤ p')%Qc.
Proof.
  assert (H0 : common_percent 0 [["20200101"; "20200301"]] [["20200229"]]
               = Some [Num (QcZ 0)]).
  { vm_compute. apply (f_equal (λ q, Some [Num q])). by apply Qc_is_canon. }
  assert (H1 : common_percent 1 [["20200101"; "20200301"]] [["20200229"]]
               = Some [Num (QcZ 50)]).
  { vm_compute. apply (f_equal (λ q, Some [Num q])). by apply Qc_is_canon. }
  exists (QcZ 0), (QcZ 50). split; [exact H0|]. split; [exact H1|].
  exact (wider_window_more_overlap 0 1 _ _ _ _ 0%nat _ _ ltac:(lia) H0 H1
           eq_refl eq_refl).
Defined.


End Windows.

(** ** The pool before the last job has finished *)

Module Waiting.
Import Pool.

Section waiting.
Context {A B : Type} (worker : A → B).

Lemma run_state (iterable : list A) (completed : list (nat * A)) :
  NoDup completed.*1 →
  (∀ job, job ∈ completed → job ∈ jobs iterable) →
  let it := run worker completed in
  valid (worker <$> iterable) (list_to_set completed.*1) it
  ∧ index it ∉ (list_to_set completed.*1 : gset nat).
Proof.
  intros Hnd Hjobs.
  destruct (run_valid worker iterable completed ∅ (mkIter 0 [] ∅)) as [Hv Hidx].
  - split_and!; simpl; [done| |lia|set_solver].
    intros j. rewrite lookup_empty. by rewrite decide_False by set_solver.
  - set_solver.
  - done.
  - set_solver.
  - intros i x Hix. apply elem_of_jobs. by apply Hjobs.
  - simpl in Hv, Hidx. rewrite (left_id_L ∅ (∪)) in Hv, Hidx. done.
Qed.

(** X13: while the worker processes are still busy, whatever subset of the
    jobs has finished and in whatever order, the results the iterator has
    handed out are the first ones of the sequential map, in order, all of
    them from finished jobs; and [list(pool.imap(...))] is complete
    exactly when every job has finished. *)
Theorem imap_waits_for_every_job (iterable : list A) (completed : list (nat * A)) :
  NoDup completed.*1 →
  (∀ job, job ∈ completed → job ∈ jobs iterable) →
  let it := run worker completed in
  items it = take (index it) (worker <$> iterable)
  ∧ index it ≤ length iterable
  ∧ (∀ j, j < index it → j ∈ completed.*1)
  ∧ (is_Some (imap_list worker iterable completed)
     ↔ ∀ job, job ∈ jobs iterable → job ∈ completed).
Proof.
  intros Hnd Hjobs it.
  destruct (run_state iterable completed Hnd Hjobs) as [Hv Hidx].
  fold it in Hv, Hidx.
  pose proof (valid_index_le _ _ _ Hv) as Hle. rewrite length_fmap in Hle.
  destruct Hv as (Hitems & _ & Hlow & _).
  split; [done|]. split; [done|]. split.
  { intros j Hj. specialize (Hlow j Hj). by apply elem_of_list_to_set in Hlow. }
  unfold imap_list. fold it. split.
  - intros Hsome [i x] Hix.
    assert (index it = length iterable) as Hlen.
    { destruct (decide (index it = length iterable)); [done|].
      by destruct Hsome. }
    apply elem_of_jobs in Hix.
    assert (i ∈ completed.*1) as Hi.
    { assert (i ∈ (list_to_set completed.*1 : gset nat)) as Hi.
      { apply Hlow. apply lookup_lt_Some in Hix. lia. }
      by apply elem_of_list_to_set in Hi. }
    apply list_elem_of_fmap in Hi as ([i' y] & -> & Hy). simpl in *.
    pose proof (Hjobs _ Hy) as Hy'. apply elem_of_jobs in Hy'.
    by simplify_eq.
  - intros Hall. rewrite decide_True; [done|].
    destruct (decide (index it = length iterable)) as [|Hne]; [done|].
    exfalso. apply Hidx. apply elem_of_list_to_set.
    destruct (lookup_lt_is_Some_2 iterable (index it)) as [x Hx]; [lia|].
    apply list_elem_of_fmap. exists (index it, x). split; [done|].
    apply Hall. by apply elem_of_jobs.
Qed.

End waiting.

Local Open Scope string_scope.

(** The third variable has finished first: nothing is handed out yet. *)
Example imap_keeps_early_results :
  items (run String.length [(2, "WVF")]) = []
  ∧ items (run String.length [(2, "WVF"); (0, "SLP")]) = [3].
Proof. split; reflexivity. Qed.

Lemma imap_waits_for_every_job_witness :
  items (run String.length [(2, "WVF"); (0, "SLP")])
  = take (index (run String.length [(2, "WVF"); (0, "SLP")]))
         (String.length <$> ["SLP"; "ThetaE850"; "WVF"]).
Proof.
  assert (Hnd : NoDup [(2, "WVF"); (0, "SLP")].*1).
  { apply (bool_decide_unpack (NoDup [(2, "WVF"); (0, "SLP")].*1)).
    vm_compute. exact I. }
  assert (Hjobs : ∀ job, job ∈ [(2, "WVF"); (0, "SLP")]
                    → job ∈ jobs ["SLP"; "ThetaE850"; "WVF"]).
  { intros job Hjob. apply list_elem_of_In in Hjob. simpl in Hjob.
    apply list_elem_of_In. simpl. intuition. }
  exact (proj1 (imap_waits_for_every_job String.length
                  ["SLP"; "ThetaE850"; "WVF"] [(2, "WVF"); (0, "SLP")] Hnd Hjobs)).
Defined.

End Waiting.

(** ** The download of the reforecasts ([download_data]) *)

From stdpp Require Import pretty.

Module Hindcasts.
Import Digits Calendar.
Local Open Scope string_scope.
Local Open Scope list_scope.
Local Open Scope Z_scope.

(** [s[-n:]]: the last [n] characters, the whole string when it is shorter. *)
Definition str_suffix (n : nat) (s : string) : string :=
  String.substring (String.length s - n) n s.

(** [init_year = int(init_date[:4])] and
    [['{}{}'.format(x, init_date[-4:])
      for x in range(init_year-20, init_year)]];
    [str] of an integer is its decimal writing. *)
Definition hdates_used (init_date : string) : option (list string) :=
  init_year ← py_int (String.substring 0 4 init_date);
  Some ((λ x : Z, pretty x +:+ str_suffix 4 init_date) <$> seqZ (init_year - 20) 20).

(** The date of a year, a month and a day in the format [%Y%m%d]. *)
Definition Ymd (y m d : Z) : string :=
  String.string_of_list_ascii (four_digits y ++ two_digits m ++ two_digits d).

Lemma pretty_N_char_digit (x : N) :
  (x < 10)%N → pretty_N_char x = digit_char (Z.of_N x).
Proof.
  intros Hx.
  assert (x = 0 ∨ x = 1 ∨ x = 2 ∨ x = 3 ∨ x = 4 ∨ x = 5 ∨ x = 6 ∨ x = 7
          ∨ x = 8 ∨ x = 9)%N as Hcases by lia.
  repeat destruct Hcases as [->|Hcases]; try reflexivity. by subst.
Qed.

#[local] Ltac Zify.zify_post_hook ::= Z.to_euclidean_division_equations.

(** The decimal writing of a year of four digits. *)
Lemma pretty_year (y : Z) :
  1000 ≤ y ≤ 9999 → pretty y = String.string_of_list_ascii (four_digits y).
Proof.
  intros Hy. destruct y as [|p|p]; try lia.
  unfold pretty, pretty_Z, pretty, pretty_positive, pretty, pretty_N.
  rewrite decide_False by done.
  set (x := N.pos p). assert (Z.pos p = Z.of_N x) as -> by done.
  assert (1000 ≤ x ≤ 9999)%N as Hx by lia. clearbody x.
  set (x1 := (x `div` 10)%N). set (x2 := (x1 `div` 10)%N).
  set (x3 := (x2 `div` 10)%N).
  assert (0 < x1 ∧ 0 < x2 ∧ 0 < x3 ∧ x3 `div` 10 = 0)%N as (H1 & H2 & H3 & H4).
  { subst x1 x2 x3. lia. }
  rewrite (pretty_N_go_step x) by lia. fold x1.
  rewrite (pretty_N_go_step x1) by done. fold x2.
  rewrite (pretty_N_go_step x2) by done. fold x3.
  rewrite (pretty_N_go_step x3) by done. rewrite H4, pretty_N_go_0.
  rewrite !pretty_N_char_digit by (apply N.mod_lt; lia).
  unfold four_digits. cbn [String.string_of_list_ascii].
  repeat f_equal; subst x1 x2 x3; lia.
Qed.

Lemma strftime_Ymd_eq (t : timestamp) (y m d : Z) :
  civil_from_days t = (y, m, d) → strftime_Ymd t = Ymd y m d.
Proof. unfold strftime_Ymd, Ymd. by intros ->. Qed.

Lemma digit_range (n : Z) : 0 ≤ n ≤ 99 → 0 ≤ n / 10 ≤ 9 ∧ 0 ≤ n mod 10 ≤ 9.
Proof. lia. Qed.

Lemma year_digits (y : Z) :
  0 ≤ y ≤ 9999 →
  0 ≤ y / 1000 ≤ 9 ∧ 0 ≤ y / 100 mod 10 ≤ 9 ∧ 0 ≤ y / 10 mod 10 ≤ 9
  ∧ 0 ≤ y mod 10 ≤ 9
  ∧ 1000 * (y / 1000) + 100 * (y / 100 mod 10) + 10 * (y / 10 mod 10) + y mod 10 = y.
Proof. lia. Qed.

Lemma py_int_year (y m d : Z) :
  0 ≤ y ≤ 9999 → py_int (String.substring 0 4 (Ymd y m d)) = Some y.
Proof.
  intros (H1 & H2 & H3 & H4 & Hy)%year_digits.
  unfold Ymd, four_digits, two_digits.
  cbn [app String.string_of_list_ascii String.substring].
  unfold py_int. cbn [digits_value].
  rewrite !digit_of_digit_char by done. cbn [mbind option_bind].
  f_equal. lia.
Qed.

Lemma str_suffix_Ymd (y m d : Z) :
  str_suffix 4 (Ymd y m d)
  = String.string_of_list_ascii (two_digits m ++ two_digits d).
Proof. reflexivity. Qed.

Lemma to_datetime_Ymd (y m d : Z) :
  0 ≤ y ≤ 9999 → 0 ≤ m ≤ 99 → 0 ≤ d ≤ 99 →
  to_datetime (Ymd y m d)
  = if valid_date y m d && in_bounds (days_from_civil y m d)
    then Some (days_from_civil y m d) else None.
Proof.
  intros (H1 & H2 & H3 & H4 & Hy)%year_digits [Hm1 Hm2]%digit_range [Hd1 Hd2]%digit_range.
  unfold to_datetime, Ymd. rewrite String.list_ascii_of_string_of_list_ascii.
  unfold four_digits, two_digits. cbn [app].
  rewrite !Download.mapM_cons.
  rewrite !digit_of_digit_char by done.
  cbn [mapM mbind option_bind mret option_ret].
  rewrite Hy.
  replace (10 * (m / 10) + m mod 10) with m by lia.
  replace (10 * (d / 10) + d mod 10) with d by lia.
  done.
Qed.

Lemma hdates_used_Ymd (y m d : Z) :
  1020 ≤ y ≤ 9999 →
  hdates_used (Ymd y m d) = Some ((λ x, Ymd x m d) <$> seqZ (y - 20) 20).
Proof.
  intros Hy. unfold hdates_used. rewrite py_int_year by lia.
  cbn [mbind option_bind]. f_equal. apply list_fmap_ext.
  intros i x Hx. apply lookup_seqZ in Hx as [-> Hi].
  rewrite pretty_year, str_suffix_Ymd by lia. reflexivity.
Qed.

(** The same month and day in another year: a date unless it is the 29th
    of February. *)
Lemma valid_date_other_year (y y' m d : Z) :
  valid_date y m d = true → ¬ (m = 2 ∧ d = 29) → valid_date y' m d = true.
Proof.
  intros (Hm & Hd & H30 & H29 & _)%valid_date_inv Hleap.
  apply valid_date_intro; try done. intros ??. lia.
Qed.

Lemma no_leap_day_the_year_before (y : Z) :
  valid_date y 2 29 = true → valid_date (y - 1) 2 29 = false.
Proof.
  intros (_ & _ & _ & _ & Hleap)%valid_date_inv.
  destruct (Hleap eq_refl eq_refl) as [H4 _].
  unfold valid_date, days_in_month, is_leap.
  rewrite decide_True by done.
  rewrite (bool_decide_eq_false_2 ((y - 1) mod 4 = 0)) by lia. done.
Qed.

(** X14: for an initialisation date written by [strftime] the 20 dates of
    the hindcasts are the same month and day in each of the 20 years
    before, the oldest first.  They are dates of the calendar (and
    [to_datetime] reads them back as such when they are timestamps), unless
    the initialisation date is the 29th of February: then the last one, of
    the year before, names a day that does not exist. *)
Theorem hindcast_dates (t : timestamp) (y m d : Z) :
  in_bounds t = true → civil_from_days t = (y, m, d) →
  ∃ hdates,
    hdates_used (strftime_Ymd t) = Some hdates
    ∧ length hdates = 20%nat
    ∧ (∀ k : nat, (k < 20)%nat → hdates !! k = Some (Ymd (y - 20 + Z.of_nat k) m d))
    ∧ (∀ k : nat, (k < 20)%nat →
         to_datetime (Ymd (y - 20 + Z.of_nat k) m d)
         = if valid_date (y - 20 + Z.of_nat k) m d
              && in_bounds (days_from_civil (y - 20 + Z.of_nat k) m d)
           then Some (days_from_civil (y - 20 + Z.of_nat k) m d) else None)
    ∧ (¬ (m = 2 ∧ d = 29) →
       ∀ k : nat, (k < 20)%nat → valid_date (y - 20 + Z.of_nat k) m d = true)
    ∧ (m = 2 ∧ d = 29 →
       hdates !! 19%nat = Some (Ymd (y - 1) 2 29)
       ∧ to_datetime (Ymd (y - 1) 2 29) = None).
Proof.
  intros Ht Hciv.
  destruct (civil_from_days_valid t) as (y' & m' & d' & Hciv' & Hvalid & Hback).
  rewrite Hciv in Hciv'. injection Hciv' as <- <- <-.
  pose proof (valid_date_inv y m d Hvalid) as (Hm & Hd & _).
  assert (1677 ≤ y ≤ 2262) as Hy.
  { apply (year_bound y m d); [done|done|]. rewrite Hback.
    unfold in_bounds in Ht. by apply bool_decide_eq_true in Ht. }
  rewrite (strftime_Ymd_eq t y m d Hciv), hdates_used_Ymd by lia.
  eexists. split; [done|]. split.
  { by rewrite length_fmap, length_seqZ. }
  assert (Hlookup : ∀ k : nat, (k < 20)%nat →
            ((λ x, Ymd x m d) <$> seqZ (y - 20) 20) !! k
            = Some (Ymd (y - 20 + Z.of_nat k) m d)).
  { intros k Hk. rewrite list_lookup_fmap, lookup_seqZ_lt by lia. done. }
  split; [exact Hlookup|]. split.
  { intros k Hk. apply to_datetime_Ymd; lia. }
  split.
  { intros Hleap k Hk. by apply (valid_date_other_year y). }
  intros [-> ->]. split.
  - rewrite (Hlookup 19%nat) by lia. do 2 f_equal. lia.
  - rewrite to_datetime_Ymd by lia.
    by rewrite no_leap_day_the_year_before.
Qed.

Example hdates_used_example :
  hdates_used "20190613"
  = Some [ "19990613"; "20000613"; "20010613"; "20020613"; "20030613";
           "20040613"; "20050613"; "20060613"; "20070613"; "20080613";
           "20090613"; "20100613"; "20110613"; "20120613"; "20130613";
           "20140613"; "20150613"; "20160613"; "20170613"; "20180613" ].
Proof. vm_compute. reflexivity. Qed.

(** Not a date: the hindcast dates need a year of digits. *)
Example hdates_used_raises : hdates_used "June 13" = None.
Proof. reflexivity. Qed.

Lemma hindcast_dates_witness :
  ∃ hdates, hdates_used (strftime_Ymd 18060) = Some hdates ∧ length hdates = 20%nat.
Proof.
  assert (Ht : in_bounds 18060 = true) by reflexivity.
  assert (Hciv : civil_from_days 18060 = (2019, 6, 13)) by reflexivity.
  destruct (hindcast_dates 18060 2019 6 13 Ht Hciv) as (hdates & Hh & Hlen & _).
  exists hdates. split; [exact Hh|exact Hlen].
Defined.

(** *** The files *)

(** The request handed to [mv.retrieve]; [number] is given for the
    perturbed forecasts only. *)
Record request : Type := mkRequest {
  Class : string;
  date : string;
  expver : Z;
  hdate : list string;
  levelist : list Z;
  levtype : string;
  param : string;
  step : list Z;
  time : list string;
  stream : string;
  type : string;
  number : option (list Z);
  area : list Z;
  grid : list Z
}.

Definition main_out_folder : string := "/Data/".

(** [list((np.arange(1, 46)*24))] *)
Definition lead_days_used : list Z := (λ i, i * 24) <$> seqZ 1 45.

Definition area_atm_var : list Z := [55; -15; 20; 45].
Definition grid_atm_var : list Z := [1; 1].

Definition Reforecasts_vars_used : gmap string (Z * string * string) :=
  {[ "SLP" := (0, "sfc", "151.128"); "Z500" := (500, "pl", "129.128") ]}.

Definition file_name (param type_used init_date : string) : string :=
  let files_loc := main_out_folder +:+ param +:+ "/" +:+ type_used +:+ "/" in
  files_loc +:+ param +:+ "_" +:+ type_used +:+ "_" +:+ init_date +:+ ".grb".

Section download_data.
(** The archive, and the disk: the files by their names. *)
Context {Fieldset : Type} (retrieve : request → Fieldset).

(** The request of [download_data] for the forecasts of one type. *)
Definition reforecast (type_used : string) (number : option (list Z))
    (levelist_used : Z) (levtype_used param_used init_date : string)
    (hdates_used : list string) : request :=
  mkRequest "od" init_date 1 hdates_used [levelist_used] levtype_used param_used
    lead_days_used ["00:00:00"] "enfh" type_used number area_atm_var grid_atm_var.

(** [download_data(input_data)]: the function returns nothing; what it
    does is to the disk.  A variable that is not a key of
    [Reforecasts_vars_used] raises; so does, once the file is found missing,
    an [init_date] without a year and a type that is neither ['cf'] nor
    ['pf'] ([fc_all] is then not bound when it is written). *)
Definition download_data (input_data : string * string * string)
    (disk : gmap string Fieldset) : option (gmap string Fieldset) :=
  let '(param, type_used, init_date) := input_data in
  '(levelist_used, levtype_used, param_used) ← Reforecasts_vars_used !! param;
  let file_name := file_name param type_used init_date in
  if decide (is_Some (disk !! file_name)) then Some disk
  else
    hdates_used ← hdates_used init_date;
    fc_all ←
      (if decide (type_used = "cf")
       then Some (retrieve (reforecast "cf" None levelist_used levtype_used
                              param_used init_date hdates_used))
       else if decide (type_used = "pf")
       then Some (retrieve (reforecast "pf" (Some (seqZ 1 10)) levelist_used
                              levtype_used param_used init_date hdates_used))
       else None);
    Some (<[file_name := fc_all]> disk).

(** X15: [download_data] never touches a file that is there: when it
    returns, every file of the disk is unchanged, the file of the request
    exists, no other file was created, and it was retrieved (for the
    hindcast dates of the initialisation date) only if it was missing;
    running it again changes nothing. *)
Theorem download_data_keeps_files (param type_used init_date : string)
    (disk disk' : gmap string Fieldset) :
  download_data (param, type_used, init_date) disk = Some disk' →
  disk ⊆ disk'
  ∧ is_Some (disk' !! file_name param type_used init_date)
  ∧ (∀ f, f ≠ file_name param type_used init_date → disk' !! f = disk !! f)
  ∧ (is_Some (disk !! file_name param type_used init_date) → disk' = disk)
  ∧ (disk !! file_name param type_used init_date = None →
     ∃ rq hdates, disk' !! file_name param type_used init_date = Some (retrieve rq)
       ∧ hdates_used init_date = Some hdates
       ∧ hdate rq = hdates ∧ date rq = init_date ∧ type rq = type_used)
  ∧ download_data (param, type_used, init_date) disk' = Some disk'.
Proof.
  unfold download_data.
  destruct (Reforecasts_vars_used !! param) as [[[levelist_used levtype_used] param_used]|];
    [|done].
  cbn [mbind option_bind].
  set (file := file_name param type_used init_date).
  destruct (decide (is_Some (disk !! file))) as [Hthere|Hmissing].
  { intros [= <-]. split_and!; try done.
    - intros Hnone. rewrite Hnone in Hthere. by destruct Hthere.
    - by rewrite decide_True. }
  destruct (hdates_used init_date) as [hdates|]; [|done].
  cbn [mbind option_bind].
  assert (disk !! file = None) as Hnone.
  { destruct (disk !! file); [|done]. exfalso. apply Hmissing. eauto. }
  intros Hd.
  assert (∃ rq, disk' = <[file := retrieve rq]> disk
            ∧ hdate rq = hdates ∧ date rq = init_date ∧ type rq = type_used)
    as (rq & -> & Hh & Hdate & Htype).
  { repeat case_decide; simplify_eq/=; eexists; split_and!; done. }
  split_and!.
  - by apply insert_subseteq.
  - rewrite lookup_insert_eq. eauto.
  - intros f Hf. by rewrite lookup_insert_ne.
  - intros Hsome. rewrite Hnone in Hsome. by destruct Hsome.
  - intros _. exists rq, hdates. by rewrite lookup_insert_eq.
  - rewrite decide_True; [done|]. rewrite lookup_insert_eq. eauto.
Qed.

End download_data.

Example download_data_unknown_type :
  download_data (λ rq, hdate rq) ("SLP", "an", "20190613") ∅ = None.
Proof. vm_compute. reflexivity. Qed.

Example download_data_unknown_variable :
  download_data (λ rq, hdate rq) ("T850", "cf", "20190613") ∅ = None.
Proof. vm_compute. reflexivity. Qed.

Lemma download_data_keeps_files_witness :
  download_data (λ _, ()) ("SLP", "cf", "20190613")
    {[ file_name "SLP" "cf" "20190613" := () ]}
  = Some {[ file_name "SLP" "cf" "20190613" := () ]}.
Proof.
  assert (Hd : download_data (λ _, ()) ("SLP", "cf", "20190613") ∅
               = Some {[ file_name "SLP" "cf" "20190613" := () ]}).
  { vm_compute. reflexivity. }
  exact (proj2 (proj2 (proj2 (proj2 (proj2
    (download_data_keeps_files (λ _, ()) "SLP" "cf" "20190613" ∅ _ Hd)))))).
Defined.

End Hindcasts.

(** ** The download of the atmospheric variables ([atm_subset]) *)

Module Atmosphere.
Import Download.
Local Open Scope string_scope.
Local Open Scope list_scope.

Section atm_subset.
(** The archive ([mv.retrieve] for a level, a level type, a parameter and
    a list of dates: hourly fields), the [date] key of a field as
    [mv.grib_get] gives it, and [mv.mean] of a set of fields. *)
Context {Field : Type}.
Context (retrieve : Z → string → string → list string → list Field).
Context (grib_date : Field → string) (mv_mean : list Field → Field).

(** One pass of the loop: the indices of the fields of the day, the
    fields at these indices, their mean. *)
Definition daily_mean (fc_all : list Field) (fields : list string)
    (day_i : string) : Field :=
  let used_indices :=
    filter (λ i, fields !! i = Some day_i) (seq 0 (length fields)) in
  let daily_subset := omap (λ i, fc_all !! i) used_indices in
  mv_mean daily_subset.

Definition atm_subset (input_data : Z * string * string * list string)
  : list Field :=
  let '(levelist, levtype, atm_var, dates_subset) := input_data in
  let fc_all := retrieve levelist levtype atm_var dates_subset in
  let fields := grib_date <$> fc_all in
  daily_mean fc_all fields <$> dates_subset.

(** The loop over the variables, for one of them: the pool maps
    [atm_subset] over the inputs, in order; then
    [for i in range(1, Times): Daily[0].append(Daily[i])] and
    [Daily = Daily[0]], which raises when there is no chunk. *)
Definition Daily (var : Z * string * string * string)
    (dates_atm_vars : list (list string)) : option (list Field) :=
  let '(levelist, levtype, atm_var, file_name) := var in
  let Times := length dates_atm_vars in
  let Inputs :=
    zip (zip (zip (replicate Times levelist) (replicate Times levtype))
             (replicate Times atm_var)) dates_atm_vars in
  let Daily := atm_subset <$> Inputs in
  match Daily with
  | [] => None
  | first :: rest => Some (foldl (λ acc f, acc ++ f) first rest)
  end.

(** The fields at the indices where the date key is the day are the
    fields of the day. *)
Lemma daily_subset_filter (fc_all : list Field) (day_i : string) :
  omap (λ i, fc_all !! i)
       (filter (λ i, (grib_date <$> fc_all) !! i = Some day_i)
               (seq 0 (length (grib_date <$> fc_all))))
  = filter (λ f, grib_date f = day_i) fc_all.
Proof.
  rewrite length_fmap.
  induction fc_all as [|f fc_all IH] using rev_ind; [done|].
  rewrite length_app, Nat.add_1_r, seq_S, filter_app. cbn [Nat.add length].
  rewrite omap_app, filter_app.
  f_equal.
  - rewrite <-IH.
    rewrite (Transition.filter_ext_elem _ (λ i, (grib_date <$> fc_all) !! i = Some day_i)).
    2:{ intros i Hi%elem_of_seq. rewrite fmap_app, lookup_app_l; [done|].
        rewrite length_fmap. lia. }
    apply Anomalies.omap_ext_elem. intros i Hi.
    apply list_elem_of_filter in Hi as [_ Hi%elem_of_seq].
    by rewrite lookup_app_l by lia.
  - rewrite !filter_cons, !filter_nil.
    rewrite fmap_app, lookup_app_r by (by rewrite length_fmap).
    rewrite length_fmap, Nat.sub_diag. cbn [fmap list_fmap lookup list_lookup].
    destruct (decide (grib_date f = day_i)) as [Heq|Hne].
    + rewrite decide_True by (by rewrite Heq). cbn [omap list_omap].
      by rewrite lookup_app_r, Nat.sub_diag by lia.
    + rewrite decide_False by congruence. done.
Qed.

Lemma atm_subset_eq (levelist : Z) (levtype atm_var : string)
    (dates_subset : list string) :
  atm_subset (levelist, levtype, atm_var, dates_subset)
  = (λ d, mv_mean (filter (λ f, grib_date f = d)
                     (retrieve levelist levtype atm_var dates_subset)))
      <$> dates_subset.
Proof.
  unfold atm_subset, daily_mean. apply list_fmap_ext. intros _ d _.
  by rewrite daily_subset_filter.
Qed.

Lemma Inputs_lookup (levelist : Z) (levtype atm_var : string)
    (chunks : list (list string)) :
  zip (zip (zip (replicate (length chunks) levelist)
                (replicate (length chunks) levtype))
           (replicate (length chunks) atm_var)) chunks
  = (λ c, (levelist, levtype, atm_var, c)) <$> chunks.
Proof.
  induction chunks as [|c chunks IH]; [done|].
  cbn [length replicate zip_with fmap list_fmap]. f_equal. exact IH.
Qed.

(** The mean of the day [d] out of the retrieval of the chunk. *)
Definition mean_of_day (levelist : Z) (levtype atm_var : string)
    (chunk : list string) (d : string) : Field :=
  mv_mean (filter (λ f, grib_date f = d) (retrieve levelist levtype atm_var chunk)).

Lemma Forall2_concat_fmap {X Y} (R : X → Y → Prop) (g : list X → X → Y)
    (chunks : list (list X)) :
  (∀ chunk d, chunk ∈ chunks → d ∈ chunk → R d (g chunk d)) →
  Forall2 R (concat chunks) (concat ((λ chunk, g chunk <$> chunk) <$> chunks)).
Proof.
  induction chunks as [|c chunks IH]; intros HR; [constructor|].
  cbn [concat fmap list_fmap]. apply Forall2_app.
  - apply Forall2_fmap_r, Forall_Forall2_diag, Forall_forall.
    intros d Hd. apply HR; [left|done].
  - apply IH. intros chunk d Hc Hd. apply HR; [by right|done].
Qed.

(** X16: for a variable and the dates of the download (at least one), the
    fields kept for the variable are one per date, in the order of the
    dates: the field of a date is the mean of the fields of that date
    among those retrieved for its year-month chunk. *)
Theorem one_mean_per_date (levelist : Z) (levtype atm_var file_name : string)
    (dates_generated_all : list string) :
  dates_generated_all ≠ [] →
  ∃ fields,
    Daily (levelist, levtype, atm_var, file_name) (dates_atm_vars dates_generated_all)
    = Some fields
    ∧ length fields = length dates_generated_all
    ∧ Forall2 (λ d f, ∃ chunk, chunk ∈ dates_atm_vars dates_generated_all
                       ∧ d ∈ chunk
                       ∧ year_month d = year_month (default d (head chunk))
                       ∧ f = mean_of_day levelist levtype atm_var chunk d)
        dates_generated_all fields.
Proof.
  intros Hne. unfold Daily.
  rewrite Inputs_lookup.
  set (chunks := dates_atm_vars dates_generated_all).
  assert (Hconcat : concat chunks = dates_generated_all)
    by apply dates_atm_vars_concat.
  destruct chunks as [|first rest] eqn:Hchunks.
  { simpl in Hconcat. congruence. }
  rewrite !fmap_cons, <-list_fmap_compose. cbv beta iota zeta.
  rewrite foldl_app_concat.
  eexists. split; [done|].
  change (concat (atm_subset (levelist, levtype, atm_var, first)
                  :: (atm_subset ∘ (λ c, (levelist, levtype, atm_var, c)) <$> rest)))
    with (concat ((λ c, atm_subset (levelist, levtype, atm_var, c))
                    <$> first :: rest)).
  assert (Hall : Forall2 (λ d f, ∃ chunk, chunk ∈ first :: rest ∧ d ∈ chunk
                   ∧ year_month d = year_month (default d (head chunk))
                   ∧ f = mean_of_day levelist levtype atm_var chunk d)
            (concat (first :: rest))
            (concat ((λ c, atm_subset (levelist, levtype, atm_var, c))
                       <$> first :: rest))).
  { erewrite list_fmap_ext; [|intros; apply atm_subset_eq].
    apply (Forall2_concat_fmap _ (mean_of_day levelist levtype atm_var)).
    intros chunk d Hchunk Hd. exists chunk. split_and!; try done.
    rewrite <-Hchunks in Hchunk. unfold chunks, dates_atm_vars in Hchunk.
    apply list_elem_of_fmap in Hchunk as ([ym c] & -> & Hin). simpl in *.
    pose proof (groupby_keys year_month dates_generated_all) as Hkeys.
    rewrite Forall_forall in Hkeys. specialize (Hkeys _ Hin). simpl in Hkeys.
    rewrite Forall_forall in Hkeys. rewrite (Hkeys d Hd).
    destruct c as [|d0 c]; [by apply not_elem_of_nil in Hd|]. simpl.
    symmetry. apply Hkeys. left. }
  rewrite Hconcat in Hall. split; [|exact Hall].
  symmetry. by eapply Forall2_length.
Qed.

End atm_subset.

(** Two days of one month and one of the next, two fields a day: the mean
    of a day (here the fields joined) is made of the two fields of the
    day. *)
Example Daily_example :
  Daily (λ _ _ _ ds, ds ++ ds) id (String.concat "+") (0%Z, "sfc", "151.128", "D1_Mean_SLP")
    (dates_atm_vars ["19790131"; "19790201"; "19790202"])
  = Some ["19790131+19790131"; "19790201+19790201"; "19790202+19790202"].
Proof. reflexivity. Qed.

Example Daily_no_date :
  Daily (λ _ _ _ ds, ds ++ ds) id (String.concat "+") (0%Z, "sfc", "151.128", "D1_Mean_SLP")
    (dates_atm_vars [])
  = None.
Proof. reflexivity. Qed.

Lemma one_mean_per_date_witness :
  ∃ fields,
    Daily (λ _ _ _ ds, ds ++ ds) id (String.concat "+") (0%Z, "sfc", "151.128", "D1_Mean_SLP")
      (dates_atm_vars ["19790131"; "19790201"])
    = Some fields
    ∧ length fields = 2.
Proof.
  assert (Hne : ["19790131"; "19790201"] ≠ []) by discriminate.
  destruct (one_mean_per_date (λ _ _ _ ds, ds ++ ds) id (String.concat "+")
              0%Z "sfc" "151.128" "D1_Mean_SLP" ["19790131"; "19790201"] Hne)
    as (fields & Hd & Hlen & _).
  exists fields. split; [exact Hd|exact Hlen].
Defined.

End Atmosphere.

(** ** The preprocessing: the mask of the missing data, the percentiles *)

Module Preprocessing.
Import PyFloat Transition Ratios Extremes Overlap.

(** [np.isnan(EOBS).sum(dim='time')], at a cell. *)
Definition nan_count (xs : list pyfloat) : nat := length (filter (λ v, v = NaN) xs).

(** [count / steps * 100] for a count of steps out of [steps] steps: with
    no step at all it is [0 / 0], NaN (the count is 0 then; numpy divides
    and warns where Python would raise). *)
Definition count_percent (count steps : nat) : pyfloat :=
  if decide (steps = 0) then NaN
  else Num (Qcnat count / Qcnat steps * QcZ 100)%Qc.

(** [NANs_EOBS = np.isnan(EOBS).sum(dim='time')],
    [NANs_EOBS = NANs_EOBS/len(EOBS)*100] and [NANs_EOBS = NANs_EOBS<5];
    [len(EOBS)] is the size of the first dimension, time. *)
Definition NANs_EOBS (EOBS : DataArray string) : list (list bool) :=
  (λ la, (λ lo, flt (count_percent (nan_count (series EOBS la lo))
                                   (length (values EOBS)))
                    (Num (QcZ 5)))
           <$> seq 0 (nlon EOBS))
    <$> seq 0 (nlat EOBS).

(** [a.where(mask)] for a grid [a]: the value where the mask holds, NaN
    elsewhere. *)
Definition where_mask (a : list (list pyfloat)) (mask : list (list bool))
  : list (list pyfloat) :=
  zip_with (zip_with (λ v (m : bool), if m then v else NaN)) a mask.

Lemma percent_below_five (count steps : nat) :
  0 < steps →
  (Qcnat count / Qcnat steps * QcZ 100 < QcZ 5)%Qc ↔ 20 * count < steps.
Proof.
  intros Hsteps.
  pose proof (Qcnat_pos steps Hsteps) as Hpos.
  rewrite (Qcmult_lt_mono_pos_r _ _ (Qcnat steps)) by done.
  replace (Qcnat count / Qcnat steps * QcZ 100 * Qcnat steps)%Qc
    with (Qcnat count * QcZ 100)%Qc.
  2:{ unfold Qcdiv. rewrite <-!Qcmult_assoc, (Qcmult_comm (QcZ 100)).
      rewrite !Qcmult_assoc, <-(Qcmult_assoc (Qcnat count)).
      rewrite (Qcmult_comm (/ Qcnat steps)), Qcmult_inv_r
        by (apply Qcnat_nonzero; lia).
      by rewrite Qcmult_1_r. }
  unfold Qcnat, QcZ. rewrite <-!Z2Qc_inj_mul, <-Z2Qc_inj_lt. lia.
Qed.

Lemma NANs_EOBS_cell (EOBS : DataArray string) (la lo : nat) :
  la < nlat EOBS → lo < nlon EOBS →
  NANs_EOBS EOBS !! la ≫= (.!! lo)
  = Some (bool_decide (20 * nan_count (series EOBS la lo) < length (values EOBS))).
Proof.
  intros Hla Hlo. unfold NANs_EOBS.
  rewrite list_lookup_fmap, lookup_seq_lt by done. simpl.
  rewrite list_lookup_fmap, lookup_seq_lt by done. simpl. f_equal.
  unfold count_percent. case_decide as Hsteps.
  - rewrite Hsteps. rewrite bool_decide_eq_false_2 by lia. done.
  - unfold flt. simpl. apply bool_decide_ext.
    apply percent_below_five. lia.
Qed.

(** X17: the mask [NANs_EOBS] holds at a grid cell exactly when fewer than
    one in twenty of the time steps are missing there (none holds when
    there is no time step); [where] keeps the value of a grid at the cells
    where the mask holds and puts NaN at the others. *)
Theorem mask_of_missing_data (EOBS : DataArray string)
    (a : list (list pyfloat)) (la lo : nat) (v : pyfloat) :
  la < nlat EOBS → lo < nlon EOBS → cell a la lo = Some v →
  let kept :=
    bool_decide (20 * nan_count (series EOBS la lo) < length (values EOBS)) in
  NANs_EOBS EOBS !! la ≫= (.!! lo) = Some kept
  ∧ cell (where_mask a (NANs_EOBS EOBS)) la lo = Some (if kept then v else NaN).
Proof.
  intros Hla Hlo Hv kept.
  pose proof (NANs_EOBS_cell EOBS la lo Hla Hlo) as Hmask. fold kept in Hmask.
  split; [exact Hmask|].
  unfold cell, where_mask in *. rewrite lookup_zip_with.
  destruct (a !! la) as [row|]; [|done]. simpl in *.
  destruct (NANs_EOBS EOBS !! la) as [mrow|]; [|done]. simpl in *.
  rewrite lookup_zip_with, Hv, Hmask. done.
Qed.

(** *** The percentiles and the combinations *)

(** [sorted(list(np.array(P_used).flatten()))[::-1]] for a list of
    percentiles. *)
Definition P_sorted (P_used : list Z) : list Z := reverse (merge_sort Z.le P_used).

(** [[[(i, i, 1), (i, i-2, 1)] for i in P_used]], the internal lists
    dropped. *)
Definition Combs (P_used : list Z) : list (Z * Z * Z) :=
  concat ((λ i, [(i, i, 1); (i, i - 2, 1)]%Z) <$> P_used).

Lemma Combs_lookup (P_used : list Z) (k : nat) (p : Z) :
  P_used !! k = Some p →
  Combs P_used !! (2 * k) = Some (p, p, 1%Z)
  ∧ Combs P_used !! (2 * k + 1) = Some (p, (p - 2)%Z, 1%Z).
Proof.
  unfold Combs. revert k. induction P_used as [|i P_used IH]; intros k Hk; [done|].
  destruct k as [|k]; simpl in *.
  - by injection Hk as ->.
  - replace (k + S (k + 0)) with (S (2 * k)) by lia. simpl. by apply IH.
Qed.

Lemma Combs_offset (P_used : list Z) (comb : Z * Z * Z) :
  comb ∈ Combs P_used → comb.2 = 1%Z.
Proof.
  unfold Combs. intros Hc. apply list_elem_of_In, in_concat in Hc as (l & Hl & Hc).
  apply list_elem_of_In, list_elem_of_fmap in Hl as (i & -> & _).
  simpl in Hc. destruct Hc as [<-|[<-|[]]]; done.
Qed.

(** X18: the percentiles are put in descending order, the same percentiles
    as given; the combinations are, for each percentile [p] in that order,
    [(p, p, 1)] and then [(p, p - 2, 1)]; every combination has the offset
    1, so on none of them does [calculate_overlap] take its branch for
    [offset == 0]: it does what the general branch does. *)
Theorem combinations_use_the_window (P_used : list Z) :
  let P := P_sorted P_used in
  P ≡ₚ P_used
  ∧ Sorted (λ a b, b ≤ a)%Z P
  ∧ length (Combs P) = 2 * length P_used
  ∧ (∀ k p, P !! k = Some p →
       Combs P !! (2 * k) = Some (p, p, 1%Z)
       ∧ Combs P !! (2 * k + 1) = Some (p, (p - 2)%Z, 1%Z))
  ∧ (∀ ERA5 EOBS comb, comb ∈ Combs P →
       comb.2 = 1%Z
       ∧ calculate_overlap ERA5 EOBS comb = calculate_overlap_general ERA5 EOBS comb).
Proof.
  intros P. unfold P, P_sorted.
  assert (Hperm : reverse (merge_sort Z.le P_used) ≡ₚ P_used).
  { by rewrite reverse_Permutation, merge_sort_Permutation. }
  split_and!.
  - exact Hperm.
  - apply (Sorted_reverse Z.le). apply Sorted_merge_sort. apply _.
  - unfold Combs. rewrite (length_concat_regular 2).
    + rewrite length_fmap, Hperm. lia.
    + apply Forall_fmap, Forall_forall. by intros i _.
  - intros k p. apply Combs_lookup.
  - intros ERA5 EOBS [[P_ERA5 P_EOBS] offset] Hcomb.
    apply Combs_offset in Hcomb. simpl in Hcomb. subst offset. split; [done|].
    unfold calculate_overlap, calculate_overlap_general, calculate_overlap_with.
    destruct (dates_extreme ERA5 _) as [[ERA5_Q w1]|]; [|done].
    destruct (dates_extreme EOBS _) as [[EOBS_Q w2]|]; [|done].
    cbn [mbind option_bind fst snd].
    destruct (values ERA5 !! 0); [|done]. cbn [mbind option_bind].
    unfold common_percent, common_percent_general.
    by rewrite decide_False by done.
Qed.

Example combinations_example :
  Combs (P_sorted [95; 97; 99]%Z)
  = [(99, 99, 1); (99, 97, 1); (97, 97, 1); (97, 95, 1); (95, 95, 1); (95, 93, 1)]%Z.
Proof. reflexivity. Qed.

(** One cell, forty days, two of them missing: five in a hundred, and the
    cell is masked; with one missing it is kept. *)
Definition gappy (missing : nat) : DataArray string :=
  mkDataArray (replicate 40 "d"%string) 1 1
    (replicate missing [[NaN]] ++ replicate (40 - missing) [[Num (QcZ 1)]]).

Example mask_at_five_percent :
  NANs_EOBS (gappy 2) = [[false]] ∧ NANs_EOBS (gappy 1) = [[true]].
Proof. split; reflexivity. Qed.

Lemma mask_of_missing_data_witness :
  cell (where_mask [[Num (QcZ 7)]] (NANs_EOBS (gappy 2))) 0 0 = Some NaN.
Proof.
  assert (Hla : 0 < nlat (gappy 2)) by (simpl; lia).
  assert (Hlo : 0 < nlon (gappy 2)) by (simpl; lia).
  assert (Hv : cell [[Num (QcZ 7)]] 0 0 = Some (Num (QcZ 7))) by reflexivity.
  exact (proj2 (mask_of_missing_data (gappy 2) [[Num (QcZ 7)]] 0 0 (Num (QcZ 7))
                  Hla Hlo Hv)).
Defined.

End Preprocessing.

(** ** The number of EOFs kept ([eof_analysis]) *)

Module Eof.
Import PyFloat Transition Ratios.

(** [np.cumsum(a)]: the running sums. *)
Fixpoint cumsum_from (acc : Qc) (a : list Qc) : list Qc :=
  match a with
  | [] => []
  | x :: a' => (acc + x)%Qc :: cumsum_from (acc + x)%Qc a'
  end.

Definition cumsum (a : list Qc) : list Qc := cumsum_from 0%Qc a.

(** [np.searchsorted(a, v)], side ['left']: the binary search of numpy.
    Each turn of its loop shrinks the interval between the two indices, so
    [fuel] turns are enough when [fuel] is the length of [a]. *)
Fixpoint binsearch_left (fuel : nat) (a : list Qc) (key : Qc)
    (min_idx max_idx : nat) : nat :=
  match fuel with
  | 0 => min_idx
  | S fuel' =>
      if decide (min_idx < max_idx) then
        let mid_idx := min_idx + (max_idx - min_idx) `div` 2 in
        match a !! mid_idx with
        | Some mid_val =>
            if decide (mid_val < key)%Qc
            then binsearch_left fuel' a key (mid_idx + 1) max_idx
            else binsearch_left fuel' a key min_idx mid_idx
        | None => min_idx
        end
      else min_idx
  end.

Definition searchsorted (a : list Qc) (v : Qc) : nat :=
  binsearch_left (length a) a v 0 (length a).

(** [N_eofs = int(np.searchsorted(np.cumsum(varianceFraction), Var_ex/100))]
    and [N_eofs += 1]. *)
Definition N_eofs (varianceFraction : list Qc) (Var_ex : Z) : nat :=
  searchsorted (cumsum varianceFraction) (QcZ Var_ex / QcZ 100)%Qc + 1.


(** *** The running sums *)






(** *** The binary search on a sorted array *)






(** Three EOFs with a half, three tenths and a fifth of the variance: two
    are needed for 80 percent, and three for 90. *)
Example N_eofs_example :
  N_eofs [lit 1 2; lit 3 10; lit 1 5] 80 = 2
  ∧ N_eofs [lit 1 2; lit 3 10; lit 1 5] 90 = 3.
Proof. split; reflexivity. Qed.

(** What cannot be reached gives one more than there is. *)
Example N_eofs_beyond : N_eofs [lit 1 2; lit 3 10] 90 = 3.
Proof. reflexivity. Qed.


End Eof.

(** ** Missing values and constant cells in the anomalies *)

Module Missing.
Import PyFloat Transition Ratios Calendar Extremes Anomalies.





Section missing.
Context (read_daily : string → DataArray timestamp).


Section cell.
Context (Daily : DataArray timestamp) (t la lo : nat) (day : timestamp).
Hypothesis Hday : time Daily !! t = Some day.





End cell.



End missing.





End Missing.

(** ** The extremes of each cluster ([extremes_to_clusters]) *)

Module Clusters.
Import PyFloat Significance Transition Ratios Extremes Exceedance.
Local Open Scope Z_scope.

(** [Data.loc[labels].values] for a Series given by its rows (index label,
    value): for each label the values of the rows with that label, in the
    order of the labels; a label without a row raises. *)
Definition loc (Data : list (string * Z)) (labels : list string)
  : option (list Z) :=
  rows ← mapM (λ l, let found := filter (λ r, r.1 = l) Data in
                    if decide (found = []) then None
                    else Some (snd <$> found)) labels;
  Some (concat rows).

(** The sum over a list of grids of integers, at a cell and cell by cell. *)
Definition cell_sum (grids : list (list (list Z))) (la lo : nat) : Z :=
  foldr Z.add 0 (omap (λ g : list (list Z), g !! la ≫= (.!! lo)) grids).

Definition sum_cells (nlat nlon : nat) (grids : list (list (list Z)))
  : list (list Z) :=
  (λ la, (λ lo, cell_sum grids la lo) <$> seq 0 nlon) <$> seq 0 nlat.

(** [a.groupby('cluster').sum()] for a field [a] with the coordinate
    [cluster] along its steps: one grid per cluster, the clusters sorted. *)
Definition groupby_sum (cluster : list Z) (nlat nlon : nat)
    (a : list (list (list Z))) : list (list (list Z)) :=
  (λ c, sum_cells nlat nlon
          (omap (λ t, a !! t)
             (filter (λ t, cluster !! t = Some c) (seq 0 (length a)))))
    <$> merge_sort Z.le (remove_dups cluster).

(** [ExceedCounts]: the cluster of each step put in the place of its date
    (the sizes have to agree), and the sum of each cluster; for every
    percentile of [Exceed_xr].  With the counts comes their coordinate
    [cluster]. *)
Definition ExceedCounts (Data : list (string * Z)) (time : list string)
    (nlat nlon : nat) (Exceed_xr : list (list (list (list Z))))
  : option (list Z * list (list (list (list Z)))) :=
  cluster ← loc Data time;
  if decide (length cluster = length time)
  then Some (merge_sort Z.le (remove_dups cluster),
             groupby_sum cluster nlat nlon <$> Exceed_xr)
  else None.

(** [count / total * 100] on integers, as numpy divides them: [0 / 0] is
    NaN.  (The total is a sum that the count is part of, so no other
    division by zero comes up.) *)
Definition percent_of (count total : Z) : pyfloat :=
  if decide (total = 0) then NaN
  else Num (QcZ count / QcZ total * QcZ 100)%Qc.

(** [Exceed_Perc = ExceedCounts/ExceedCounts.sum(dim=['cluster'])*100],
    for one percentile: the grids by cluster. *)
Definition percent_grids (nlat nlon : nat) (total : nat → nat → Z)
    (counts : list (list (list Z))) : list (list (list pyfloat)) :=
  (λ grid, (λ la, (λ lo, percent_of (default 0 (grid !! la ≫= (.!! lo)))
                                    (total la lo))
                    <$> seq 0 nlon) <$> seq 0 nlat) <$> counts.

Definition Exceed_Perc (nlat nlon : nat) (counts : list (list (list Z)))
  : list (list (list pyfloat)) :=
  percent_grids nlat nlon (cell_sum counts) counts.

(** *** Every step is in one cluster *)

Lemma cell_sum_app (g1 g2 : list (list (list Z))) (la lo : nat) :
  cell_sum (g1 ++ g2) la lo = cell_sum g1 la lo + cell_sum g2 la lo.
Proof.
  unfold cell_sum. rewrite omap_app, foldr_app.
  induction (omap _ g1) as [|x l IH]; simpl; [lia|]. rewrite IH. lia.
Qed.

Lemma sum_cells_cell (nlat nlon : nat) (grids : list (list (list Z))) (la lo : nat) :
  (la < nlat)%nat → (lo < nlon)%nat →
  sum_cells nlat nlon grids !! la ≫= (.!! lo) = Some (cell_sum grids la lo).
Proof.
  intros Hla Hlo. unfold sum_cells.
  rewrite list_lookup_fmap, lookup_seq_lt by done. simpl.
  by rewrite list_lookup_fmap, lookup_seq_lt.
Qed.

(** The steps of cluster [c] among the first [n]. *)
Definition steps_of (cluster : list Z) (c : Z) (n : nat) : list nat :=
  filter (λ t, cluster !! t = Some c) (seq 0 n).

Definition group_sum (cluster : list Z) (a : list (list (list Z)))
    (la lo : nat) (n : nat) (c : Z) : Z :=
  cell_sum (omap (λ t, a !! t) (steps_of cluster c n)) la lo.

Lemma group_sum_S (cluster : list Z) (a : list (list (list Z)))
    (la lo : nat) (n : nat) (c : Z) (g : list (list Z)) :
  a !! n = Some g →
  group_sum cluster a la lo (S n) c
  = group_sum cluster a la lo n c
    + (if decide (cluster !! n = Some c) then cell_sum [g] la lo else 0).
Proof.
  intros Hg. unfold group_sum, steps_of.
  rewrite seq_S, filter_app, omap_app, cell_sum_app. f_equal.
  cbn [Nat.add]. rewrite filter_cons, filter_nil.
  case_decide; [|done]. simpl. by rewrite Hg.
Qed.

Lemma sum_indicator (cs : list Z) (c0 x : Z) :
  NoDup cs → c0 ∈ cs →
  foldr Z.add 0 ((λ c, if decide (Some c0 = Some c) then x else 0) <$> cs) = x.
Proof.
  induction 1 as [|c cs Hc Hnd IH]; intros Hin; [by apply not_elem_of_nil in Hin|].
  cbn [fmap list_fmap foldr].
  change (list_fmap Z Z (λ c, if decide (Some c0 = Some c) then x else 0) cs)
    with ((λ c, if decide (Some c0 = Some c) then x else 0) <$> cs).
  destruct (decide (c0 = c)) as [->|Hne].
  - rewrite decide_True by done.
    assert (foldr Z.add 0 ((λ c', if decide (Some c = Some c') then x else 0) <$> cs) = 0)
      as ->; [|lia].
    clear IH Hnd Hin. induction cs as [|c' cs IH]; [done|].
    cbn [fmap list_fmap foldr].
    rewrite decide_False by (intros [= ->]; apply Hc; left).
    rewrite IH; [done|]. intros Hin. apply Hc. by right.
  - rewrite decide_False by congruence.
    apply elem_of_cons in Hin as [?|Hin]; [done|]. rewrite IH by done. lia.
Qed.

Lemma sum_add (f g : Z → Z) (cs : list Z) :
  foldr Z.add 0 ((λ c, f c + g c) <$> cs)
  = foldr Z.add 0 (f <$> cs) + foldr Z.add 0 (g <$> cs).
Proof. induction cs as [|c cs IH]; csimpl; lia. Qed.

(** Summed over the clusters, the sums by cluster give the sum over the
    steps. *)
Lemma groups_add_up (cluster : list Z) (a : list (list (list Z)))
    (la lo : nat) (cs : list Z) (n : nat) :
  NoDup cs → (∀ c, c ∈ cluster → c ∈ cs) →
  (n ≤ length a)%nat → (n ≤ length cluster)%nat →
  foldr Z.add 0 (group_sum cluster a la lo n <$> cs) = cell_sum (take n a) la lo.
Proof.
  intros Hnd Hall. induction n as [|n IH]; intros Ha Hc.
  { rewrite take_0. clear. induction cs as [|c cs IH]; [done|].
    cbn [fmap list_fmap foldr].
    change (list_fmap Z Z (group_sum cluster a la lo 0) cs)
      with (group_sum cluster a la lo 0 <$> cs).
    by rewrite IH. }
  destruct (lookup_lt_is_Some_2 a n) as [g Hg]; [lia|].
  destruct (lookup_lt_is_Some_2 cluster n) as [c0 Hc0]; [lia|].
  rewrite (list_fmap_ext _ (λ c, group_sum cluster a la lo n c
     + (if decide (Some c0 = Some c) then cell_sum [g] la lo else 0)) cs).
  2:{ intros _ c _. rewrite (group_sum_S _ _ _ _ _ _ g Hg). by rewrite Hc0. }
  rewrite sum_add, IH by lia.
  rewrite sum_indicator; [|done|].
  2:{ apply Hall. apply list_elem_of_lookup. eauto. }
  by rewrite (take_S_r _ _ _ Hg), cell_sum_app.
Qed.

Lemma loc_length_values (Data : list (string * Z)) (labels : list string)
    (cluster : list Z) :
  loc Data labels = Some cluster → (length labels ≤ length cluster)%nat.
Proof.
  unfold loc. destruct (mapM _ labels) as [rows|] eqn:Hrows; [|done].
  cbn [mbind option_bind]. intros [= <-].
  apply mapM_Some_1 in Hrows.
  induction Hrows as [|l row labels rows Hrow _ IH]; [done|].
  cbn [concat length]. rewrite length_app.
  simpl in Hrow. case_decide as Hfound; [done|]. injection Hrow as <-.
  rewrite length_fmap. destruct (filter _ Data); [done|]. simpl. lia.
Qed.

(** *** The percentages of a cell *)


Lemma ExceedCounts_cell_sum (Data : list (string * Z)) (time : list string)
    (nlat nlon : nat) (Exceed_xr : list (list (list (list Z))))
    (clusters : list Z) (counts : list (list (list (list Z)))) :
  ExceedCounts Data time nlat nlon Exceed_xr = Some (clusters, counts) →
  NoDup clusters ∧ Sorted Z.le clusters
  ∧ length counts = length Exceed_xr
  ∧ ∀ k field la lo,
      Exceed_xr !! k = Some field → length field = length time →
      (la < nlat)%nat → (lo < nlon)%nat →
      ∃ by_cluster, counts !! k = Some by_cluster
        ∧ length by_cluster = length clusters
        ∧ cell_sum by_cluster la lo = cell_sum field la lo.
Proof.
  unfold ExceedCounts.
  destruct (loc Data time) as [cluster|] eqn:Hloc; [|done].
  cbn [mbind option_bind]. case_decide as Hlen; [|done]. intros [= <- <-].
  set (cs := merge_sort Z.le (remove_dups cluster)).
  assert (Hperm : cs ≡ₚ remove_dups cluster) by apply merge_sort_Permutation.
  assert (Hnd : NoDup cs) by (rewrite Hperm; apply NoDup_remove_dups).
  split; [done|]. split; [apply Sorted_merge_sort; apply _|].
  split; [by rewrite length_fmap|].
  intros k field la lo Hfield Hflen Hla Hlo.
  rewrite list_lookup_fmap, Hfield. simpl. eexists. split; [done|].
  unfold groupby_sum. fold cs. split; [by rewrite length_fmap|].
  trans (cell_sum (take (length field) field) la lo); [|by rewrite take_ge].
  rewrite <-(groups_add_up cluster field la lo cs (length field)); try done; try lia.
  2:{ intros c Hc. rewrite Hperm. by apply elem_of_remove_dups. }
  unfold cell_sum at 1. f_equal.
  clear Hnd Hperm. induction cs as [|c cs IH]; [done|].
  cbn [fmap list_fmap]. rewrite Anomalies.omap_cons.
  rewrite sum_cells_cell by done. f_equal. exact IH.
Qed.

(** *** The steps above the threshold, counted *)

Lemma cell_sum_exceed (ds : DataArray string) (q : Qc) (la lo : nat) :
  well_shaped ds → (la < nlat ds)%nat → (lo < nlon ds)%nat →
  cell_sum (exceed ds (thresholds ds q)) la lo
  = Z.of_nat (length (days_over ds q la lo)).
Proof.
  intros [Hlen Hgrids] Hla Hlo.
  rewrite length_days_over by done. clear Hlen.
  unfold cell_sum, exceed, series.
  induction Hgrids as [|grid grids [Hrows Hcols] _ IH]; [done|].
  cbn [fmap list_fmap]. rewrite !Anomalies.omap_cons.
  destruct (lookup_lt_is_Some_2 grid la) as [row Hrow]; [lia|].
  assert (length row = nlon ds) as Hrowlen.
  { rewrite Forall_forall in Hcols. apply Hcols.
    apply list_elem_of_lookup. eauto. }
  destruct (lookup_lt_is_Some_2 row lo) as [v Hv]; [lia|].
  assert (cell grid la lo = Some v) as Hcell.
  { unfold cell. by rewrite Hrow. }
  rewrite Hcell.
  rewrite lookup_zip_with, Hrow. cbn [mbind option_bind].
  unfold thresholds at 1.
  rewrite list_lookup_fmap, lookup_seq_lt by done.
  cbn [fmap option_fmap option_map mbind option_bind].
  rewrite lookup_zip_with, Hv. cbn [mbind option_bind].
  rewrite list_lookup_fmap, lookup_seq_lt by done.
  cbn [fmap option_fmap option_map mbind option_bind foldr].
  rewrite IH.
  change (cell grid la lo) with (grid !! la ≫= (.!! lo)) in Hcell.
  cbn [Nat.add].
  destruct (fgt v (threshold ds q la lo)) eqn:Hf; cbn [Z.b2z].
  - rewrite filter_cons_True by done. cbn [length]. lia.
  - rewrite filter_cons_False by (by rewrite Hf). lia.
Qed.

(** X22: the extremes of a grid cell are shared out among the clusters:
    for each percentile, the counts of [ExceedCounts] at the cell, summed
    over the clusters, give the number of days that [dates_extreme] lists
    for the cell at that percentile; there is one count per cluster that
    occurs, the clusters in ascending order. *)
Theorem clusters_share_the_extremes (Data : list (string * Z))
    (EOBS : DataArray string) (P_used : list Z)
    (clusters : list Z) (counts : list (list (list (list Z))))
    (Exceed : list (list (list (list Z)))) (shown : list warning)
    (k : nat) (p : Z) (la lo : nat) :
  well_shaped EOBS → time EOBS ≠ [] →
  Forall (λ p, 0 ≤ p ≤ 100) P_used → P_used !! k = Some p →
  (la < nlat EOBS)%nat → (lo < nlon EOBS)%nat →
  Exceed_xr EOBS P_used = Some (Exceed, shown) →
  ExceedCounts Data (time EOBS) (nlat EOBS) (nlon EOBS) Exceed
  = Some (clusters, counts) →
  NoDup clusters ∧ Sorted Z.le clusters
  ∧ ∃ DaysExceed days by_cluster,
      dates_extreme EOBS (QcZ p / QcZ 100)%Qc = Some (DaysExceed, [])
      ∧ DaysExceed !! (la * nlon EOBS + lo)%nat = Some days
      ∧ counts !! k = Some by_cluster
      ∧ length by_cluster = length clusters
      ∧ cell_sum by_cluster la lo = Z.of_nat (length days).
Proof.
  intros Hwf Htime HP Hk Hla Hlo HE HC.
  rewrite Exceed_xr_eq in HE by done. injection HE as <- <-.
  destruct (ExceedCounts_cell_sum _ _ _ _ _ _ _ HC) as (Hnd & Hsorted & _ & Hcells).
  split; [done|]. split; [done|].
  assert (Hq : (0 ≤ QcZ p / QcZ 100 ≤ 1)%Qc).
  { apply percent_in_range. rewrite Forall_forall in HP. apply HP.
    apply list_elem_of_lookup. eauto. }
  destruct (dates_extreme_cell EOBS _ la lo Hwf Htime Hq Hla Hlo)
    as (DaysExceed & Hde & _ & Hcell).
  destruct (Hcells k (exceed EOBS (thresholds EOBS (QcZ p / QcZ 100))) la lo)
    as (by_cluster & Hby & Hlen & Hsum); try done.
  { by rewrite list_lookup_fmap, Hk. }
  { unfold exceed. rewrite length_fmap. by destruct Hwf as [-> _]. }
  exists DaysExceed, (days_over EOBS (QcZ p / QcZ 100) la lo), by_cluster.
  split_and!; try done.
  rewrite Hsum. by apply cell_sum_exceed.
Qed.



Local Open Scope string_scope.

(** Three days in two clusters; the cell is above its median on the second
    day only, a day of cluster 4. *)
Example ExceedCounts_example :
  ExceedCounts [("19790102", 4); ("19790103", 4); ("19790104", 1)]
    ["19790102"; "19790103"; "19790104"] 1 1 [ [ [[0]]; [[1]]; [[0]] ] ]
  = Some ([1; 4], [ [ [[0]]; [[1]] ] ]).
Proof. reflexivity. Qed.

(** A day without a cluster. *)
Example ExceedCounts_raises :
  ExceedCounts [("19790102", 4)] ["19790102"; "19790103"] 1 1 [ [ [[0]]; [[1]] ] ]
  = None.
Proof. reflexivity. Qed.

Example Exceed_Perc_example :
  Exceed_Perc 1 2 [ [[1; 0]]; [[3; 0]] ]
  = [ [[Num (QcZ 25); NaN]]; [[Num (QcZ 75); NaN]] ].
Proof.
  vm_compute.
  apply (f_equal (λ qs : Qc * Qc, [ [[Num qs.1; NaN]]; [[Num qs.2; NaN]] ])
           (x := (_, _)) (y := (QcZ 25, QcZ 75))).
  f_equal; by apply Qc_is_canon.
Qed.

Lemma clusters_share_the_extremes_witness :
  ∃ days by_cluster,
    dates_extreme example_field (QcZ 50 / QcZ 100)%Qc
    = Some ([days; []], [])
    ∧ [ [ [[0; 0]]; [[1; 0]] ] ] !! 0%nat = Some by_cluster
    ∧ cell_sum by_cluster 0 0 = Z.of_nat (length days).
Proof.
  assert (Htime : time example_field ≠ []) by discriminate.
  assert (HP : Forall (λ p, 0 ≤ p ≤ 100)%Z [50%Z]) by (repeat constructor; lia).
  assert (Hk : [50%Z] !! 0%nat = Some 50%Z) by reflexivity.
  assert (Hla : (0 < nlat example_field)%nat) by (simpl; lia).
  assert (Hlo : (0 < nlon example_field)%nat) by (simpl; lia).
  assert (HC : ExceedCounts [("19790102", 4); ("19790103", 4); ("19790104", 1)]
                 (time example_field) (nlat example_field) (nlon example_field)
                 [ [ [[0; 0]]; [[1; 0]]; [[0; 0]] ] ]
               = Some ([1; 4], [ [ [[0; 0]]; [[1; 0]] ] ])) by reflexivity.
  destruct (clusters_share_the_extremes _ example_field [50%Z] _ _ _ _ 0 50 0 0
              example_field_shaped Htime HP Hk Hla Hlo Exceed_xr_example HC)
    as (_ & _ & DaysExceed & days & by_cluster & Hde & Hcell & Hby & _ & Hsum).
  exists days, by_cluster. split; [|split; [exact Hby|exact Hsum]].
  rewrite Hde. f_equal. f_equal.
  assert (Hex : dates_extreme example_field (QcZ 50 / QcZ 100)%Qc
                = Some ([["19790103"]; []], [])) by reflexivity.
  rewrite Hex in Hde. injection Hde as <-. simpl in Hcell.
  by injection Hcell as <-.
Defined.


(** *** The binomial test *)

Local Open Scope list_scope.
Local Open Scope Z_scope.

(** The number of subsets of [k] out of [n]. *)
Fixpoint choose (n k : nat) : nat :=
  match n, k with
  | _, O => 1
  | O, S _ => 0
  | S n', S k' => choose n' k' + choose n' (S k')
  end.

(** [binom.cdf(k, n, p)] of scipy, for an integer [k]: NaN when [p] is no
    probability, 0 below the support, 1 from [n] on, and in between the
    sum of the probabilities of 0 to [k] successes. *)
Definition binom_cdf (k : Z) (n : nat) (p : pyfloat) : pyfloat :=
  match p with
  | NaN => NaN
  | Num p =>
      if decide (0 ≤ p ≤ 1)%Qc then
        if decide (k < 0) then Num 0%Qc
        else if decide (Z.of_nat n ≤ k) then Num 1%Qc
        else Num (sum_Qc ((λ i, Qcnat (choose n i) * p ^ i * (1 - p) ^ (n - i))%Qc
                            <$> seq 0 (Z.to_nat k + 1)))
      else NaN
  end.

(** Two arrays of one dimension broadcast against each other: of the same
    length, or one of them of length 1. *)
Definition broadcast {A B} (l : list A) (k : list B) : option (list (A * B)) :=
  if decide (length l = length k) then Some (zip l k)
  else match l, k with
       | [x], _ => Some ((λ y, (x, y)) <$> k)
       | _, [y] => Some ((λ x, (x, y)) <$> l)
       | _, _ => None
       end.

(** [binom.cdf(k=occurrences-1, n=occurrences.sum(), p=propabilities)]:
    the occurrences are the counts of a grid cell by cluster. *)
Definition binom_test (occurrences : list nat) (propabilities : list pyfloat)
  : option (list pyfloat) :=
  let n := sum_list occurrences in
  match broadcast occurrences propabilities with
  | Some pairs =>
      Some ((λ op : nat * pyfloat, binom_cdf (Z.of_nat op.1 - 1) n op.2)
              <$> pairs)
  | None => None
  end.

(** A float that is a probability. *)
Definition probability (p : pyfloat) : bool :=
  match p with
  | NaN => false
  | Num p => bool_decide (0 ≤ p ≤ 1)%Qc
  end.

Lemma binom_cdf_below (n : nat) (p : pyfloat) :
  binom_cdf (-1) n p = if probability p then Num 0%Qc else NaN.
Proof.
  unfold binom_cdf, probability. destruct p as [|p]; [done|].
  case_decide as Hp.
  - by rewrite bool_decide_eq_true_2.
  - by rewrite bool_decide_eq_false_2.
Qed.

Lemma binom_test_lookup (occurrences : list nat) (propabilities : list pyfloat)
    (result : list pyfloat) (c o : nat) (p : pyfloat) :
  length propabilities = length occurrences →
  binom_test occurrences propabilities = Some result →
  occurrences !! c = Some o → propabilities !! c = Some p →
  result !! c = Some (binom_cdf (Z.of_nat o - 1) (sum_list occurrences) p).
Proof.
  intros Hlen. unfold binom_test, broadcast.
  rewrite decide_True by done. intros [= <-] Ho Hp.
  by rewrite list_lookup_fmap, lookup_zip_with, Ho, Hp.
Qed.

(** X24: a cluster in which the grid cell has no extreme is never flagged
    as significantly high; it is flagged as significantly low (-1) as soon
    as the lower limit of its frequency is a probability, however few the
    extremes of the cell are in all, and not flagged (0) otherwise: the
    test value is the probability of fewer than 0 successes, 0. *)
Theorem cluster_without_extremes (occurrences : list nat)
    (Perc_Upper Perc_Lower Binom_Cum_Upper Binom_Cum_Lower : list pyfloat)
    (c : nat) (pu pl : pyfloat) :
  length Perc_Upper = length occurrences →
  length Perc_Lower = length occurrences →
  binom_test occurrences Perc_Upper = Some Binom_Cum_Upper →
  binom_test occurrences Perc_Lower = Some Binom_Cum_Lower →
  occurrences !! c = Some 0%nat →
  Perc_Upper !! c = Some pu → Perc_Lower !! c = Some pl →
  Binom_Cum_Upper !! c = Some (if probability pu then Num 0%Qc else NaN)
  ∧ Binom_Cum_Lower !! c = Some (if probability pl then Num 0%Qc else NaN)
  ∧ Sign Binom_Cum_Upper Binom_Cum_Lower !! c
    = Some (if probability pl then -1 else 0).
Proof.
  intros Hlu Hll Hu Hl Ho Hpu Hpl.
  pose proof (binom_test_lookup _ _ _ c 0 pu Hlu Hu Ho Hpu) as Hcu.
  pose proof (binom_test_lookup _ _ _ c 0 pl Hll Hl Ho Hpl) as Hcl.
  change (Z.of_nat 0 - 1) with (-1) in Hcu, Hcl.
  rewrite binom_cdf_below in Hcu, Hcl.
  split; [done|]. split; [done|].
  unfold Sign. rewrite lookup_zip_with, Hcu, Hcl. cbn [mbind option_bind].
  f_equal. by destruct (probability pu), (probability pl).
Qed.

(** Three extremes, none of them in the second cluster. *)
Example binom_test_example :
  binom_test [2; 0; 1]%nat [Num (lit 1 2); Num (lit 1 2); Num (lit 1 2)]
  = Some [Num (lit 1 2); Num 0%Qc; Num (lit 1 8)].
Proof.
  vm_compute.
  apply (f_equal (λ qs : Qc * Qc * Qc, Some [Num qs.1.1; Num qs.1.2; Num qs.2])
           (x := (_, _, _)) (y := (lit 1 2, 0%Qc, lit 1 8))).
  repeat f_equal; by apply Qc_is_canon.
Qed.

Lemma cluster_without_extremes_witness :
  Sign [Num (lit 1 2); Num 0%Qc; Num (lit 1 8)]
       [Num (lit 1 2); Num 0%Qc; Num (lit 1 8)] !! 1%nat
  = Some (-1).
Proof.
  assert (Hlen : length [Num (lit 1 2); Num (lit 1 2); Num (lit 1 2)]
                 = length [2; 0; 1]%nat) by reflexivity.
  assert (Ho : [2; 0; 1]%nat !! 1%nat = Some 0%nat) by reflexivity.
  assert (Hp : [Num (lit 1 2); Num (lit 1 2); Num (lit 1 2)] !! 1%nat
               = Some (Num (lit 1 2))) by reflexivity.
  exact (proj2 (proj2 (cluster_without_extremes [2; 0; 1]%nat _ _ _ _ 1
                         (Num (lit 1 2)) (Num (lit 1 2))
                         Hlen Hlen binom_test_example binom_test_example
                         Ho Hp Hp))).
Defined.

End Clusters.
